(** * Traefik: runtime configuration store, TCP proxy and balancer chain

    A shallow embedding of the parts of the repository that hold the
    runtime configuration ([runtime.go] and [http_config.go] of package
    [dynamic]), the TCP forwarding proxy ([pkg/tcp/proxy.go]) and the
    construction of the balancer middleware chain
    ([server/server_loadbalancer.go]), with the properties of each. *)

From Stdlib Require Import ZArith Lia Bool Ascii String.
From stdpp Require Import base option list sorting strings gmap fin_maps.

Local Open Scope string_scope.
Local Open Scope list_scope.
#[local] Set Warnings "-clear-no-such-hyp".

(** ** Go strings

    A Go string is a sequence of bytes; [==] is [String.eqb], [<] is the
    bytewise lexical order, which is [String.compare]. *)

Module GoString.

(** The order [sort.Strings] sorts by. *)
Definition le (s1 s2 : string) : Prop := String.leb s1 s2 = true.

#[global] Instance le_dec : RelDecision le.
Proof. intros s1 s2. unfold le. apply _. Defined.

(** [strings.Split(s, sep)] for a separator of one byte: the pieces between
    the occurrences of [sep], in order; a string without [sep] gives one
    piece, the string itself. *)
Fixpoint Split (s : string) (sep : ascii) : list string :=
  match s with
  | EmptyString => [EmptyString]
  | String c s' =>
      if Ascii.eqb c sep then EmptyString :: Split s' sep
      else match Split s' sep with
           | [] => [String c EmptyString]
           | p :: ps => String c p :: ps
           end
  end.

(** [strings.Contains] for one byte, used to state what [Split] does. *)
Fixpoint contains_byte (s : string) (sep : ascii) : bool :=
  match s with
  | EmptyString => false
  | String c s' => Ascii.eqb c sep || contains_byte s' sep
  end.

(** [sort.Strings]: the ascending rearrangement of the slice. *)
Definition sort_strings (l : list string) : list string := merge_sort le l.

End GoString.

(** ** Package dynamic: the data model *)

Module Dynamic.

Definition RuntimeStatusEnabled : string := "enabled".
Definition RuntimeStatusDisabled : string := "disabled".
Definition RuntimeStatusWarning : string := "warning".

(** An [error] value is used through [err.Error()] only. *)
Record error := { Error : string }.

Section Model.

(** [types.Domain], the [Middleware] union, [TCPRouter] and [TCPService]
    are declared outside the files at hand. Nothing below looks inside them,
    except for the [Service] field of a [TCPRouter]. *)
Context {Domain Middleware TCPRouter TCPService : Type}.
Context (TCPRouter_Service : TCPRouter -> string).

Record RouterTLSConfig := {
  Options : string;
  CertResolver : string;
  Domains : list Domain
}.

Record Router := {
  EntryPoints : list string;
  Middlewares : list string;
  Service : string;
  Rule : string;
  Priority : Z;
  TLS : option RouterTLSConfig
}.

Record Cookie := {
  cookie_Name : string;
  Secure : bool;
  HTTPOnly : bool
}.

Record Sticky := { sticky_Cookie : option Cookie }.

Record WRRService := { wrr_Name : string; Weight : Z }.

(** A slice is nil or holds elements; [reflect.DeepEqual] tells a nil slice
    from an empty one, so is a map. *)
Record WeightedRoundRobin := {
  wrr_Services : option (list WRRService);
  wrr_Sticky : option Sticky
}.

Record ResponseForwarding := { FlushInterval : string }.

Record Server := {
  URL : string;
  server_Scheme : string;
  server_Port : string
}.

Record HealthCheck := {
  hc_Scheme : string;
  Path : string;
  hc_Port : Z;
  Interval : string;
  Timeout : string;
  Hostname : string;
  Headers : option (gmap string string)
}.

Record ServersLoadBalancer := {
  lb_Sticky : option Sticky;
  Servers : option (list Server);
  lb_HealthCheck : option HealthCheck;
  PassHostHeader : bool;
  lb_ResponseForwarding : option ResponseForwarding
}.

Record service := {
  LoadBalancer : option ServersLoadBalancer;
  Weighted : option WeightedRoundRobin
}.

(** The maps of a decoded configuration are only read ([len], [range]): a
    nil map and an empty one behave alike there, and the maps hold no nil
    pointer, so the entries are taken by value. *)
Record HTTPConfiguration := {
  http_Routers : gmap string Router;
  http_Middlewares : gmap string Middleware;
  http_Services : gmap string service
}.

(** [TCPConfiguration] and [Configuration] are declared outside the files
    at hand; these are the fields [NewRuntimeConfig] reads. *)
Record TCPConfiguration := {
  tcp_Routers : gmap string TCPRouter;
  tcp_Services : gmap string TCPService
}.

Record Configuration := {
  HTTP : option HTTPConfiguration;
  TCP : option TCPConfiguration
}.

(** *** Runtime entities

    Each [...Info] embeds a pointer to its configuration; it is never nil
    in a store built by [NewRuntimeConfig] from such a configuration, and
    is taken by value. *)
Record RouterInfo := {
  router : Router;
  Err : list string;
  Status : string
}.

Record TCPRouterInfo := {
  tcpRouter : TCPRouter;
  tcpr_Err : string
}.

Record MiddlewareInfo := {
  middleware : Middleware;
  mid_Err : list string;
  mid_UsedBy : list string
}.

(** [serverStatus] is a Go map, that is a reference (or nil) to a map
    object; [loc] names map objects in a heap of them. The mutex is not
    modelled. *)
Abbreviation loc := positive (only parsing).

Record ServiceInfo := {
  svc : service;
  svc_Err : list string;
  svc_Status : string;
  svc_UsedBy : list string;
  serverStatus : option loc
}.

Record TCPServiceInfo := {
  tcpService : TCPService;
  tcps_Err : option error;
  tcps_UsedBy : list string
}.

(** A map field of the store is nil ([None]) or allocated. *)
Record RuntimeConfiguration := {
  Routers : option (gmap string RouterInfo);
  rt_Middlewares : option (gmap string MiddlewareInfo);
  Services : option (gmap string ServiceInfo);
  TCPRouters : option (gmap string TCPRouterInfo);
  TCPServices : option (gmap string TCPServiceInfo)
}.

(** Reading a Go map: [m[k]] with the comma-ok form, [len(m)] and the
    entries [range m] visits (in an order Go leaves open; the model takes
    the one of [map_to_list]). A nil map reads as an empty one. *)
Definition go_lookup {V} (m : option (gmap string V)) (k : string) : option V :=
  m ≫= (fun m' => m' !! k).

Definition go_range {V} (m : option (gmap string V)) : list (string * V) :=
  match m with Some m' => map_to_list m' | None => [] end.

(** [m[k].f = ...]: an assignment through the pointer stored under [k]. *)
Definition go_update {V} (f : V -> V) (k : string) (m : option (gmap string V))
  : option (gmap string V) :=
  alter f k <$> m.

(** A loop [for k := range m] whose body touches the entry under [k] only. *)
Definition go_each {V} (f : V -> V) (m : option (gmap string V))
  : option (gmap string V) :=
  (fun m' : gmap string V => f <$> m') <$> m.

(** *** NewRuntimeConfig *)

(** [make] followed by the loop that fills the map, under [len(src) > 0]. *)
Definition wrap_entries {A B} (f : A -> B) (src : gmap string A)
  : option (gmap string B) :=
  if decide (0 < size src)%nat then Some (f <$> src) else None.

Definition newRouterInfo (v : Router) : RouterInfo :=
  {| router := v; Err := []; Status := RuntimeStatusEnabled |}.

Definition newServiceInfo (v : service) : ServiceInfo :=
  {| svc := v; svc_Err := []; svc_Status := RuntimeStatusEnabled;
     svc_UsedBy := []; serverStatus := None |}.

Definition newMiddlewareInfo (v : Middleware) : MiddlewareInfo :=
  {| middleware := v; mid_Err := []; mid_UsedBy := [] |}.

Definition newTCPRouterInfo (v : TCPRouter) : TCPRouterInfo :=
  {| tcpRouter := v; tcpr_Err := "" |}.

Definition newTCPServiceInfo (v : TCPService) : TCPServiceInfo :=
  {| tcpService := v; tcps_Err := None; tcps_UsedBy := [] |}.

Definition emptyRuntimeConfiguration : RuntimeConfiguration :=
  {| Routers := None; rt_Middlewares := None; Services := None;
     TCPRouters := None; TCPServices := None |}.

Definition NewRuntimeConfig (conf : Configuration) : RuntimeConfiguration :=
  match HTTP conf, TCP conf with
  | None, None => emptyRuntimeConfiguration
  | http, tcp =>
      {| Routers := http ≫= (fun h => wrap_entries newRouterInfo (http_Routers h));
         Services := http ≫= (fun h => wrap_entries newServiceInfo (http_Services h));
         rt_Middlewares :=
           http ≫= (fun h => wrap_entries newMiddlewareInfo (http_Middlewares h));
         TCPRouters := tcp ≫= (fun t => wrap_entries newTCPRouterInfo (tcp_Routers t));
         TCPServices :=
           tcp ≫= (fun t => wrap_entries newTCPServiceInfo (tcp_Services t)) |}
  end.

(** *** Qualified names *)

Definition getProviderName (elementName : string) : string :=
  let parts := GoString.Split elementName "@" in
  if decide (1 < length parts)%nat then default "" (parts !! 1%nat) else "".

Definition getQualifiedName (provider elementName : string) : string :=
  let parts := GoString.Split elementName "@" in
  if decide (length parts = 1%nat) then elementName +:+ "@" +:+ provider
  else elementName.

(** *** PopulateUsedBy *)

Definition router_set_Status (st : string) (r : RouterInfo) : RouterInfo :=
  {| router := router r; Err := Err r; Status := st |}.

Definition service_set_Status (st : string) (s : ServiceInfo) : ServiceInfo :=
  {| svc := svc s; svc_Err := svc_Err s; svc_Status := st;
     svc_UsedBy := svc_UsedBy s; serverStatus := serverStatus s |}.

Definition service_set_UsedBy (u : list string) (s : ServiceInfo) : ServiceInfo :=
  {| svc := svc s; svc_Err := svc_Err s; svc_Status := svc_Status s;
     svc_UsedBy := u; serverStatus := serverStatus s |}.

Definition middleware_set_UsedBy (u : list string) (m : MiddlewareInfo)
  : MiddlewareInfo :=
  {| middleware := middleware m; mid_Err := mid_Err m; mid_UsedBy := u |}.

Definition tcpService_set_UsedBy (u : list string) (s : TCPServiceInfo)
  : TCPServiceInfo :=
  {| tcpService := tcpService s; tcps_Err := tcps_Err s; tcps_UsedBy := u |}.

Definition set_Routers v (r : RuntimeConfiguration) : RuntimeConfiguration :=
  {| Routers := v; rt_Middlewares := rt_Middlewares r; Services := Services r;
     TCPRouters := TCPRouters r; TCPServices := TCPServices r |}.

Definition set_Middlewares v (r : RuntimeConfiguration) : RuntimeConfiguration :=
  {| Routers := Routers r; rt_Middlewares := v; Services := Services r;
     TCPRouters := TCPRouters r; TCPServices := TCPServices r |}.

Definition set_Services v (r : RuntimeConfiguration) : RuntimeConfiguration :=
  {| Routers := Routers r; rt_Middlewares := rt_Middlewares r; Services := v;
     TCPRouters := TCPRouters r; TCPServices := TCPServices r |}.

Definition set_TCPServices v (r : RuntimeConfiguration) : RuntimeConfiguration :=
  {| Routers := Routers r; rt_Middlewares := rt_Middlewares r;
     Services := Services r; TCPRouters := TCPRouters r; TCPServices := v |}.

(** The lazy initialisation of [Status]. *)
Definition lazyStatus (st : string) : string :=
  if String.eqb st "" then RuntimeStatusEnabled else st.

(** What the pass writes besides the store: the entries of the error log. *)
Inductive logEntry :=
| LogRouterNotQualified (routerName : string)
| LogTCPRouterNotQualified (routerName : string).

Definition passState : Type := RuntimeConfiguration * list logEntry.

(** One turn of the inner loop over [routerInfo.Router.Middlewares]. *)
Definition linkMiddleware (routerName providerName : string)
  (r : RuntimeConfiguration) (midName : string) : RuntimeConfiguration :=
  let fullMidName := getQualifiedName providerName midName in
  match go_lookup (rt_Middlewares r) fullMidName with
  | None => r
  | Some _ =>
      set_Middlewares
        (go_update (fun m => middleware_set_UsedBy (mid_UsedBy m ++ [routerName]) m)
           fullMidName (rt_Middlewares r)) r
  end.

(** One turn of the loop over [r.Routers]. *)
Definition linkRouter (st : passState) (entry : string * RouterInfo) : passState :=
  let '(r, log) := st in
  let '(routerName, routerInfo) := entry in
  let r := set_Routers
             (go_update (fun ri => router_set_Status (lazyStatus (Status ri)) ri)
                routerName (Routers r)) r in
  let providerName := getProviderName routerName in
  if String.eqb providerName "" then (r, log ++ [LogRouterNotQualified routerName])
  else
    let r := foldl (linkMiddleware routerName providerName) r
               (Middlewares (router routerInfo)) in
    let serviceName := getQualifiedName providerName (Service (router routerInfo)) in
    match go_lookup (Services r) serviceName with
    | None => (r, log)
    | Some _ =>
        (set_Services
           (go_update (fun s => service_set_UsedBy (svc_UsedBy s ++ [routerName]) s)
              serviceName (Services r)) r, log)
    end.

(** The loops over [r.Services], [r.Middlewares] and [r.TCPServices] touch,
    at each key, the entry under that key only. *)
Definition finishService (s : ServiceInfo) : ServiceInfo :=
  service_set_UsedBy (GoString.sort_strings (svc_UsedBy s))
    (service_set_Status (lazyStatus (svc_Status s)) s).

Definition finishMiddleware (m : MiddlewareInfo) : MiddlewareInfo :=
  middleware_set_UsedBy (GoString.sort_strings (mid_UsedBy m)) m.

Definition finishTCPService (s : TCPServiceInfo) : TCPServiceInfo :=
  tcpService_set_UsedBy (GoString.sort_strings (tcps_UsedBy s)) s.

(** One turn of the loop over [r.TCPRouters]. *)
Definition linkTCPRouter (st : passState) (entry : string * TCPRouterInfo)
  : passState :=
  let '(r, log) := st in
  let '(routerName, routerInfo) := entry in
  let providerName := getProviderName routerName in
  if String.eqb providerName "" then
    (r, log ++ [LogTCPRouterNotQualified routerName])
  else
    let serviceName :=
      getQualifiedName providerName (TCPRouter_Service (tcpRouter routerInfo)) in
    match go_lookup (TCPServices r) serviceName with
    | None => (r, log)
    | Some _ =>
        (set_TCPServices
           (go_update
              (fun s => tcpService_set_UsedBy (tcps_UsedBy s ++ [routerName]) s)
              serviceName (TCPServices r)) r, log)
    end.

(** The body of [PopulateUsedBy] on a non-nil receiver. *)
Definition populateUsedBy (r : RuntimeConfiguration) : passState :=
  let '(r, log) := foldl linkRouter (r, []) (go_range (Routers r)) in
  let r := set_Services (go_each finishService (Services r)) r in
  let r := set_Middlewares (go_each finishMiddleware (rt_Middlewares r)) r in
  let '(r, log) := foldl linkTCPRouter (r, log) (go_range (TCPRouters r)) in
  (set_TCPServices (go_each finishTCPService (TCPServices r)) r, log).

(** [PopulateUsedBy] on its pointer receiver: nothing happens on nil. *)
Definition PopulateUsedBy (r : option RuntimeConfiguration)
  : option RuntimeConfiguration * list logEntry :=
  match r with
  | None => (None, [])
  | Some r' => let '(r'', log) := populateUsedBy r' in (Some r'', log)
  end.

(** *** GetRoutersByEntryPoints *)

Definition contains (entryPoints : list string) (entryPointName : string) : bool :=
  existsb (fun name => String.eqb name entryPointName) entryPoints.

(** The result under construction and the entry point names reported by
    [Errorf("entryPoint %q doesn't exist", ...)]. *)
Definition partition : Type := gmap string (gmap string RouterInfo) * list string.

(** One turn of the loop over [eps]. *)
Definition placeRouter (entryPoints : list string) (rtName : string)
  (rt : RouterInfo) (acc : partition) (entryPointName : string) : partition :=
  let '(entryPointsRouters, log) := acc in
  if negb (contains entryPoints entryPointName) then
    (entryPointsRouters, log ++ [entryPointName])
  else
    let entryPointsRouters :=
      match entryPointsRouters !! entryPointName with
      | Some _ => entryPointsRouters
      | None => <[entryPointName := ∅]> entryPointsRouters
      end in
    (alter (fun routers => <[rtName := rt]> routers) entryPointName
       entryPointsRouters, log).

(** One turn of the loop over [r.Routers]. *)
Definition placeRouters (entryPoints : list string) (tls : bool)
  (acc : partition) (entry : string * RouterInfo) : partition :=
  let '(rtName, rt) := entry in
  if (tls && bool_decide (TLS (router rt) = None))
     || (negb tls && negb (bool_decide (TLS (router rt) = None)))
  then acc
  else
    let eps := EntryPoints (router rt) in
    let eps := if decide (length eps = 0%nat) then entryPoints else eps in
    foldl (placeRouter entryPoints rtName rt) acc eps.

Definition GetRoutersByEntryPoints (r : RuntimeConfiguration)
  (entryPoints : list string) (tls : bool) : partition :=
  foldl (placeRouters entryPoints tls) (∅, []) (go_range (Routers r)).

(** *** AddError *)

Definition RouterInfo_AddError (r : RouterInfo) (err : error) (critical : bool)
  : RouterInfo :=
  if existsb (fun value => String.eqb value (Error err)) (Err r) then r
  else
    let r := {| router := router r; Err := Err r ++ [Error err];
                Status := Status r |} in
    if critical then router_set_Status RuntimeStatusDisabled r
    else if negb (String.eqb (Status r) RuntimeStatusDisabled) then
      router_set_Status RuntimeStatusWarning r
    else r.

Definition ServiceInfo_AddError (s : ServiceInfo) (err : error) (critical : bool)
  : ServiceInfo :=
  if existsb (fun value => String.eqb value (Error err)) (svc_Err s) then s
  else
    let s := {| svc := svc s; svc_Err := svc_Err s ++ [Error err];
                svc_Status := svc_Status s; svc_UsedBy := svc_UsedBy s;
                serverStatus := serverStatus s |} in
    if critical then service_set_Status RuntimeStatusDisabled s
    else if negb (String.eqb (svc_Status s) RuntimeStatusDisabled) then
      service_set_Status RuntimeStatusWarning s
    else s.

(** How bad a status is: [enabled] (or any other text) below [warning]
    below [disabled]. *)
Definition severity (status : string) : nat :=
  if String.eqb status RuntimeStatusDisabled then 2
  else if String.eqb status RuntimeStatusWarning then 1
  else 0.

(** The calls of one build cycle, in order. *)
Definition RouterInfo_AddErrors (r : RouterInfo) (calls : list (error * bool))
  : RouterInfo :=
  foldl (fun r '(err, critical) => RouterInfo_AddError r err critical) r calls.

Definition ServiceInfo_AddErrors (s : ServiceInfo) (calls : list (error * bool))
  : ServiceInfo :=
  foldl (fun s '(err, critical) => ServiceInfo_AddError s err critical) s calls.

(** *** The per-server statuses

    The heap holds the map objects; a map value in Go is a reference to
    one, or nil. *)
Abbreviation mapHeap := (gmap loc (gmap string string)) (only parsing).

Definition service_set_serverStatus (m : option loc) (s : ServiceInfo)
  : ServiceInfo :=
  {| svc := svc s; svc_Err := svc_Err s; svc_Status := svc_Status s;
     svc_UsedBy := svc_UsedBy s; serverStatus := m |}.

(** [make(map[string]string)]: a new, empty map object. *)
Definition make_map (h : mapHeap) : loc * mapHeap :=
  let l := fresh (dom h) in (l, <[l := ∅]> h).

(** What a map value reads as: nil reads as the empty map. *)
Definition map_content (h : mapHeap) (m : option loc) : gmap string string :=
  match m with
  | Some l => default ∅ (h !! l)
  | None => ∅
  end.

(** [m[k] = v]; an assignment to an entry of a nil map panics. *)
Definition map_assign (m : option loc) (k v : string) (h : mapHeap)
  : option mapHeap :=
  match m with
  | Some l => Some (alter (fun c => <[k := v]> c) l h)
  | None => None
  end.

(** [delete(m, k)]; a no-op on a nil map. *)
Definition map_delete (m : option loc) (k : string) (h : mapHeap) : mapHeap :=
  match m with
  | Some l => alter (fun c => delete k c) l h
  | None => h
  end.

Definition UpdateServerStatus (s : ServiceInfo) (server status : string)
  (h : mapHeap) : ServiceInfo * mapHeap :=
  let '(s, h) :=
    match serverStatus s with
    | None => let '(l, h) := make_map h in (service_set_serverStatus (Some l) s, h)
    | Some _ => (s, h)
    end in
  (s, default h (map_assign (serverStatus s) server status h)).

(** The copy loop of [GetAllStatus], over the entries of the stored map. *)
Definition copy_entries (allStatus : loc) (entries : list (string * string))
  (h : mapHeap) : mapHeap :=
  foldl (fun h '(k, v) => default h (map_assign (Some allStatus) k v h)) h entries.

Definition GetAllStatus (s : ServiceInfo) (h : mapHeap) : option loc * mapHeap :=
  if decide (size (map_content h (serverStatus s)) = 0%nat) then (None, h)
  else
    let '(allStatus, h) := make_map h in
    (Some allStatus,
     copy_entries allStatus (map_to_list (map_content h (serverStatus s))) h).

(** *** Mergeable *)

(** [reflect.DeepEqual] at each type it meets below a
    [*ServersLoadBalancer]. Two pointers are deeply equal when both are nil,
    or neither is and what they point to is deeply equal. *)
Definition deepEqual_ptr {A} (eq : A -> A -> bool) (x y : option A) : bool :=
  match x, y with
  | None, None => true
  | Some a, Some b => eq a b
  | _, _ => false
  end.

(** Two slices: both nil, or neither, with the same length and deeply
    equal elements. *)
Fixpoint deepEqual_elems {A} (eq : A -> A -> bool) (x y : list A) : bool :=
  match x, y with
  | [], [] => true
  | a :: x', b :: y' => eq a b && deepEqual_elems eq x' y'
  | _, _ => false
  end.

Definition deepEqual_slice {A} (eq : A -> A -> bool) (x y : option (list A))
  : bool :=
  deepEqual_ptr (deepEqual_elems eq) x y.

(** Two maps: both nil, or neither, with the same length and each key of
    the first bound in the second to a deeply equal value. *)
Definition deepEqual_map (x y : option (gmap string string)) : bool :=
  deepEqual_ptr
    (fun m1 m2 : gmap string string =>
       Nat.eqb (size m1) (size m2)
       && forallb (fun '(k, v1) =>
                     match m2 !! k with
                     | Some v2 => String.eqb v1 v2
                     | None => false
                     end) (map_to_list m1)) x y.

Definition deepEqual_Cookie (x y : Cookie) : bool :=
  String.eqb (cookie_Name x) (cookie_Name y)
  && Bool.eqb (Secure x) (Secure y)
  && Bool.eqb (HTTPOnly x) (HTTPOnly y).

Definition deepEqual_Sticky (x y : Sticky) : bool :=
  deepEqual_ptr deepEqual_Cookie (sticky_Cookie x) (sticky_Cookie y).

Definition deepEqual_Server (x y : Server) : bool :=
  String.eqb (URL x) (URL y)
  && String.eqb (server_Scheme x) (server_Scheme y)
  && String.eqb (server_Port x) (server_Port y).

Definition deepEqual_HealthCheck (x y : HealthCheck) : bool :=
  String.eqb (hc_Scheme x) (hc_Scheme y)
  && String.eqb (Path x) (Path y)
  && Z.eqb (hc_Port x) (hc_Port y)
  && String.eqb (Interval x) (Interval y)
  && String.eqb (Timeout x) (Timeout y)
  && String.eqb (Hostname x) (Hostname y)
  && deepEqual_map (Headers x) (Headers y).

Definition deepEqual_ResponseForwarding (x y : ResponseForwarding) : bool :=
  String.eqb (FlushInterval x) (FlushInterval y).

Definition deepEqual_ServersLoadBalancer (x y : ServersLoadBalancer) : bool :=
  deepEqual_ptr deepEqual_Sticky (lb_Sticky x) (lb_Sticky y)
  && deepEqual_slice deepEqual_Server (Servers x) (Servers y)
  && deepEqual_ptr deepEqual_HealthCheck (lb_HealthCheck x) (lb_HealthCheck y)
  && Bool.eqb (PassHostHeader x) (PassHostHeader y)
  && deepEqual_ptr deepEqual_ResponseForwarding
       (lb_ResponseForwarding x) (lb_ResponseForwarding y).

(** The load balancers live in a heap, [Mergeable] gets two pointers into
    it (which may be the same one). *)
Abbreviation lbHeap := (gmap loc ServersLoadBalancer) (only parsing).

Definition set_Servers (v : option (list Server)) (l : ServersLoadBalancer)
  : ServersLoadBalancer :=
  {| lb_Sticky := lb_Sticky l; Servers := v; lb_HealthCheck := lb_HealthCheck l;
     PassHostHeader := PassHostHeader l;
     lb_ResponseForwarding := lb_ResponseForwarding l |}.

(** [reflect.DeepEqual(l, loadBalancer)] on the two pointers: equal
    pointers are deeply equal, others are compared through what they point
    to. [None] stands for the panic of a nil or dangling pointer. *)
Definition deepEqual_lbPtr (h : lbHeap) (l loadBalancer : loc) : option bool :=
  if decide (l = loadBalancer) then Some true
  else
    x ← h !! l; y ← h !! loadBalancer;
    Some (deepEqual_ServersLoadBalancer x y).

(** [Mergeable], statement by statement; the two deferred assignments run
    last, the later one first. *)
Definition Mergeable (h : lbHeap) (l loadBalancer : loc) : option (bool * lbHeap) :=
  x ← h !! l;
  let savedServers := Servers x in
  let h := alter (set_Servers None) l h in
  y ← h !! loadBalancer;
  let savedServersLB := Servers y in
  let h := alter (set_Servers None) loadBalancer h in
  result ← deepEqual_lbPtr h l loadBalancer;
  let h := alter (set_Servers savedServersLB) loadBalancer h in
  let h := alter (set_Servers savedServers) l h in
  Some (result, h).

(** What [Mergeable] is to decide: equal field by field, [Servers] left
    aside. *)
Definition equal_but_Servers (a b : ServersLoadBalancer) : Prop :=
  lb_Sticky a = lb_Sticky b
  /\ lb_HealthCheck a = lb_HealthCheck b
  /\ PassHostHeader a = PassHostHeader b
  /\ lb_ResponseForwarding a = lb_ResponseForwarding b.

End Model.

Abbreviation loc := positive (only parsing).
Abbreviation mapHeap := (gmap loc (gmap string string)) (only parsing).
Abbreviation lbHeap := (gmap loc ServersLoadBalancer) (only parsing).

Arguments RouterTLSConfig : clear implicits.
Arguments Router : clear implicits.
Arguments RouterInfo : clear implicits.
Arguments HTTPConfiguration : clear implicits.
Arguments TCPConfiguration : clear implicits.
Arguments Configuration : clear implicits.
Arguments TCPRouterInfo : clear implicits.
Arguments MiddlewareInfo : clear implicits.
Arguments TCPServiceInfo : clear implicits.
Arguments RuntimeConfiguration : clear implicits.
Arguments partition : clear implicits.
Arguments passState : clear implicits.

End Dynamic.

(** ** Package tcp: the forwarding proxy *)

Module Tcp.

Import Dynamic.

Section Proxy.

(** [time.Time] and [Time.Add] belong to the Go library; a [time.Duration]
    is a signed count of nanoseconds. *)
Context {Time : Type}.
Context (Time_Add : Time -> Z -> Time).

(** The resolved [*net.TCPAddr] is not looked into. *)
Record Proxy := {
  address : string;
  target : option string;
  terminationDelay : Z
}.

(** The two connections of one [ServeTCP] call. *)
Inductive connection := conn | connBackend.

(** What [connCopy] is told by the world: the result of [io.Copy], of
    [CloseWrite], the clock read by [time.Now()] and the result of
    [SetReadDeadline]. *)
Record outcome := {
  copy_err : option error;
  closeWrite_err : option error;
  now : Time;
  setReadDeadline_err : option error
}.

(** The operations a routine performs on the connections, the channel and
    the logger. *)
Inductive action :=
| Copy (dst src : connection)
| Send (err : option error)
| CloseWrite (dst : connection)
| SetReadDeadline (dst : connection) (t : Time)
| Close (c : connection)
| Debugf (msg : string) (err : error)
| Errorf (msg : string) (err : error).

(** [connCopy], as the sequence of operations it performs, first to last. *)
Definition connCopy (p : Proxy) (dst src : connection) (o : outcome)
  : list action :=
  [Copy dst src; Send (copy_err o); CloseWrite dst]
  ++ match closeWrite_err o with
     | Some errClose => [Debugf "Error while terminating connection: %v" errClose]
     | None =>
         if (0 <=? terminationDelay p)%Z then
           SetReadDeadline dst (Time_Add (now o) (terminationDelay p))
           :: match setReadDeadline_err o with
              | Some err => [Debugf "Error while setting deadline: %v" err]
              | None => []
              end
         else []
     end.

(** *** ServeTCP and its two routines

    [ServeTCP] runs as three routines that meet on the unbuffered channel
    [errChan]: a send and a receive happen together, in one step. The
    address the proxy resolves and keeps in [p.target] plays no part in
    what follows and is not tracked. *)
Inductive mainState :=
| Dialing            (* up to and including [net.DialTCP] *)
| Receiving1         (* at [err = <-errChan] *)
| Receiving2         (* at the final [<-errChan] *)
| Returned (dialed : bool).

(** A routine: what it has performed, and what it still has to. *)
Record routine := {
  done : list action;
  todo : list action
}.

Definition advance (r : routine) : routine :=
  match todo r with
  | a :: rest => {| done := done r ++ [a]; todo := rest |}
  | [] => r
  end.

Record system := {
  main : mainState;
  routine1 : routine;          (* [connCopy(conn, connBackend, errChan)] *)
  routine2 : routine;          (* [connCopy(connBackend, conn, errChan)] *)
  received : list (option error);   (* what [ServeTCP] got from [errChan] *)
  performed : list action      (* what [ServeTCP] itself did, in order *)
}.

Definition idle : routine := {| done := []; todo := [] |}.

Definition initial : system :=
  {| main := Dialing; routine1 := idle; routine2 := idle; received := [];
     performed := [] |}.

Definition is_Send (a : action) : bool :=
  match a with Send _ => true | _ => false end.

(** What [ServeTCP] does with a received value: the first is logged when it
    is an error, the second is dropped; the deferred [Close] calls run on
    return. *)
Definition on_receive (m : mainState) (err : option error)
  : mainState * list action :=
  match m with
  | Receiving1 =>
      (Receiving2,
       match err with
       | Some e => [Errorf "Error during connection: %v" e]
       | None => []
       end)
  | Receiving2 => (Returned true, [Close connBackend; Close conn])
  | _ => (m, [])
  end.

Definition waiting (m : mainState) : bool :=
  match m with Receiving1 | Receiving2 => true | _ => false end.

Inductive step (p : Proxy) (o1 o2 : outcome) : system -> system -> Prop :=
| step_resolve_failed s e :
    main s = Dialing ->
    step p o1 o2 s
      {| main := Returned false; routine1 := routine1 s; routine2 := routine2 s;
         received := received s;
         performed := performed s
                      ++ [Errorf "Error resolving tcp address: %v" e; Close conn] |}
| step_dial_failed s e :
    main s = Dialing ->
    step p o1 o2 s
      {| main := Returned false; routine1 := routine1 s; routine2 := routine2 s;
         received := received s;
         performed := performed s
                      ++ [Errorf "Error while connection to backend: %v" e;
                          Close conn] |}
| step_dialed s :
    main s = Dialing ->
    step p o1 o2 s
      {| main := Receiving1;
         routine1 := {| done := []; todo := connCopy p conn connBackend o1 |};
         routine2 := {| done := []; todo := connCopy p connBackend conn o2 |};
         received := received s; performed := performed s |}
| step_routine1 s a rest :
    todo (routine1 s) = a :: rest -> is_Send a = false ->
    step p o1 o2 s
      {| main := main s; routine1 := advance (routine1 s);
         routine2 := routine2 s;
         received := received s; performed := performed s |}
| step_routine2 s a rest :
    todo (routine2 s) = a :: rest -> is_Send a = false ->
    step p o1 o2 s
      {| main := main s; routine1 := routine1 s;
         routine2 := advance (routine2 s);
         received := received s; performed := performed s |}
| step_receive1 s err rest :
    todo (routine1 s) = Send err :: rest -> waiting (main s) = true ->
    step p o1 o2 s
      {| main := fst (on_receive (main s) err);
         routine1 := advance (routine1 s);
         routine2 := routine2 s; received := received s ++ [err];
         performed := performed s ++ snd (on_receive (main s) err) |}
| step_receive2 s err rest :
    todo (routine2 s) = Send err :: rest -> waiting (main s) = true ->
    step p o1 o2 s
      {| main := fst (on_receive (main s) err); routine1 := routine1 s;
         routine2 := advance (routine2 s); received := received s ++ [err];
         performed := performed s ++ snd (on_receive (main s) err) |}.

Inductive reachable (p : Proxy) (o1 o2 : outcome) : system -> Prop :=
| reachable_initial : reachable p o1 o2 initial
| reachable_step s s' :
    reachable p o1 o2 s -> step p o1 o2 s s' -> reachable p o1 o2 s'.

(** A routine has signalled its completion once its copy loop and its send
    on the channel are among the operations it has performed. *)
Definition signalled (dst src : connection) (err : option error) (r : routine)
  : Prop :=
  (Copy dst src ∈ done r) /\ (Send err ∈ done r)
  /\ (Copy dst src ∉ todo r) /\ (Send err ∉ todo r).

(** The entries [ServeTCP] wrote for errors met during the connection. *)
Definition connection_errors (l : list action) : list error :=
  omap (fun a => match a with
                 | Errorf "Error during connection: %v" e => Some e
                 | _ => None
                 end) l.

(** The read deadlines armed by a sequence of operations. *)
Definition deadlines (l : list action) : list (connection * Time) :=
  omap (fun a => match a with
                 | SetReadDeadline c t => Some (c, t)
                 | _ => None
                 end) l.

(** Where a routine running the program [prog] stands with respect to its
    send, the second operation of the program: before it, or past it. *)
Definition pending (prog : list action) (r : routine) : Prop :=
  (done r = [] /\ todo r = prog)
  \/ (exists c s tl, prog = c :: s :: tl /\ done r = [c] /\ todo r = s :: tl).

Definition sent (prog : list action) (r : routine) : Prop :=
  exists c s d t, prog = c :: s :: (d ++ t) /\ done r = c :: s :: d /\ todo r = t.

(** What is known of the system at each point of [ServeTCP]. *)
Definition invariant (p : Proxy) (o1 o2 : outcome) (s : system) : Prop :=
  let prog1 := connCopy p conn connBackend o1 in
  let prog2 := connCopy p connBackend conn o2 in
  match main s with
  | Dialing => received s = [] /\ performed s = []
  | Returned false => True
  | Receiving1 =>
      pending prog1 (routine1 s) /\ pending prog2 (routine2 s)
      /\ received s = [] /\ performed s = []
  | Receiving2 =>
      ((sent prog1 (routine1 s) /\ pending prog2 (routine2 s)
        /\ received s = [copy_err o1])
       \/ (pending prog1 (routine1 s) /\ sent prog2 (routine2 s)
           /\ received s = [copy_err o2]))
      /\ connection_errors (performed s)
         = match received s with Some e :: _ => [e] | _ => [] end
  | Returned true =>
      sent prog1 (routine1 s) /\ sent prog2 (routine2 s)
      /\ (received s = [copy_err o1; copy_err o2]
          \/ received s = [copy_err o2; copy_err o1])
      /\ connection_errors (performed s)
         = match received s with Some e :: _ => [e] | _ => [] end
  end.

End Proxy.

End Tcp.

(** ** Package server: the balancer middleware chain *)

Module Server.

(** The configuration types of package [types], as far as
    [server_loadbalancer.go] reads them. *)
Record Rate := { Period : Z; Average : Z; Burst : Z }.

Record RateLimit := {
  RateSet : gmap string Rate;
  rl_ExtractorFunc : string
}.

Record MaxConn := { Amount : Z; mc_ExtractorFunc : string }.

Record Buffering := {
  MaxRequestBodyBytes : Z;
  MemRequestBodyBytes : Z;
  MaxResponseBodyBytes : Z;
  MemResponseBodyBytes : Z;
  RetryExpression : string
}.

Record CircuitBreaker := { Expression : string }.

Record Stickiness := { CookieName : string }.

Record LoadBalancer := { Method : string; stickiness : option Stickiness }.

Record server := { URL : string; Weight : Z }.

Record Frontend := {
  Backend : string;
  fe_RateLimit : option RateLimit
}.

Record Retry := { Attempts : Z }.

Inductive LoadBalancerMethod := Wrr | Drr.

Section Chain.

(** Types and constructors of the libraries the chain is built from
    ([oxy], [net/url], the health check package); a constructor that can
    fail tells so with the message of its error. *)
Context {Extractor RateSetT URLT HealthCheckT HCOptions BackendConfig : Type}.
Context (utils_NewExtractor : string -> string + Extractor).
Context (ratelimit_NewRateSet : RateSetT).
Context (rateSet_Add : RateSetT -> Z -> Z -> Z -> string + RateSetT).
Context (ratelimit_New_err : Extractor -> RateSetT -> option string).
Context (connlimit_New_err : Extractor -> Z -> option string).
Context (buffer_New_err : Buffering -> option string).
Context (NewCircuitBreaker_err : string -> option string).
Context (url_Parse : string -> string + URLT).
Context (UpsertServer_err : URLT -> Z -> option string).
Context (NewRebalancer_err : option string -> option string).
Context (roundrobin_New_err : option string -> option string).
Context (NewLoadBalancerMethod : LoadBalancer -> string + LoadBalancerMethod).
Context (show_LoadBalancer : LoadBalancer -> string).
Context (cookie_GetName : string -> string -> string).

Record backend := {
  Servers : gmap string server;
  be_CircuitBreaker : option CircuitBreaker;
  be_LoadBalancer : LoadBalancer;
  be_MaxConn : option MaxConn;
  be_HealthCheck : option HealthCheckT;
  be_Buffering : option Buffering
}.

(** The listeners handed to the retry middleware. *)
Inductive RetryListener :=
| MetricsRetryListener (backendName : string)
| SaveRetries.

(** An [http.Handler] of the chain: the forwarder, or a middleware around
    the handler it passes requests on to. *)
Inductive Handler :=
| Forwarder
| SaveBackend (next : Handler) (backendName : string)
| SaveFrontend (next : Handler) (frontendName : string)
| RoundRobin (next : Handler) (sticky : option string) (servers : list (URLT * Z))
| Rebalancer (next : Handler) (sticky : option string)
| EmptyBackendHandler (next : Handler)
| TokenLimiter (next : Handler) (extract : Extractor) (rates : RateSetT)
| ConnLimiter (next : Handler) (extract : Extractor) (amount : Z)
| RetryHandler (attempts : Z) (next : Handler) (listeners : list RetryListener)
| BufferHandler (next : Handler) (config : Buffering)
| CircuitBreakerHandler (next : Handler) (expression : string)
| TracingWrapper (name : string) (next : Handler)
| AccessLogWrapper (next : Handler) (name : string).

Record Server := {
  accessLoggerMiddleware : bool;       (* is it non-nil *)
  metricsEnabled : bool;               (* [metricsRegistry.IsEnabled()] *)
  globalRetry : option Retry;          (* [globalConfiguration.Retry] *)
  globalHealthCheck : option HealthCheckT
}.

Context (parseHealthCheckOptions :
  Handler -> string -> option HealthCheckT -> option HealthCheckT -> option HCOptions).
Context (NewBackendConfig : HCOptions -> string -> BackendConfig).

(** [hcOpts.Transport = s.defaultForwardingRoundTripper]. *)
Context (set_Transport : HCOptions -> HCOptions).

(** [tracingMiddleware.NewHTTPHandlerWrapper] and
    [wrapHTTPHandlerWithAccessLog] are defined outside the files at hand:
    each returns a handler that passes the request on to the one given. *)
Definition NewHTTPHandlerWrapper (name : string) (handler : Handler) : Handler :=
  TracingWrapper name handler.

Definition wrapHTTPHandlerWithAccessLog (s : Server) (handler : Handler)
  (name : string) : Handler :=
  if accessLoggerMiddleware s then AccessLogWrapper handler name else handler.

(** Errors are carried as [inl message]. *)
Definition bindE {A B} (x : string + A) (f : A -> string + B) : string + B :=
  match x with inl e => inl e | inr a => f a end.

Definition check (x : option string) : string + unit :=
  match x with Some e => inl e | None => inr tt end.

(** [lb.UpsertServer]: on a round robin the server joins its list, a
    rebalancer hands it to the round robin below. *)
Fixpoint UpsertServer (lb : Handler) (u : URLT) (w : Z) : Handler :=
  match lb with
  | RoundRobin next sticky servers => RoundRobin next sticky (servers ++ [(u, w)])
  | Rebalancer next sticky => Rebalancer (UpsertServer next u w) sticky
  | h => h
  end.

(** The gauge set in the metrics registry for each server is left out. *)
Definition configureLBServers (lb : Handler) (be : backend) (backendName : string)
  : string + Handler :=
  foldl (fun acc '(name, srv) =>
           bindE acc (fun lb =>
           match url_Parse (URL srv) with
           | inl err => inl ("error parsing server URL " +:+ URL srv +:+ ": " +:+ err)
           | inr u =>
               match UpsertServer_err u (Weight srv) with
               | Some err =>
                   inl ("error adding server " +:+ URL srv
                        +:+ " to load balancer: " +:+ err)
               | None => inr (UpsertServer lb u (Weight srv))
               end
           end))
        (inr lb) (map_to_list (Servers be)).

Definition buildLoadBalancer (s : Server) (frontendName backendName : string)
  (be : backend) (fwd : Handler) : string + Handler :=
  let saveFrontend := SaveFrontend (SaveBackend fwd backendName) frontendName in
  let rr :=
    if accessLoggerMiddleware s then RoundRobin saveFrontend None []
    else RoundRobin fwd None [] in
  let sticky :=
    match stickiness (be_LoadBalancer be) with
    | Some st => Some (cookie_GetName (CookieName st) backendName)
    | None => None
    end in
  match NewLoadBalancerMethod (be_LoadBalancer be) with
  | inl err =>
      inl ("error loading load balancer method '"
           +:+ show_LoadBalancer (be_LoadBalancer be)
           +:+ "' for frontend " +:+ frontendName +:+ ": " +:+ err)
  | inr lbMethod =>
      bindE
        match lbMethod with
        | Drr =>
            bindE (check (NewRebalancer_err None)) (fun _ =>
            match sticky with
            | Some _ =>
                bindE (check (NewRebalancer_err sticky)) (fun _ =>
                inr (Rebalancer rr sticky))
            | None => inr (Rebalancer rr None)
            end)
        | Wrr =>
            match sticky with
            | Some _ =>
                bindE (check (roundrobin_New_err sticky)) (fun _ =>
                if accessLoggerMiddleware s then
                  inr (RoundRobin saveFrontend sticky [])
                else inr (RoundRobin fwd sticky []))
            | None => inr rr
            end
        end
        (fun lb =>
           match configureLBServers lb be backendName with
           | inl err =>
               inl ("error configuring load balancer for frontend "
                    +:+ frontendName +:+ ": " +:+ err)
           | inr lb => inr lb
           end)
  end.

Definition buildRetryMiddleware (s : Server) (handler : Handler) (retry : Retry)
  (countServers : Z) (backendName : string) : Handler :=
  let retryListeners :=
    (if metricsEnabled s then [MetricsRetryListener backendName] else [])
    ++ (if accessLoggerMiddleware s then [SaveRetries] else []) in
  let retryAttempts :=
    if (0 <? Attempts retry)%Z then Attempts retry else countServers in
  RetryHandler retryAttempts handler retryListeners.

Definition buildRateLimiter (handler : Handler) (rlConfig : RateLimit)
  : string + Handler :=
  bindE (utils_NewExtractor (rl_ExtractorFunc rlConfig)) (fun extractFunc =>
  bindE (foldl (fun acc '(_, rate) =>
                  bindE acc (fun rateSet =>
                  rateSet_Add rateSet (Period rate) (Average rate) (Burst rate)))
           (inr ratelimit_NewRateSet) (map_to_list (RateSet rlConfig)))
    (fun rateSet =>
  bindE (check (ratelimit_New_err extractFunc rateSet)) (fun _ =>
  inr (TokenLimiter handler extractFunc rateSet)))).

Definition buildBufferingMiddleware (handler : Handler) (config : Buffering)
  : string + Handler :=
  bindE (check (buffer_New_err config)) (fun _ => inr (BufferHandler handler config)).

Definition buildMaxConn (lb : Handler) (maxConns : MaxConn) : string + Handler :=
  match utils_NewExtractor (mc_ExtractorFunc maxConns) with
  | inl err => inl ("error creating connection limit: " +:+ err)
  | inr extractFunc =>
      match connlimit_New_err extractFunc (Amount maxConns) with
      | Some err => inl ("error creating connection limit: " +:+ err)
      | None => inr (ConnLimiter lb extractFunc (Amount maxConns))
      end
  end.

(** Each stage of [buildBalancerMiddlewares] takes the handler built so far
    and wraps it, or leaves it, or fails. *)
Definition stageRateLimit (s : Server) (frontendName : string) (fe : Frontend)
  (lb : Handler) : string + Handler :=
  match fe_RateLimit fe with
  | Some rl =>
      if decide (0 < size (RateSet rl))%nat then
        match buildRateLimiter lb rl with
        | inl err => inl ("error creating rate limiter: " +:+ err)
        | inr handler =>
            inr (wrapHTTPHandlerWithAccessLog s
                   (NewHTTPHandlerWrapper "Rate limit" handler)
                   ("rate limit for " +:+ frontendName))
        end
      else inr lb
  | None => inr lb
  end.

Definition stageMaxConn (s : Server) (frontendName : string) (be : backend)
  (lb : Handler) : string + Handler :=
  match be_MaxConn be with
  | Some mc =>
      if decide (Amount mc ≠ 0%Z) then
        bindE (buildMaxConn lb mc) (fun handler =>
        inr (wrapHTTPHandlerWithAccessLog s handler
               ("connection limit for " +:+ frontendName)))
      else inr lb
  | None => inr lb
  end.

Definition stageRetry (s : Server) (fe : Frontend) (be : backend) (lb : Handler)
  : Handler :=
  match globalRetry s with
  | Some retry =>
      NewHTTPHandlerWrapper "Retry"
        (buildRetryMiddleware s lb retry (Z.of_nat (size (Servers be))) (Backend fe))
  | None => lb
  end.

Definition stageBuffering (be : backend) (lb : Handler) : string + Handler :=
  match be_Buffering be with
  | Some b =>
      match buildBufferingMiddleware lb b with
      | inl err => inl ("error setting up buffering middleware: " +:+ err)
      | inr handler => inr handler
      end
  | None => inr lb
  end.

Definition stageCircuitBreaker (be : backend) (lb : Handler) : string + Handler :=
  match be_CircuitBreaker be with
  | Some cb =>
      let expression := Expression cb in
      match NewCircuitBreaker_err expression with
      | Some err => inl ("error creating circuit breaker: " +:+ err)
      | None =>
          inr (NewHTTPHandlerWrapper "Circuit breaker"
                 (CircuitBreakerHandler lb expression))
      end
  | None => inr lb
  end.

Definition buildBalancerMiddlewares (s : Server) (frontendName : string)
  (fe : Frontend) (be : backend) (fwd : Handler)
  : string + (Handler * option BackendConfig) :=
  bindE (buildLoadBalancer s frontendName (Backend fe) be fwd) (fun balancer =>
  let backendHealthCheck :=
    match parseHealthCheckOptions balancer (Backend fe) (be_HealthCheck be)
            (globalHealthCheck s) with
    | Some hcOpts => Some (NewBackendConfig (set_Transport hcOpts) (Backend fe))
    | None => None
    end in
  let lb := EmptyBackendHandler balancer in
  bindE (stageRateLimit s frontendName fe lb) (fun lb =>
  bindE (stageMaxConn s frontendName be lb) (fun lb =>
  let lb := stageRetry s fe be lb in
  bindE (stageBuffering be lb) (fun lb =>
  bindE (stageCircuitBreaker be lb) (fun lb =>
  inr (lb, backendHealthCheck)))))).

(** *** The path of a request

    The parts of the chain the ordering is about. *)
Inductive Layer :=
| RateLimitLayer
| MaxConnLayer
| RetryLayer
| BufferingLayer
| CircuitBreakerLayer
| LoadBalancerLayer
| ForwardingLayer.

(** The layers a request entering [h] goes through, outermost first; the
    wrappers for tracing and access logs, and the handler for a backend
    without servers, are none of them. A rebalancer and the round robin
    below it make up the load balancer. *)
Fixpoint traverse (h : Handler) : list Layer :=
  match h with
  | Forwarder => [ForwardingLayer]
  | SaveBackend next _ => traverse next
  | SaveFrontend next _ => traverse next
  | RoundRobin next _ _ => LoadBalancerLayer :: traverse next
  | Rebalancer next _ => traverse next
  | EmptyBackendHandler next => traverse next
  | TokenLimiter next _ _ => RateLimitLayer :: traverse next
  | ConnLimiter next _ _ => MaxConnLayer :: traverse next
  | RetryHandler _ next _ => RetryLayer :: traverse next
  | BufferHandler next _ => BufferingLayer :: traverse next
  | CircuitBreakerHandler next _ => CircuitBreakerLayer :: traverse next
  | TracingWrapper _ next => traverse next
  | AccessLogWrapper next _ => traverse next
  end.

(** Every middleware of the chain is switched on. *)
Definition all_enabled (s : Server) (fe : Frontend) (be : backend) : Prop :=
  (exists rl, fe_RateLimit fe = Some rl /\ (0 < size (RateSet rl))%nat)
  /\ (exists mc, be_MaxConn be = Some mc /\ Amount mc ≠ 0%Z)
  /\ is_Some (globalRetry s)
  /\ is_Some (be_Buffering be)
  /\ is_Some (be_CircuitBreaker be).

End Chain.

End Server.

(** ** Sample values *)

Module Samples.

Import Dynamic.

Definition lb_example (servers : option (list Server)) : ServersLoadBalancer :=
  {| lb_Sticky := Some {| sticky_Cookie := None |};
     Servers := servers;
     lb_HealthCheck := None;
     PassHostHeader := true;
     lb_ResponseForwarding := None |}.

Definition server_example : Server :=
  {| URL := "http://10.0.0.1:80"; server_Scheme := "http"; server_Port := "80" |}.

Definition heap_example : lbHeap :=
  <[1%positive := lb_example (Some [server_example])]>
    (<[2%positive := lb_example (Some [])]> ∅).

Definition serviceInfo_example : ServiceInfo :=
  {| svc := {| LoadBalancer := Some (lb_example None); Weighted := None |};
     svc_Err := []; svc_Status := RuntimeStatusEnabled; svc_UsedBy := [];
     serverStatus := Some 1%positive |}.

Definition statuses_example : mapHeap :=
  {[ 1%positive := {[ "http://10.0.0.1:80" := "UP" ]} ]}.

End Samples.

(** ** What a caller can do to a map it was handed *)

Module Caller.

Import Dynamic.

Inductive mutation :=
| Assign (k v : string)
| Delete (k : string).

(** One statement of the caller on the map [m]; a statement that panics
    leaves the heap as it is. *)
Definition mutate (m : option loc) (h : mapHeap) (mu : mutation) : mapHeap :=
  match mu with
  | Assign k v => default h (map_assign m k v h)
  | Delete k => map_delete m k h
  end.

Definition mutates (m : option loc) (mus : list mutation) (h : mapHeap) : mapHeap :=
  foldl (mutate m) h mus.

(** The per-server statuses a [ServiceInfo] holds. *)
Definition stored (s : ServiceInfo) (h : mapHeap) : gmap string string :=
  map_content h (serverStatus s).

(** The map of a [ServiceInfo], when it has one, is an object of the heap. *)
Definition allocated (s : ServiceInfo) (h : mapHeap) : Prop :=
  forall l, serverStatus s = Some l -> is_Some (h !! l).

End Caller.

(** ** The partition by entry point, as the specification words it *)

Module Partition.

Import Dynamic.

Section Spec.
Context {Domain : Type}.

(** The router [rt] declares TLS exactly when [tls] asks for it. *)
Definition tls_matches (tls : bool) (rt : RouterInfo Domain) : bool :=
  if tls then bool_decide (TLS (router rt) ≠ None)
  else bool_decide (TLS (router rt) = None).

(** The router [rt] belongs under the entry point [ep]: the TLS declaration
    matches, [ep] is one of the supplied entry points, and the router names
    it or names none at all. *)
Definition belongs (entryPoints : list string) (tls : bool)
  (rt : RouterInfo Domain) (ep : string) : bool :=
  tls_matches tls rt
  && bool_decide (ep ∈ entryPoints)
  && (bool_decide (EntryPoints (router rt) = [])
      || bool_decide (ep ∈ EntryPoints (router rt))).

(** The entry of the router [rtName] under the entry point [ep]. *)
Definition at_entryPoint (p : gmap string (gmap string (RouterInfo Domain)))
  (ep rtName : string) : option (RouterInfo Domain) :=
  p !! ep ≫= (fun routers => routers !! rtName).

End Spec.

End Partition.

(** ** A sample store *)

Module SampleStore.

Import Dynamic.

Definition router_example (eps mids : list string) (svcName : string)
  : RouterInfo unit :=
  {| router := {| EntryPoints := eps; Middlewares := mids; Service := svcName;
                  Rule := "Host(`example.com`)"; Priority := 0; TLS := None |};
     Err := []; Status := RuntimeStatusEnabled |}.

Definition service_example : ServiceInfo :=
  {| svc := {| LoadBalancer := None; Weighted := None |};
     svc_Err := []; svc_Status := RuntimeStatusEnabled; svc_UsedBy := [];
     serverStatus := None |}.

(** One router [r@p] that names the service [s], and the service [s@p]. *)
Definition store_example : RuntimeConfiguration unit unit unit unit :=
  {| Routers := Some {[ "r@p" := router_example [] [] "s" ]};
     rt_Middlewares := None;
     Services := Some {[ "s@p" := service_example ]};
     TCPRouters := None;
     TCPServices := None |}.

End SampleStore.

(** ** The links of a store, as the specification words them *)

Module Links.

Import Dynamic.

Section Spec.
Context {Domain TCPRouter : Type}.
Context (TCPRouter_Service : TCPRouter -> string).

(** The name of a router carries a provider. *)
Definition qualified (routerName : string) : bool :=
  negb (String.eqb (getProviderName routerName) "").

(** A reference of the router [routerName], qualified with the provider of
    the router when it carries none. *)
Definition resolve (routerName reference : string) : string :=
  getQualifiedName (getProviderName routerName) reference.

(** The router name, once for each reference of [references] that resolves
    to [target]. *)
Definition references_to (routerName : string) (references : list string)
  (target : string) : list string :=
  references ≫= fun reference =>
    if decide (resolve routerName reference = target) then [routerName] else [].

(** What one router adds to the [UsedBy] list of the middleware, and of
    the service, named [target]. *)
Definition middleware_links (target : string) (entry : string * RouterInfo Domain)
  : list string :=
  if qualified entry.1
  then references_to entry.1 (Middlewares (router entry.2)) target
  else [].

Definition service_links (target : string) (entry : string * RouterInfo Domain)
  : list string :=
  if qualified entry.1
  then references_to entry.1 [Service (router entry.2)] target
  else [].

Definition tcpService_links (target : string)
  (entry : string * TCPRouterInfo TCPRouter) : list string :=
  if qualified entry.1
  then references_to entry.1 [TCPRouter_Service (tcpRouter entry.2)] target
  else [].

(** How often a name occurs in a list. *)
Definition occurrences (name : string) (l : list string) : nat :=
  length (filter (fun x => x = name) l).

End Spec.

Section Marks.
Context {Domain Middleware TCPService : Type}.

(** Appending names to a [UsedBy] list, and the lazy [Status] of a router. *)
Definition use_middleware (extra : list string) (m : MiddlewareInfo Middleware)
  : MiddlewareInfo Middleware :=
  middleware_set_UsedBy (mid_UsedBy m ++ extra) m.

Definition use_service (extra : list string) (s : ServiceInfo) : ServiceInfo :=
  service_set_UsedBy (svc_UsedBy s ++ extra) s.

Definition use_tcpService (extra : list string) (s : TCPServiceInfo TCPService)
  : TCPServiceInfo TCPService :=
  tcpService_set_UsedBy (tcps_UsedBy s ++ extra) s.

Definition lazy_router (ri : RouterInfo Domain) : RouterInfo Domain :=
  router_set_Status (lazyStatus (Status ri)) ri.

(** An entity after the pass, given the names the pass links to it: they
    join its [UsedBy] list, which is then sorted; a service gets its lazy
    [Status]; nothing else changes. *)
Definition linked_middleware (links : list string) (m : MiddlewareInfo Middleware)
  : MiddlewareInfo Middleware :=
  {| middleware := middleware m; mid_Err := mid_Err m;
     mid_UsedBy := GoString.sort_strings (mid_UsedBy m ++ links) |}.

Definition linked_service (links : list string) (s : ServiceInfo) : ServiceInfo :=
  {| svc := svc s; svc_Err := svc_Err s;
     svc_Status := lazyStatus (svc_Status s);
     svc_UsedBy := GoString.sort_strings (svc_UsedBy s ++ links);
     serverStatus := serverStatus s |}.

Definition linked_tcpService (links : list string) (s : TCPServiceInfo TCPService)
  : TCPServiceInfo TCPService :=
  {| tcpService := tcpService s; tcps_Err := tcps_Err s;
     tcps_UsedBy := GoString.sort_strings (tcps_UsedBy s ++ links) |}.

End Marks.

End Links.

(** ** A second pass over a store *)

Module SecondPass.

Import Dynamic.

Section Spec.
Context {Domain Middleware TCPRouter TCPService : Type}.
Context (TCPRouter_Service : TCPRouter -> string).

(** The store after one call and after two calls of [PopulateUsedBy]. *)
Definition once (r : RuntimeConfiguration Domain Middleware TCPRouter TCPService)
  : RuntimeConfiguration Domain Middleware TCPRouter TCPService :=
  (populateUsedBy TCPRouter_Service r).1.

Definition twice (r : RuntimeConfiguration Domain Middleware TCPRouter TCPService)
  : RuntimeConfiguration Domain Middleware TCPRouter TCPService :=
  once (once r).

(** An entity that is linked again: the names join its [UsedBy] list, which
    is sorted again; nothing else changes. *)
Definition relinked_middleware (links : list string) (m : MiddlewareInfo Middleware)
  : MiddlewareInfo Middleware :=
  middleware_set_UsedBy (GoString.sort_strings (mid_UsedBy m ++ links)) m.

Definition relinked_service (links : list string) (s : ServiceInfo) : ServiceInfo :=
  service_set_UsedBy (GoString.sort_strings (svc_UsedBy s ++ links)) s.

Definition relinked_tcpService (links : list string)
  (s : TCPServiceInfo TCPService) : TCPServiceInfo TCPService :=
  tcpService_set_UsedBy (GoString.sort_strings (tcps_UsedBy s ++ links)) s.

End Spec.

(** The [Service] field of a TCP router, for a store without TCP routers. *)
Definition no_TCPRouter_Service (_ : unit) : string := "".

End SecondPass.

(** ** A sample run of the proxy *)

Module SampleRun.

Import Dynamic Tcp.

Definition proxy_example : Proxy :=
  {| address := "10.0.0.1:80"; target := None; terminationDelay := 100 |}.

(** The client closes first: its copy ends without error, the copy from the
    backend ends with one. *)
Definition outcome1 : @outcome Z :=
  {| copy_err := None; closeWrite_err := None; now := 0%Z;
     setReadDeadline_err := None |}.

Definition outcome2 : @outcome Z :=
  {| copy_err := Some {| Error := "use of closed network connection" |};
     closeWrite_err := None; now := 5%Z; setReadDeadline_err := None |}.


Definition program1 : list (@action Z) :=
  connCopy Z.add proxy_example conn connBackend outcome1.

Definition program2 : list (@action Z) :=
  connCopy Z.add proxy_example connBackend conn outcome2.

Definition at_step (n : nat) (prog : list (@action Z)) : @routine Z :=
  {| done := take n prog; todo := drop n prog |}.

(** The states of a run: both routines copy, the first one sends, then the
    second one. *)
Definition run (m : mainState) (n1 n2 : nat) (rcv : list (option error))
  (perf : list (@action Z)) : @system Z :=
  {| main := m; routine1 := at_step n1 program1; routine2 := at_step n2 program2;
     received := rcv; performed := perf |}.

Definition returned_example : @system Z :=
  run (Returned true) 2 2 [None; copy_err outcome2]
    [Close connBackend; Close conn].

End SampleRun.

(** ** A sample chain *)

Module SampleChain.

Import Server.

(** Every middleware of the chain switched on, and constructors that never
    fail. *)
Definition frontend_example : Frontend :=
  {| Backend := "backend1";
     fe_RateLimit :=
       Some {| RateSet := {[ "r0" := {| Period := 1; Average := 10; Burst := 20 |} ]};
               rl_ExtractorFunc := "client.ip" |} |}.

Definition backend_example : @backend unit :=
  {| Servers := {[ "server1" := {| URL := "http://10.0.0.1:80"; Weight := 1 |} ]};
     be_CircuitBreaker := Some {| Expression := "NetworkErrorRatio() > 0.5" |};
     be_LoadBalancer := {| Method := "wrr"; stickiness := None |};
     be_MaxConn := Some {| Amount := 10; mc_ExtractorFunc := "client.ip" |};
     be_HealthCheck := None;
     be_Buffering :=
       Some {| MaxRequestBodyBytes := 0; MemRequestBodyBytes := 0;
               MaxResponseBodyBytes := 0; MemResponseBodyBytes := 0;
               RetryExpression := "" |} |}.

Definition server_example : @Server unit :=
  {| accessLoggerMiddleware := false; metricsEnabled := false;
     globalRetry := Some {| Attempts := 2 |}; globalHealthCheck := None |}.

(** The chain built for them, with extractors, rate sets and URLs standing
    for themselves. *)
Definition chain_example
  : string + (@Handler string (list (Z * Z * Z)) string * option unit) :=
  buildBalancerMiddlewares
    (fun name => inr name)
    []
    (fun rates period average burst => inr (rates ++ [(period, average, burst)]))
    (fun _ _ => None)
    (fun _ _ => None)
    (fun _ => None)
    (fun _ => None)
    (fun url => inr url)
    (fun _ _ => None)
    (fun _ => None)
    (fun _ => None)
    (fun _ => inr Wrr)
    (fun lb => Method lb)
    (fun name backendName => name)
    (fun _ _ _ _ => None)
    (fun (_ : unit) _ => tt)
    (fun hcOpts => hcOpts)
    server_example "frontend1" frontend_example backend_example Forwarder.

(** The order the specification gives, outermost first. *)
Definition specified_order : list Layer :=
  [RateLimitLayer; MaxConnLayer; RetryLayer; BufferingLayer;
   CircuitBreakerLayer; LoadBalancerLayer; ForwardingLayer].

(** The order of the chain as built: each stage wraps what the stages
    before it have built. *)
Definition built_order : list Layer :=
  [CircuitBreakerLayer; BufferingLayer; RetryLayer; MaxConnLayer;
   RateLimitLayer; LoadBalancerLayer; ForwardingLayer].

End SampleChain.

(** ** The layers a configuration switches on *)

Module ChainOrder.

Import Server.

Section Spec.
Context {HealthCheckT : Type}.

(** A pointer of the configuration is not nil. *)
Definition present {A} (x : option A) : bool :=
  match x with Some _ => true | None => false end.

Definition rateLimit_on (fe : Frontend) : bool :=
  match fe_RateLimit fe with
  | Some rl => bool_decide (0 < size (RateSet rl))%nat
  | None => false
  end.

Definition maxConn_on (be : @backend HealthCheckT) : bool :=
  match be_MaxConn be with
  | Some mc => bool_decide (Amount mc ≠ 0%Z)
  | None => false
  end.

(** The middlewares switched on, in the order in which a request meets
    them in the chain as built. *)
Definition enabled_layers (s : @Server HealthCheckT) (fe : Frontend)
  (be : @backend HealthCheckT) : list Layer :=
  (if present (be_CircuitBreaker be) then [CircuitBreakerLayer] else [])
  ++ (if present (be_Buffering be) then [BufferingLayer] else [])
  ++ (if present (globalRetry s) then [RetryLayer] else [])
  ++ (if maxConn_on be then [MaxConnLayer] else [])
  ++ (if rateLimit_on fe then [RateLimitLayer] else []).

End Spec.

End ChainOrder.

(** ** Package dynamic: further operations *)

Module DynamicMore.

Import Dynamic.

Section Model.
Context {Domain Middleware TCPRouter TCPService : Type}.

(** [TCPRouter] is declared outside the files at hand; this is its
    [EntryPoints] field. *)
Context (TCPRouter_EntryPoints : TCPRouter -> list string).

(** [MiddlewareInfo.AddError]. *)
Definition MiddlewareInfo_AddError (m : MiddlewareInfo Middleware) (err : error)
  : MiddlewareInfo Middleware :=
  if existsb (fun value => String.eqb value (Error err)) (mid_Err m) then m
  else {| middleware := middleware m; mid_Err := mid_Err m ++ [Error err];
          mid_UsedBy := mid_UsedBy m |}.

Definition MiddlewareInfo_AddErrors (m : MiddlewareInfo Middleware)
  (errs : list error) : MiddlewareInfo Middleware :=
  foldl MiddlewareInfo_AddError m errs.

(** [GetTCPRoutersByEntryPoints], with the entry point names it reports as
    unknown. *)
Definition tcpPartition : Type :=
  gmap string (gmap string (TCPRouterInfo TCPRouter)) * list string.

(** One turn of the loop over [eps]. *)
Definition placeTCPRouter (entryPoints : list string) (rtName : string)
  (rt : TCPRouterInfo TCPRouter) (acc : tcpPartition) (entryPointName : string)
  : tcpPartition :=
  let '(entryPointsRouters, log) := acc in
  if negb (contains entryPoints entryPointName) then
    (entryPointsRouters, log ++ [entryPointName])
  else
    let entryPointsRouters :=
      match entryPointsRouters !! entryPointName with
      | Some _ => entryPointsRouters
      | None => <[entryPointName := ∅]> entryPointsRouters
      end in
    (alter (fun routers => <[rtName := rt]> routers) entryPointName
       entryPointsRouters, log).

(** One turn of the loop over [r.TCPRouters]. *)
Definition placeTCPRouters (entryPoints : list string) (acc : tcpPartition)
  (entry : string * TCPRouterInfo TCPRouter) : tcpPartition :=
  let '(rtName, rt) := entry in
  let eps := TCPRouter_EntryPoints (tcpRouter rt) in
  let eps := if decide (length eps = 0%nat) then entryPoints else eps in
  foldl (placeTCPRouter entryPoints rtName rt) acc eps.

Definition GetTCPRoutersByEntryPoints
  (r : RuntimeConfiguration Domain Middleware TCPRouter TCPService)
  (entryPoints : list string) : tcpPartition :=
  foldl (placeTCPRouters entryPoints) (∅, []) (go_range (TCPRouters r)).

(** The entry of the TCP router [rtName] under the entry point [ep]. *)
Definition tcp_at_entryPoint
  (p : gmap string (gmap string (TCPRouterInfo TCPRouter)))
  (ep rtName : string) : option (TCPRouterInfo TCPRouter) :=
  p !! ep ≫= (fun routers => routers !! rtName).

(** The TCP router [rt] belongs under the entry point [ep]: [ep] is one of
    the supplied entry points, and the router names it or names none. *)
Definition tcp_belongs (entryPoints : list string)
  (rt : TCPRouterInfo TCPRouter) (ep : string) : bool :=
  bool_decide (ep ∈ entryPoints)
  && (bool_decide (TCPRouter_EntryPoints (tcpRouter rt) = [])
      || bool_decide (ep ∈ TCPRouter_EntryPoints (tcpRouter rt))).

(** [ServersLoadBalancer.SetDefaults] and [Server.SetDefaults]. *)
Definition ServersLoadBalancer_SetDefaults (l : ServersLoadBalancer)
  : ServersLoadBalancer :=
  {| lb_Sticky := lb_Sticky l; Servers := Servers l;
     lb_HealthCheck := lb_HealthCheck l; PassHostHeader := true;
     lb_ResponseForwarding := lb_ResponseForwarding l |}.

Definition Server_SetDefaults (s : Server) : Server :=
  {| URL := URL s; server_Scheme := "http"; server_Port := server_Port s |}.

End Model.

Arguments tcpPartition : clear implicits.

End DynamicMore.

(** ** The shape of a partition by entry point *)

Module PartitionShape.

Import Dynamic.

(** Every partition is that of a supplied entry point and holds a router. *)
Definition populated {Domain} (entryPoints : list string)
  (p : gmap string (gmap string (RouterInfo Domain))) : Prop :=
  forall ep m, p !! ep = Some m -> ep ∈ entryPoints /\ m ≠ ∅.

End PartitionShape.

(** ** What a pass reports *)

Module PassLog.

Import Dynamic.

#[global] Instance logEntry_eq_dec : EqDecision logEntry.
Proof. solve_decision. Defined.

(** Two maps are both nil or both allocated. *)
Definition same_nil {A B} (m1 : option A) (m2 : option B) : Prop :=
  m1 = None <-> m2 = None.

End PassLog.

(** ** A run of status updates *)

Module StatusUpdates.

Import Dynamic.

(** [UpdateServerStatus] called once for each pair of [updates], first to
    last, on the same [ServiceInfo]. *)
Definition UpdateServerStatuses (s : ServiceInfo) (h : mapHeap)
  (updates : list (string * string)) : ServiceInfo * mapHeap :=
  foldl (fun st '(server, status) => UpdateServerStatus st.1 server status st.2)
    (s, h) updates.

End StatusUpdates.

(** ** Runs of ServeTCP *)

Module TcpRuns.

Import Dynamic Tcp.

Section Proxy.
Context {Time : Type}.
Context (Time_Add : Time -> Z -> Time).

(** The connections closed by a sequence of operations, in order. *)
Definition closes (l : list (@action Time)) : list connection :=
  omap (fun a => match a with Close c => Some c | _ => None end) l.



(** What [ServeTCP] itself has done at each of its points. *)
Definition closing (s : @system Time) : Prop :=
  match main s with
  | Dialing =>
      performed s = [] /\ routine1 s = idle /\ routine2 s = idle
      /\ received s = []
  | Returned false =>
      (exists msg e, performed s = [Errorf msg e; Close conn])
      /\ routine1 s = idle /\ routine2 s = idle /\ received s = []
  | Receiving1 | Receiving2 => closes (performed s) = []
  | Returned true =>
      exists logs,
        performed s = logs ++ [Close connBackend; Close conn]
        /\ closes logs = []
  end.

End Proxy.

End TcpRuns.

(** ** What a chain is made of *)

Module ChainParts.

Import Server.

Section Parts.
Context {Extractor RateSetT URLT : Type}.

Local Abbreviation handler := (@Handler Extractor RateSetT URLT).







End Parts.


End ChainParts.

(** ** Package server: the client TLS configuration *)

Module ClientTLS.

Import Server.

(** [traefiktls.TLS], as far as [createClientTLSConfig] reads and writes
    it. *)
Record ClientCA := { Files : list string; Optional : bool }.

Section Model.

(** [tls.Certificates], [*tls.Config], [*x509.CertPool] and the contents of
    a file belong to libraries, as do the functions on them; the file
    system does not change during a call. *)
Context {CertificatesT TLSConfig CertPool Data : Type}.
Context (CreateTLSConfig : CertificatesT -> string -> string + TLSConfig).
Context (ioutil_ReadFile : string -> string + Data).
Context (x509_NewCertPool : CertPool).
Context (AppendCertsFromPEM : CertPool -> Data -> bool * CertPool).
Context (set_RootCAs : CertPool -> TLSConfig -> TLSConfig).
Context (BuildNameToCertificate : TLSConfig -> TLSConfig).

Record TLS := {
  Certificates : CertificatesT;
  ClientCAFiles : list string;
  tls_ClientCA : ClientCA
}.

Inductive tlsLog :=
| WarnDeprecatedClientCAFiles.

(** The loop over [tlsOption.ClientCA.Files]. *)
Definition appendCAFiles (files : list string) : string + CertPool :=
  foldl (fun acc caFile =>
           bindE acc (fun pool =>
           match ioutil_ReadFile caFile with
           | inl err => inl err
           | inr data =>
               let '(ok, pool) := AppendCertsFromPEM pool data in
               if ok then inr pool
               else inl ("invalid certificate(s) in " +:+ caFile)
           end))
        (inr x509_NewCertPool) files.

(** [createClientTLSConfig]: the result, what [tlsOption] points to
    afterwards, and what was logged. *)
Definition createClientTLSConfig (entryPointName : string)
  (tlsOption : option TLS) : (string + TLSConfig) * option TLS * list tlsLog :=
  match tlsOption with
  | None => (inl "no TLS provided", None, [])
  | Some opt =>
      match CreateTLSConfig (Certificates opt) entryPointName with
      | inl err => (inl err, Some opt, [])
      | inr config =>
          let '(opt, log) :=
            if decide (0 < length (ClientCAFiles opt))%nat then
              ({| Certificates := Certificates opt;
                  ClientCAFiles := ClientCAFiles opt;
                  tls_ClientCA := {| Files := ClientCAFiles opt;
                                     Optional := false |} |},
               [WarnDeprecatedClientCAFiles])
            else (opt, []) in
          let result :=
            if decide (0 < length (Files (tls_ClientCA opt)))%nat then
              bindE (appendCAFiles (Files (tls_ClientCA opt))) (fun pool =>
              inr (BuildNameToCertificate (set_RootCAs pool config)))
            else inr (BuildNameToCertificate config) in
          (result, Some opt, log)
      end
  end.

(** What [tlsOption] points to after a call that got past
    [CreateTLSConfig]: the deprecated [ClientCAFiles], when there are any,
    have replaced [ClientCA]. *)
Definition overridden (opt : TLS) : TLS :=
  if decide (ClientCAFiles opt = []) then opt
  else {| Certificates := Certificates opt;
          ClientCAFiles := ClientCAFiles opt;
          tls_ClientCA := {| Files := ClientCAFiles opt; Optional := false |} |}.

Definition set_ClientCA (ca : ClientCA) (opt : TLS) : TLS :=
  {| Certificates := Certificates opt; ClientCAFiles := ClientCAFiles opt;
     tls_ClientCA := ca |}.

End Model.

Arguments TLS : clear implicits.

End ClientTLS.

(** ** Package tcp: the target of the proxy *)

Module TcpTarget.

Import Dynamic Tcp.

Section Model.

(** [targetIsHostname] splits [p.address] and parses the host with the
    [net] package: its answer depends on the address alone. *)
Context (targetIsHostname : string -> bool).

(** [NewProxy]; its error is always nil. *)
Definition NewProxy (address : string) (terminationDelay : Z) : Proxy :=
  {| address := address; target := None; terminationDelay := terminationDelay |}.

(** The head of [ServeTCP], up to [net.DialTCP]: the proxy afterwards, and
    the target that is dialed unless the address could not be resolved;
    [resolved] is what [net.ResolveTCPAddr] answers at the time of the
    call. *)
Definition resolveTarget (p : Proxy) (resolved : string + string)
  : Proxy * option string :=
  if bool_decide (target p = None) || targetIsHostname (address p) then
    match resolved with
    | inl err => (p, None)
    | inr tcpAddr =>
        ({| address := address p; target := Some tcpAddr;
            terminationDelay := terminationDelay p |}, Some tcpAddr)
    end
  else (p, target p).

(** One [ServeTCP] call after the other on the same proxy, each with the
    answer of the resolver at its time: the targets dialed. *)
Fixpoint dialed (p : Proxy) (answers : list (string + string))
  : list (option string) :=
  match answers with
  | [] => []
  | resolved :: answers =>
      let '(p, t) := resolveTarget p resolved in t :: dialed p answers
  end.

(** What the resolver answered, as a target. *)
Definition answer (resolved : string + string) : option string :=
  match resolved with inl _ => None | inr tcpAddr => Some tcpAddr end.

(** The first address the resolver gave, at every call from then on. *)
Fixpoint first_answer (answers : list (string + string)) : list (option string) :=
  match answers with
  | [] => []
  | inl _ :: answers => None :: first_answer answers
  | inr tcpAddr :: answers => Some tcpAddr :: ((fun _ => Some tcpAddr) <$> answers)
  end.

End Model.

End TcpTarget.

(** * Properties *)

(** ** The order on strings and [sort.Strings] *)

Module GoStringFacts.
Import GoString.

Lemma ascii_compare_trans_lt a b c :
  Ascii.compare a b = Lt -> Ascii.compare b c = Lt -> Ascii.compare a c = Lt.
Proof.
  unfold Ascii.compare. rewrite !N.compare_lt_iff. lia.
Qed.

Lemma compare_refl s : String.compare s s = Eq.
Proof.
  induction s as [|c s IH]; simpl; [done|].
  unfold Ascii.compare. by rewrite N.compare_refl.
Qed.

Lemma compare_Eq s1 s2 : String.compare s1 s2 = Eq <-> s1 = s2.
Proof.
  split; [apply String.compare_eq_iff|]. intros ->. apply compare_refl.
Qed.

Lemma compare_Lt_trans s1 : forall s2 s3,
  String.compare s1 s2 = Lt -> String.compare s2 s3 = Lt ->
  String.compare s1 s3 = Lt.
Proof.
  induction s1 as [|a s1 IH]; intros [|b s2] [|c s3]; simpl; try done.
  destruct (Ascii.compare a b) eqn:Hab; try done;
    destruct (Ascii.compare b c) eqn:Hbc; try done; intros H1 H2.
  - apply Ascii.compare_eq_iff in Hab, Hbc. subst.
    unfold Ascii.compare. rewrite N.compare_refl. eauto.
  - apply Ascii.compare_eq_iff in Hab. subst. by rewrite Hbc.
  - apply Ascii.compare_eq_iff in Hbc. subst. by rewrite Hab.
  - by rewrite (ascii_compare_trans_lt _ _ _ Hab Hbc).
Qed.

Lemma le_compare s1 s2 : le s1 s2 <-> String.compare s1 s2 <> Gt.
Proof. unfold le, String.leb. destruct (String.compare s1 s2); naive_solver. Qed.

#[export] Instance le_total : Total le.
Proof. intros s1 s2. apply String.leb_total. Qed.

#[export] Instance le_antisymm : AntiSymm (=) le.
Proof. intros s1 s2. apply String.leb_antisym. Qed.

#[export] Instance le_trans : Transitive le.
Proof.
  intros s1 s2 s3. rewrite !le_compare. intros H1 H2.
  destruct (String.compare s1 s2) eqn:H12; [| |done].
  - apply compare_Eq in H12. by subst.
  - destruct (String.compare s2 s3) eqn:H23; [| |done].
    + apply compare_Eq in H23. subst. by rewrite H12.
    + by rewrite (compare_Lt_trans _ _ _ H12 H23).
Qed.

Lemma sort_strings_Sorted l : Sorted le (sort_strings l).
Proof. apply Sorted_merge_sort, _. Qed.

Lemma sort_strings_Permutation l : sort_strings l ≡ₚ l.
Proof. apply merge_sort_Permutation. Qed.

Lemma sort_strings_proper l1 l2 : l1 ≡ₚ l2 -> sort_strings l1 = sort_strings l2.
Proof.
  intros Hp. apply (Sorted_unique le); try apply sort_strings_Sorted.
  by rewrite !sort_strings_Permutation.
Qed.

(** A filter that no element passes. *)
Lemma filter_none {A} (P : A -> Prop) `{forall x, Decision (P x)} (l : list A) :
  (forall x, x ∈ l -> ~ P x) -> filter P l = [].
Proof.
  induction l as [|x l IH]; intros Hl; [done|].
  rewrite filter_cons_False by (apply Hl; set_solver).
  apply IH. intros y Hy. apply Hl. set_solver.
Qed.

(** [Split] returns as many pieces as there are separators, and one. *)
Lemma Split_length s sep :
  length (Split s sep) = S (length (filter (fun c => c = sep) (list_ascii_of_string s))).
Proof.
  induction s as [|c s IH]; simpl; [done|].
  destruct (Ascii.eqb_spec c sep) as [->|Hne].
  - rewrite filter_cons_True by done. simpl. by rewrite IH.
  - rewrite filter_cons_False by done.
    destruct (Split s sep) eqn:E; simpl in *; [done|]. done.
Qed.

Lemma Split_length_1 s sep :
  length (Split s sep) = 1%nat <-> contains_byte s sep = false.
Proof.
  induction s as [|c s IH]; simpl; [done|].
  destruct (Ascii.eqb_spec c sep) as [->|Hne]; simpl.
  - split; [|done]. pose proof (Split_length s sep). lia.
  - rewrite <- IH. destruct (Split s sep) eqn:E; simpl; [|done].
    pose proof (Split_length s sep) as HH. rewrite E in HH. done.
Qed.

End GoStringFacts.

(** ** AddError *)

Module AddErrorFacts.
Import Dynamic.

Section Router.
Context {Domain : Type}.
Implicit Types (r : RouterInfo Domain) (err : error).

Lemma existsb_eqb_In (l : list string) (x : string) :
  existsb (fun value => String.eqb value x) l = true <-> x ∈ l.
Proof.
  rewrite existsb_exists, list_elem_of_In. split.
  - intros (y & Hy & Heq). apply String.eqb_eq in Heq. by subst.
  - intros Hx. exists x. split; [done|]. by apply String.eqb_eq.
Qed.

Lemma RouterInfo_AddError_known r err critical :
  Error err ∈ Err r -> RouterInfo_AddError r err critical = r.
Proof.
  intros Hin. unfold RouterInfo_AddError.
  by rewrite (proj2 (existsb_eqb_In _ _) Hin).
Qed.

Lemma RouterInfo_AddError_new r err critical :
  Error err ∉ Err r ->
  RouterInfo_AddError r err critical =
    {| router := router r; Err := Err r ++ [Error err];
       Status := if critical then RuntimeStatusDisabled
                 else if String.eqb (Status r) RuntimeStatusDisabled
                      then Status r else RuntimeStatusWarning |}.
Proof.
  intros Hin. unfold RouterInfo_AddError.
  destruct (existsb _ _) eqn:E; [by apply existsb_eqb_In in E|].
  destruct critical; [done|]. simpl.
  destruct (String.eqb (Status r) _); done.
Qed.

Lemma severity_le_2 status : severity status <= 2.
Proof. unfold severity. repeat case_match; lia. Qed.

Lemma severity_disabled status :
  String.eqb status RuntimeStatusDisabled = false -> severity status <= 1.
Proof. unfold severity. intros ->. case_match; lia. Qed.

Lemma RouterInfo_AddError_severity r err critical :
  severity (Status r) <= severity (Status (RouterInfo_AddError r err critical)).
Proof.
  destruct (decide (Error err ∈ Err r)) as [Hin|Hin].
  - by rewrite RouterInfo_AddError_known.
  - rewrite RouterInfo_AddError_new by done. simpl.
    destruct critical; [apply severity_le_2|].
    destruct (String.eqb (Status r) _) eqn:E; [done|].
    by apply severity_disabled.
Qed.

Lemma RouterInfo_AddErrors_severity calls : forall r,
  severity (Status r) <= severity (Status (RouterInfo_AddErrors r calls)).
Proof.
  induction calls as [|[err critical] calls IH]; intros r; simpl; [done|].
  etrans; [apply (RouterInfo_AddError_severity r err critical)|apply IH].
Qed.

Lemma RouterInfo_AddError_spec r err critical :
  RouterInfo_AddError r err critical =
    if decide (Error err ∈ Err r) then r
    else {| router := router r; Err := Err r ++ [Error err];
            Status := if critical then RuntimeStatusDisabled
                      else if String.eqb (Status r) RuntimeStatusDisabled
                           then RuntimeStatusDisabled else RuntimeStatusWarning |}.
Proof.
  case_decide as Hin; [by apply RouterInfo_AddError_known|].
  rewrite RouterInfo_AddError_new by done. f_equal.
  destruct critical; [done|].
  by destruct (String.eqb_spec (Status r) RuntimeStatusDisabled) as [->|].
Qed.

Lemma RouterInfo_AddError_again r err critical critical' :
  RouterInfo_AddError (RouterInfo_AddError r err critical) err critical'
  = RouterInfo_AddError r err critical.
Proof.
  apply RouterInfo_AddError_known.
  destruct (decide (Error err ∈ Err r)) as [Hin|Hin].
  - by rewrite RouterInfo_AddError_known.
  - rewrite RouterInfo_AddError_new by done. simpl. set_solver.
Qed.

End Router.

Section Service.
Implicit Types (s : ServiceInfo) (err : error).

Lemma ServiceInfo_AddError_known s err critical :
  Error err ∈ svc_Err s -> ServiceInfo_AddError s err critical = s.
Proof.
  intros Hin. unfold ServiceInfo_AddError.
  by rewrite (proj2 (existsb_eqb_In _ _) Hin).
Qed.

Lemma ServiceInfo_AddError_new s err critical :
  Error err ∉ svc_Err s ->
  ServiceInfo_AddError s err critical =
    {| svc := svc s; svc_Err := svc_Err s ++ [Error err];
       svc_Status := if critical then RuntimeStatusDisabled
                     else if String.eqb (svc_Status s) RuntimeStatusDisabled
                          then RuntimeStatusDisabled else RuntimeStatusWarning;
       svc_UsedBy := svc_UsedBy s; serverStatus := serverStatus s |}.
Proof.
  intros Hin. unfold ServiceInfo_AddError.
  destruct (existsb _ _) eqn:E; [by apply existsb_eqb_In in E|].
  destruct critical; [done|]. simpl.
  destruct (String.eqb_spec (svc_Status s) RuntimeStatusDisabled) as [->|]; done.
Qed.

Lemma ServiceInfo_AddError_spec s err critical :
  ServiceInfo_AddError s err critical =
    if decide (Error err ∈ svc_Err s) then s
    else {| svc := svc s; svc_Err := svc_Err s ++ [Error err];
            svc_Status := if critical then RuntimeStatusDisabled
                          else if String.eqb (svc_Status s) RuntimeStatusDisabled
                               then RuntimeStatusDisabled else RuntimeStatusWarning;
            svc_UsedBy := svc_UsedBy s; serverStatus := serverStatus s |}.
Proof.
  case_decide as Hin; [by apply ServiceInfo_AddError_known|].
  by apply ServiceInfo_AddError_new.
Qed.

Lemma ServiceInfo_AddError_again s err critical critical' :
  ServiceInfo_AddError (ServiceInfo_AddError s err critical) err critical'
  = ServiceInfo_AddError s err critical.
Proof.
  apply ServiceInfo_AddError_known.
  destruct (decide (Error err ∈ svc_Err s)) as [Hin|Hin].
  - by rewrite ServiceInfo_AddError_known.
  - rewrite ServiceInfo_AddError_new by done. simpl. set_solver.
Qed.

Lemma ServiceInfo_AddError_severity s err critical :
  severity (svc_Status s)
  <= severity (svc_Status (ServiceInfo_AddError s err critical)).
Proof.
  rewrite ServiceInfo_AddError_spec. case_decide; [done|]. simpl.
  destruct critical; [apply severity_le_2|].
  destruct (String.eqb (svc_Status s) _) eqn:E.
  - apply severity_le_2.
  - by apply severity_disabled.
Qed.

Lemma ServiceInfo_AddErrors_severity calls : forall s,
  severity (svc_Status s) <= severity (svc_Status (ServiceInfo_AddErrors s calls)).
Proof.
  induction calls as [|[err critical] calls IH]; intros s; simpl; [done|].
  etrans; [apply (ServiceInfo_AddError_severity s err critical)|apply IH].
Qed.

End Service.

(** C5. For a [RouterInfo] and for a [ServiceInfo] alike: [AddError] with a
    message already in [Err] changes nothing, so that a repeated call is
    without effect; with a new message it appends the message and sets
    [Status] to [disabled] when [critical], and otherwise to [warning]
    unless it is [disabled] already; and over the calls of a build cycle,
    whatever they are, the status never gets better in the order enabled,
    warning, disabled. *)
Theorem AddError_dedup_monotone :
  (forall Domain (r : RouterInfo Domain) err critical critical' calls,
     RouterInfo_AddError r err critical =
       (if decide (Error err ∈ Err r) then r
        else {| router := router r; Err := Err r ++ [Error err];
                Status := if critical then RuntimeStatusDisabled
                          else if String.eqb (Status r) RuntimeStatusDisabled
                               then RuntimeStatusDisabled
                               else RuntimeStatusWarning |})
     /\ RouterInfo_AddError (RouterInfo_AddError r err critical) err critical'
        = RouterInfo_AddError r err critical
     /\ severity (Status r) <= severity (Status (RouterInfo_AddErrors r calls)))
  /\ (forall (s : ServiceInfo) err critical critical' calls,
     ServiceInfo_AddError s err critical =
       (if decide (Error err ∈ svc_Err s) then s
        else {| svc := svc s; svc_Err := svc_Err s ++ [Error err];
                svc_Status := if critical then RuntimeStatusDisabled
                              else if String.eqb (svc_Status s) RuntimeStatusDisabled
                                   then RuntimeStatusDisabled
                                   else RuntimeStatusWarning;
                svc_UsedBy := svc_UsedBy s; serverStatus := serverStatus s |})
     /\ ServiceInfo_AddError (ServiceInfo_AddError s err critical) err critical'
        = ServiceInfo_AddError s err critical
     /\ severity (svc_Status s)
        <= severity (svc_Status (ServiceInfo_AddErrors s calls))).
Proof.
  split.
  - intros Domain r err critical critical' calls.
    auto using RouterInfo_AddError_spec, RouterInfo_AddError_again,
      RouterInfo_AddErrors_severity.
  - intros s err critical critical' calls.
    auto using ServiceInfo_AddError_spec, ServiceInfo_AddError_again,
      ServiceInfo_AddErrors_severity.
Qed.

End AddErrorFacts.

(** ** Mergeable *)

Module MergeableFacts.
Import Dynamic Samples.

(** Two records are equal exactly when their fields are. *)
Ltac record_eq x y :=
  destruct x, y; simpl;
  split; [intros; destruct_and?; by subst | intros [=]; subst; repeat split].

(** Lookups in a map altered at known keys. *)
Ltac alter_lookup :=
  repeat first [rewrite lookup_alter_eq | rewrite lookup_alter_ne by congruence].

Lemma deepEqual_ptr_eq {A} (eq : A -> A -> bool) (x y : option A) :
  (forall a b, eq a b = true <-> a = b) ->
  deepEqual_ptr eq x y = true <-> x = y.
Proof.
  intros Heq. destruct x as [a|], y as [b|]; simpl; try done.
  rewrite Heq. split; congruence.
Qed.

Lemma deepEqual_elems_eq {A} (eq : A -> A -> bool) (x y : list A) :
  (forall a b, eq a b = true <-> a = b) ->
  deepEqual_elems eq x y = true <-> x = y.
Proof.
  intros Heq. revert y.
  induction x as [|a x IH]; intros [|b y]; simpl; try done.
  rewrite andb_true_iff, Heq, IH. split; [intros [-> ->]|intros [= -> ->]]; done.
Qed.

Lemma deepEqual_map_eq (x y : option (gmap string string)) :
  deepEqual_map x y = true <-> x = y.
Proof.
  apply deepEqual_ptr_eq. intros m1 m2.
  rewrite andb_true_iff, Nat.eqb_eq, forallb_forall. split.
  - intros [Hsize Hall].
    assert (Hsub : m1 ⊆ m2).
    { apply map_subseteq_spec. intros k v Hk.
      apply elem_of_map_to_list, list_elem_of_In in Hk.
      specialize (Hall _ Hk). simpl in Hall.
      destruct (m2 !! k) as [v2|]; [|done].
      apply String.eqb_eq in Hall. by subst. }
    apply map_subseteq_size_eq; [done|lia].
  - intros ->. split; [done|]. intros [k v] Hk.
    apply list_elem_of_In, elem_of_map_to_list in Hk. rewrite Hk.
    by apply String.eqb_eq.
Qed.

Lemma bool_eqb_eq (a b : bool) : Bool.eqb a b = true <-> a = b.
Proof. by destruct a, b. Qed.

Lemma deepEqual_Cookie_eq x y : deepEqual_Cookie x y = true <-> x = y.
Proof.
  unfold deepEqual_Cookie.
  rewrite !andb_true_iff, String.eqb_eq, !bool_eqb_eq.
  record_eq x y.
Qed.

Lemma deepEqual_Sticky_eq x y : deepEqual_Sticky x y = true <-> x = y.
Proof.
  unfold deepEqual_Sticky.
  rewrite (deepEqual_ptr_eq _ _ _ deepEqual_Cookie_eq).
  record_eq x y.
Qed.

Lemma deepEqual_Server_eq x y : deepEqual_Server x y = true <-> x = y.
Proof.
  unfold deepEqual_Server. rewrite !andb_true_iff, !String.eqb_eq.
  record_eq x y.
Qed.

Lemma deepEqual_HealthCheck_eq x y : deepEqual_HealthCheck x y = true <-> x = y.
Proof.
  unfold deepEqual_HealthCheck.
  rewrite !andb_true_iff, !String.eqb_eq, Z.eqb_eq, deepEqual_map_eq.
  record_eq x y.
Qed.

Lemma deepEqual_ResponseForwarding_eq x y :
  deepEqual_ResponseForwarding x y = true <-> x = y.
Proof.
  unfold deepEqual_ResponseForwarding. rewrite String.eqb_eq.
  record_eq x y.
Qed.

Lemma deepEqual_ServersLoadBalancer_eq x y :
  deepEqual_ServersLoadBalancer x y = true <-> x = y.
Proof.
  unfold deepEqual_ServersLoadBalancer, deepEqual_slice.
  rewrite !andb_true_iff, bool_eqb_eq.
  rewrite (deepEqual_ptr_eq _ _ _ deepEqual_Sticky_eq).
  rewrite (deepEqual_ptr_eq _ _ _ deepEqual_HealthCheck_eq).
  rewrite (deepEqual_ptr_eq _ _ _ deepEqual_ResponseForwarding_eq).
  rewrite (deepEqual_ptr_eq _ _ _
             (fun a b => deepEqual_elems_eq _ a b deepEqual_Server_eq)).
  record_eq x y.
Qed.

Lemma set_Servers_eq a b :
  set_Servers None a = set_Servers None b <-> equal_but_Servers a b.
Proof.
  unfold equal_but_Servers, set_Servers. destruct a, b; simpl.
  split; [intros [=]; subst; repeat split | intros; destruct_and?; by subst].
Qed.

(** C10. [Mergeable] on two load balancers of the heap, be they one object
    or two, answers [true] exactly when they agree on every field other
    than [Servers], and leaves the heap, hence both [Servers] fields, as it
    found it. *)
Theorem Mergeable_equal_but_Servers_restores (h : lbHeap) (l loadBalancer : loc) a b :
  h !! l = Some a -> h !! loadBalancer = Some b ->
  exists result,
    Mergeable h l loadBalancer = Some (result, h)
    /\ (result = true <-> equal_but_Servers a b).
Proof.
  intros Ha Hb. unfold Mergeable, deepEqual_lbPtr.
  rewrite Ha. simpl.
  destruct (decide (l = loadBalancer)) as [->|Hne].
  - assert (a = b) as <- by congruence.
    alter_lookup. rewrite Ha. simpl.
    exists true. split.
    + do 2 f_equal. apply map_eq. intros i.
      destruct (decide (i = loadBalancer)) as [->|Hi]; alter_lookup; [|done].
      rewrite Ha. simpl. by destruct a.
    + split; [|done]. intros _. by apply set_Servers_eq.
  - alter_lookup. rewrite Hb. simpl.
    destruct (decide (l = loadBalancer)) as [?|_]; [done|].
    alter_lookup. rewrite Ha. simpl.
    eexists. split.
    + do 2 f_equal. apply map_eq. intros i.
      destruct (decide (i = l)) as [->|Hi]; alter_lookup.
      { rewrite Ha. simpl. by destruct a. }
      destruct (decide (i = loadBalancer)) as [->|Hi']; alter_lookup; [|done].
      rewrite Hb. simpl. by destruct b.
    + rewrite deepEqual_ServersLoadBalancer_eq. apply set_Servers_eq.
Qed.

Lemma Mergeable_equal_but_Servers_restores_witness :
  heap_example !! 1%positive = Some (lb_example (Some [server_example]))
  /\ heap_example !! 2%positive = Some (lb_example (Some []))
  /\ exists result,
       Mergeable heap_example 1%positive 2%positive = Some (result, heap_example)
       /\ (result = true <->
           equal_but_Servers (lb_example (Some [server_example]))
             (lb_example (Some []))).
Proof.
  split; [reflexivity|]. split; [reflexivity|].
  apply (Mergeable_equal_but_Servers_restores heap_example 1%positive 2%positive);
    reflexivity.
Defined.

End MergeableFacts.

(** ** GetAllStatus and UpdateServerStatus *)

Module ServerStatusFacts.
Import Dynamic Caller Samples.

Lemma fresh_loc_unused (h : mapHeap) : h !! fresh (dom h) = None.
Proof. apply not_elem_of_dom, is_fresh. Qed.

Lemma copy_entries_other allStatus entries : forall (h : mapHeap) l,
  l ≠ allStatus -> copy_entries allStatus entries h !! l = h !! l.
Proof.
  unfold copy_entries.
  induction entries as [|[k v] entries IH]; intros h l Hl; simpl; [done|].
  rewrite IH by done. simpl. apply lookup_alter_ne. congruence.
Qed.

Lemma copy_entries_target allStatus entries : forall (h : mapHeap) c,
  h !! allStatus = Some c ->
  copy_entries allStatus entries h !! allStatus
  = Some (foldl (fun c '(k, v) => <[k:=v]> c) c entries).
Proof.
  unfold copy_entries.
  induction entries as [|[k v] entries IH]; intros h c Hc; simpl; [done|].
  apply IH. simpl. etrans; [apply lookup_alter_eq|]. by rewrite Hc.
Qed.

Lemma foldl_insert_lookup (entries : list (string * string)) :
  forall (c : gmap string string) k,
  NoDup entries.*1 ->
  foldl (fun c '(k, v) => <[k:=v]> c) c entries !! k
  = match (list_to_map entries : gmap string string) !! k with
    | Some v => Some v
    | None => c !! k
    end.
Proof.
  induction entries as [|[k0 v0] entries IH]; intros c k Hnd; simpl; [done|].
  apply NoDup_cons in Hnd as [Hk0 Hnd]. rewrite IH by done.
  destruct (decide (k = k0)) as [->|Hne].
  - rewrite lookup_insert_eq.
    rewrite (not_elem_of_list_to_map_1 _ k0) by done.
    by rewrite lookup_insert_eq.
  - rewrite !lookup_insert_ne by done. done.
Qed.

Lemma foldl_insert_map_to_list (m : gmap string string) :
  foldl (fun c '(k, v) => <[k:=v]> c) ∅ (map_to_list m) = m.
Proof.
  apply map_eq. intros k.
  rewrite foldl_insert_lookup by apply NoDup_fst_map_to_list.
  rewrite list_to_map_to_list. by destruct (m !! k).
Qed.

(** The returned map: nil when there is nothing stored, else a new object
    with the stored entries; the heap is otherwise as before. *)
Lemma GetAllStatus_result s h :
  let '(m, h1) := GetAllStatus s h in
  map_content h1 m = stored s h
  /\ (forall l, is_Some (h !! l) -> h1 !! l = h !! l)
  /\ (forall l, m = Some l -> h !! l = None /\ is_Some (h1 !! l)).
Proof.
  unfold GetAllStatus, stored, make_map.
  case_decide as Hsize.
  - split; [|split]; [|done|done]. simpl.
    symmetry. by apply map_size_empty_iff.
  - set (l' := fresh (dom h)).
    assert (Hl' : h !! l' = None) by apply fresh_loc_unused.
    assert (Hsame : map_content (<[l':=∅]> h) (serverStatus s)
                    = map_content h (serverStatus s)).
    { unfold map_content in *. destruct (serverStatus s) as [l|]; [|done].
      destruct (decide (l = l')) as [->|Hne].
      - by rewrite lookup_insert_eq, Hl'.
      - by rewrite lookup_insert_ne. }
    rewrite Hsame. split; [|split].
    + simpl.
      rewrite (copy_entries_target _ _ _ ∅) by apply lookup_insert_eq.
      simpl. apply foldl_insert_map_to_list.
    + intros l [c Hc].
      assert (l ≠ l') by congruence.
      rewrite copy_entries_other by done. by rewrite lookup_insert_ne.
    + intros l [= <-]. split; [done|].
      rewrite (copy_entries_target _ _ _ ∅) by apply lookup_insert_eq. done.
Qed.

Lemma mutate_other m mu (h : mapHeap) l :
  m ≠ Some l -> mutate m h mu !! l = h !! l.
Proof.
  intros Hm. destruct m as [l'|], mu as [k v|k]; simpl; try done;
    apply lookup_alter_ne; congruence.
Qed.

Lemma mutates_other m mus : forall (h : mapHeap) l,
  m ≠ Some l -> mutates m mus h !! l = h !! l.
Proof.
  unfold mutates. induction mus as [|mu mus IH]; intros h l Hm; simpl; [done|].
  rewrite IH by done. by apply mutate_other.
Qed.

Lemma mutates_nil mus (h : mapHeap) : mutates None mus h = h.
Proof.
  unfold mutates. induction mus as [|[k v|k] mus IH]; simpl; done.
Qed.

Lemma mutates_stored s m mus (h : mapHeap) :
  m ≠ serverStatus s -> stored s (mutates m mus h) = stored s h.
Proof.
  intros Hm. unfold stored, map_content.
  destruct (serverStatus s) as [l|]; [|done].
  by rewrite mutates_other.
Qed.

Lemma GetAllStatus_stored s h :
  allocated s h -> stored s (GetAllStatus s h).2 = stored s h.
Proof.
  intros Hal. pose proof (GetAllStatus_result s h) as Hres.
  destruct (GetAllStatus s h) as [m h1]. destruct Hres as (_ & Hframe & _).
  simpl. unfold stored, map_content.
  destruct (serverStatus s) as [l|] eqn:El; [|done].
  by rewrite Hframe by by apply Hal.
Qed.

Lemma GetAllStatus_fresh s h :
  allocated s h ->
  (GetAllStatus s h).1 = None \/ (GetAllStatus s h).1 ≠ serverStatus s.
Proof.
  intros Hal. pose proof (GetAllStatus_result s h) as Hres.
  destruct (GetAllStatus s h) as [[l|] h1]; [|by left]. right.
  destruct Hres as (_ & _ & Hnew). destruct (Hnew l eq_refl) as [Hl _].
  simpl. intros Heq. destruct (Hal l (eq_sym Heq)) as [c Hc]. congruence.
Qed.

Lemma UpdateServerStatus_stored s server status h :
  allocated s h ->
  stored (UpdateServerStatus s server status h).1
         (UpdateServerStatus s server status h).2
  = <[server := status]> (stored s h).
Proof.
  intros Hal. unfold UpdateServerStatus, stored, make_map.
  destruct (serverStatus s) as [l|] eqn:El; simpl.
  - rewrite El. simpl. destruct (Hal l El) as [c Hc].
    by rewrite lookup_alter_eq, Hc.
  - by rewrite lookup_alter_eq, lookup_insert_eq.
Qed.

(** C9. The map [GetAllStatus] returns is nil or a new object holding the
    stored entries, never the stored map itself: whatever the caller then
    assigns to it or deletes from it, the statuses stored in the
    [ServiceInfo] and the entries a later [GetAllStatus] returns are the
    same as before. Of the methods of [ServiceInfo], [AddError] and
    [GetAllStatus] leave the stored statuses alone, [UpdateServerStatus]
    sets the one of the given server. *)
Theorem GetAllStatus_defensive_copy s h mus err critical server status :
  allocated s h ->
  let m := (GetAllStatus s h).1 in
  let h1 := (GetAllStatus s h).2 in
  let h2 := mutates m mus h1 in
  map_content h1 m = stored s h
  /\ (m = None \/ m ≠ serverStatus s)
  /\ stored s h2 = stored s h
  /\ map_content (GetAllStatus s h2).2 (GetAllStatus s h2).1 = stored s h
  /\ stored (ServiceInfo_AddError s err critical) h = stored s h
  /\ stored s h1 = stored s h
  /\ stored (UpdateServerStatus s server status h).1
            (UpdateServerStatus s server status h).2
     = <[server := status]> (stored s h).
Proof.
  intros Hal m h1 h2.
  assert (Hm : m = None \/ m ≠ serverStatus s) by by apply GetAllStatus_fresh.
  assert (Hh1 : stored s h1 = stored s h) by by apply GetAllStatus_stored.
  assert (Hh2 : stored s h2 = stored s h).
  { destruct Hm as [Hm|Hm].
    - unfold h2. by rewrite Hm, mutates_nil.
    - unfold h2. by rewrite mutates_stored. }
  split; [|split; [done|split; [done|split; [|split; [|split; [done|]]]]]].
  - pose proof (GetAllStatus_result s h) as Hres. subst m h1.
    by destruct (GetAllStatus s h), Hres.
  - pose proof (GetAllStatus_result s h2) as Hres.
    destruct (GetAllStatus s h2) as [m' h3]. simpl. by destruct Hres as [-> _].
  - unfold stored, ServiceInfo_AddError. by repeat case_match.
  - by apply UpdateServerStatus_stored.
Qed.

Lemma GetAllStatus_defensive_copy_witness :
  allocated serviceInfo_example statuses_example
  /\ stored serviceInfo_example
       (mutates (GetAllStatus serviceInfo_example statuses_example).1
          [Assign "http://10.0.0.1:80" "DOWN"; Delete "http://10.0.0.1:80"]
          (GetAllStatus serviceInfo_example statuses_example).2)
     = stored serviceInfo_example statuses_example.
Proof.
  assert (Hal : allocated serviceInfo_example statuses_example).
  { intros l [= <-]. eexists. reflexivity. }
  split; [exact Hal|].
  exact (proj1 (proj2 (proj2
    (GetAllStatus_defensive_copy serviceInfo_example statuses_example
       [Assign "http://10.0.0.1:80" "DOWN"; Delete "http://10.0.0.1:80"]
       {| Error := "down" |} false "http://10.0.0.1:80" "DOWN" Hal)))).
Defined.

End ServerStatusFacts.

(** ** NewRuntimeConfig *)

Module NewRuntimeConfigFacts.
Import Dynamic.

Section Facts.
Context {Domain Middleware TCPRouter TCPService : Type}.
Implicit Type conf : Configuration Domain Middleware TCPRouter TCPService.

Lemma wrap_entries_spec {A B} (f : A -> B) (src : gmap string A) :
  wrap_entries f src = if decide (src = ∅) then None else Some (f <$> src).
Proof.
  unfold wrap_entries. destruct (decide (src = ∅)) as [->|Hne].
  - by rewrite map_size_empty.
  - rewrite decide_True; [done|].
    destruct (size src) eqn:E; [|lia]. by apply map_size_empty_iff in E.
Qed.

Lemma wrap_entries_lookup {A B} (f : A -> B) (src : gmap string A) k :
  go_lookup (wrap_entries f src) k = f <$> src !! k.
Proof.
  rewrite wrap_entries_spec. case_decide as E; simpl.
  - by rewrite E, lookup_empty.
  - by rewrite lookup_fmap.
Qed.


End Facts.

(** A section that is there but holds nothing gives nil maps as well. *)
Example NewRuntimeConfig_empty_section :
  NewRuntimeConfig (Domain := unit) (Middleware := unit) (TCPRouter := unit)
    (TCPService := unit)
    {| HTTP := Some {| http_Routers := ∅; http_Middlewares := ∅;
                       http_Services := ∅ |};
       TCP := None |}
  = emptyRuntimeConfiguration.
Proof. reflexivity. Qed.

End NewRuntimeConfigFacts.

(** ** GetRoutersByEntryPoints *)

Module GetRoutersByEntryPointsFacts.
Import Dynamic Partition SampleStore GoStringFacts.

Section Facts.
Context {Domain Middleware TCPRouter TCPService : Type}.
Implicit Types (rt : RouterInfo Domain) (acc : partition Domain).

Lemma contains_elem_of (entryPoints : list string) (ep : string) :
  contains entryPoints ep = bool_decide (ep ∈ entryPoints).
Proof.
  unfold contains. apply eq_true_iff_eq.
  rewrite existsb_exists, bool_decide_eq_true, list_elem_of_In. split.
  - intros (y & Hy & Heq). apply String.eqb_eq in Heq. by subst.
  - intros Hx. exists ep. split; [done|]. by apply String.eqb_eq.
Qed.

(** One turn of the inner loop. *)
Lemma placeRouter_at entryPoints rtName rt acc ep0 ep name :
  at_entryPoint (placeRouter entryPoints rtName rt acc ep0).1 ep name
  = if bool_decide (ep = ep0 /\ name = rtName /\ ep0 ∈ entryPoints)
    then Some rt else at_entryPoint acc.1 ep name.
Proof.
  destruct acc as [p log]. unfold placeRouter, at_entryPoint.
  rewrite contains_elem_of.
  destruct (bool_decide_reflect (ep0 ∈ entryPoints)) as [Hin|Hin]; simpl.
  2: { rewrite bool_decide_eq_false_2; [done|]. tauto. }
  destruct (decide (ep = ep0)) as [->|Hep].
  - rewrite lookup_alter_eq.
    destruct (p !! ep0) as [m|] eqn:Em; simpl.
    + rewrite Em. simpl. destruct (decide (name = rtName)) as [->|Hn].
      * rewrite lookup_insert_eq. by rewrite bool_decide_eq_true_2.
      * rewrite lookup_insert_ne by done.
        rewrite bool_decide_eq_false_2; [done|]. tauto.
    + rewrite lookup_insert_eq. simpl.
      destruct (decide (name = rtName)) as [->|Hn].
      * rewrite lookup_insert_eq. by rewrite bool_decide_eq_true_2.
      * rewrite lookup_insert_ne, lookup_empty by done.
        rewrite bool_decide_eq_false_2; [done|]. tauto.
  - rewrite bool_decide_eq_false_2 by tauto.
    rewrite lookup_alter_ne by done.
    destruct (p !! ep0) as [m|] eqn:Em; [done|].
    by rewrite lookup_insert_ne.
Qed.

Lemma placeRouter_log entryPoints rtName rt acc ep0 :
  (placeRouter entryPoints rtName rt acc ep0).2
  = acc.2 ++ (if bool_decide (ep0 ∈ entryPoints) then [] else [ep0]).
Proof.
  destruct acc as [p log]. unfold placeRouter. rewrite contains_elem_of.
  destruct (bool_decide (ep0 ∈ entryPoints)); simpl; [|done].
  by rewrite app_nil_r.
Qed.

(** The inner loop. *)
Lemma foldl_placeRouter_at entryPoints rtName rt eps : forall acc ep name,
  at_entryPoint (foldl (placeRouter entryPoints rtName rt) acc eps).1 ep name
  = if bool_decide (name = rtName /\ ep ∈ eps /\ ep ∈ entryPoints)
    then Some rt else at_entryPoint acc.1 ep name.
Proof.
  induction eps as [|ep0 eps IH]; intros acc ep name; simpl.
  - rewrite bool_decide_eq_false_2; [done|]. set_solver.
  - rewrite IH, placeRouter_at.
    repeat case_bool_decide; try done; exfalso; set_solver.
Qed.

Lemma foldl_placeRouter_log entryPoints rtName rt eps : forall acc,
  (foldl (placeRouter entryPoints rtName rt) acc eps).2
  = acc.2 ++ filter (fun ep => ep ∉ entryPoints) eps.
Proof.
  induction eps as [|ep0 eps IH]; intros acc; simpl.
  - by rewrite app_nil_r.
  - rewrite IH, placeRouter_log, <- app_assoc. f_equal.
    destruct (bool_decide_reflect (ep0 ∈ entryPoints)).
    + by rewrite filter_cons_False by tauto.
    + by rewrite filter_cons_True by done.
Qed.

(** The test that skips a router. *)
Lemma skip_tls_matches tls rt :
  (tls && bool_decide (TLS (router rt) = None))
  || (negb tls && negb (bool_decide (TLS (router rt) = None)))
  = negb (tls_matches tls rt).
Proof.
  unfold tls_matches. destruct tls, (TLS (router rt)); done.
Qed.

(** One turn of the loop over the routers. *)
Lemma placeRouters_at entryPoints tls acc rtName rt ep name :
  at_entryPoint (placeRouters entryPoints tls acc (rtName, rt)).1 ep name
  = if bool_decide (name = rtName) && belongs entryPoints tls rt ep
    then Some rt else at_entryPoint acc.1 ep name.
Proof.
  unfold placeRouters, belongs. rewrite skip_tls_matches.
  destruct (tls_matches tls rt); simpl; [|by rewrite andb_false_r].
  rewrite foldl_placeRouter_at.
  destruct (EntryPoints (router rt)) as [|e es]; simpl;
    repeat case_bool_decide; simpl; try done; exfalso; set_solver.
Qed.

Lemma placeRouters_log entryPoints tls acc rtName rt :
  (placeRouters entryPoints tls acc (rtName, rt)).2
  = acc.2 ++ (if tls_matches tls rt
              then filter (fun ep => ep ∉ entryPoints) (EntryPoints (router rt))
              else []).
Proof.
  assert (Hall : filter (fun ep => ep ∉ entryPoints) entryPoints = []).
  { apply filter_none. tauto. }
  unfold placeRouters. rewrite skip_tls_matches.
  destruct (tls_matches tls rt); simpl; [|by rewrite app_nil_r].
  rewrite foldl_placeRouter_log.
  destruct (EntryPoints (router rt)) as [|e es]; simpl; [|done].
  by rewrite Hall.
Qed.

(** The loop over the routers, visited in any order without repetition. *)
Lemma foldl_placeRouters_at entryPoints tls (L : list (string * RouterInfo Domain)) :
  forall acc ep name,
  NoDup L.*1 ->
  at_entryPoint (foldl (placeRouters entryPoints tls) acc L).1 ep name
  = match (list_to_map L : gmap string (RouterInfo Domain)) !! name with
    | Some rt =>
        if belongs entryPoints tls rt ep then Some rt
        else at_entryPoint acc.1 ep name
    | None => at_entryPoint acc.1 ep name
    end.
Proof.
  induction L as [|[rtName rt] L IH]; intros acc ep name Hnd; [done|].
  rewrite fmap_cons in Hnd. apply NoDup_cons in Hnd as [Hfresh Hnd].
  cbn [foldl list_to_map foldr uncurry Datatypes.uncurry].
  rewrite IH by done. rewrite placeRouters_at.
  destruct (decide (name = rtName)) as [->|Hne].
  - rewrite lookup_insert_eq, (not_elem_of_list_to_map_1 _ rtName) by done.
    by rewrite bool_decide_eq_true_2.
  - rewrite lookup_insert_ne by done.
    by rewrite bool_decide_eq_false_2.
Qed.

Lemma foldl_placeRouters_log entryPoints tls (L : list (string * RouterInfo Domain)) :
  forall acc,
  (foldl (placeRouters entryPoints tls) acc L).2
  = acc.2 ++ (L ≫= fun '(_, rt) =>
                if tls_matches tls rt
                then filter (fun ep => ep ∉ entryPoints) (EntryPoints (router rt))
                else []).
Proof.
  induction L as [|[rtName rt] L IH]; intros acc.
  - simpl. by rewrite app_nil_r.
  - cbn [foldl mbind list_bind]. by rewrite IH, placeRouters_log, <- app_assoc.
Qed.

(** C6. In the partition [GetRoutersByEntryPoints] returns, the router
    named [rtName] is found under the entry point [ep] exactly when it is a
    router of the store whose TLS declaration matches the [tls] flag, [ep]
    is one of the supplied entry points, and the router lists [ep] or lists
    no entry point at all. So a router with TLS is in no partition for
    [tls = false] and one without in none for [tls = true]; a router
    without entry points is under each supplied one; an entry point that a
    router names and that is not supplied holds nothing, the router staying
    under its other entry points. The names reported as unknown are the
    entry points named by the routers with a matching TLS declaration that
    are not supplied. *)
Theorem GetRoutersByEntryPoints_partition
  (r : RuntimeConfiguration Domain Middleware TCPRouter TCPService)
  (entryPoints : list string) (tls : bool) (ep rtName : string) :
  at_entryPoint (GetRoutersByEntryPoints r entryPoints tls).1 ep rtName
  = match go_lookup (Routers r) rtName with
    | Some rt => if belongs entryPoints tls rt ep then Some rt else None
    | None => None
    end
  /\ (GetRoutersByEntryPoints r entryPoints tls).2
     = go_range (Routers r) ≫= fun '(_, rt) =>
         if tls_matches tls rt
         then filter (fun ep => ep ∉ entryPoints) (EntryPoints (router rt))
         else [].
Proof.
  unfold GetRoutersByEntryPoints. split.
  - destruct (Routers r) as [m|]; simpl; [|done].
    rewrite foldl_placeRouters_at by apply NoDup_fst_map_to_list.
    rewrite list_to_map_to_list. unfold at_entryPoint. simpl.
    rewrite lookup_empty. simpl. by repeat case_match.
  - by rewrite foldl_placeRouters_log.
Qed.

End Facts.

(** A router without entry points and without TLS, with the entry points
    [web] and [websecure] supplied: it is under both for [tls = false] and
    under neither for [tls = true]. *)
Example GetRoutersByEntryPoints_no_entry_points :
  let entryPoints := ["web"; "websecure"] in
  let plain := (GetRoutersByEntryPoints store_example entryPoints false).1 in
  let secure := (GetRoutersByEntryPoints store_example entryPoints true).1 in
  at_entryPoint plain "web" "r@p" = Some (router_example [] [] "s")
  /\ at_entryPoint plain "websecure" "r@p" = Some (router_example [] [] "s")
  /\ at_entryPoint secure "web" "r@p" = None
  /\ at_entryPoint secure "websecure" "r@p" = None.
Proof. by vm_compute. Qed.

End GetRoutersByEntryPointsFacts.

(** ** PopulateUsedBy *)

Module PopulateUsedByFacts.
Import Dynamic Links SecondPass SampleStore GoStringFacts.

Section Facts.
Context {Domain Middleware TCPRouter TCPService : Type}.
Context (TCPRouter_Service : TCPRouter -> string).

Local Abbreviation Store := (RuntimeConfiguration Domain Middleware TCPRouter TCPService).
Local Abbreviation State := (passState Domain Middleware TCPRouter TCPService).

Implicit Types (r : Store) (st : State) (k routerName : string).

Lemma use_middleware_nil (m : MiddlewareInfo Middleware) : use_middleware [] m = m.
Proof. destruct m. unfold use_middleware, middleware_set_UsedBy. simpl. by rewrite app_nil_r. Qed.

Lemma use_middleware_app a b (m : MiddlewareInfo Middleware) :
  use_middleware b (use_middleware a m) = use_middleware (a ++ b) m.
Proof. unfold use_middleware, middleware_set_UsedBy. simpl. by rewrite app_assoc. Qed.

Lemma use_service_nil s : use_service [] s = s.
Proof. destruct s. unfold use_service, service_set_UsedBy. simpl. by rewrite app_nil_r. Qed.

Lemma use_service_app a b s :
  use_service b (use_service a s) = use_service (a ++ b) s.
Proof. unfold use_service, service_set_UsedBy. simpl. by rewrite app_assoc. Qed.

Lemma use_tcpService_nil (s : TCPServiceInfo TCPService) : use_tcpService [] s = s.
Proof. destruct s. unfold use_tcpService, tcpService_set_UsedBy. simpl. by rewrite app_nil_r. Qed.

Lemma use_tcpService_app a b (s : TCPServiceInfo TCPService) :
  use_tcpService b (use_tcpService a s) = use_tcpService (a ++ b) s.
Proof. unfold use_tcpService, tcpService_set_UsedBy. simpl. by rewrite app_assoc. Qed.

Lemma lazyStatus_idemp status : lazyStatus (lazyStatus status) = lazyStatus status.
Proof.
  unfold lazyStatus. destruct (String.eqb status "") eqn:E; [reflexivity|].
  by rewrite E.
Qed.

Lemma lazy_router_idemp (ri : RouterInfo Domain) : lazy_router (lazy_router ri) = lazy_router ri.
Proof. unfold lazy_router, router_set_Status. simpl. by rewrite lazyStatus_idemp. Qed.

(** Reading a map after an assignment through one of its pointers. *)
Lemma go_lookup_update {V} (f : V -> V) k0 (m : option (gmap string V)) k :
  go_lookup (go_update f k0 m) k
  = (if decide (k0 = k) then f else id) <$> go_lookup m k.
Proof.
  unfold go_lookup, go_update. destruct m as [m|]; simpl; [|done].
  case_decide as E.
  - subst. apply lookup_alter_eq.
  - rewrite lookup_alter_ne by done. by destruct (m !! k).
Qed.

Lemma go_lookup_each {V} (f : V -> V) (m : option (gmap string V)) k :
  go_lookup (go_each f m) k = f <$> go_lookup m k.
Proof.
  unfold go_lookup, go_each. destruct m as [m|]; simpl; [|done].
  apply lookup_fmap.
Qed.

(** *** The inner loop over the middlewares of a router *)

Lemma linkMiddleware_frame routerName providerName r midName :
  let r' := linkMiddleware routerName providerName r midName in
  Routers r' = Routers r /\ Services r' = Services r
  /\ TCPRouters r' = TCPRouters r /\ TCPServices r' = TCPServices r.
Proof. unfold linkMiddleware. by case_match. Qed.

Lemma linkMiddleware_lookup routerName providerName r midName k :
  go_lookup (rt_Middlewares (linkMiddleware routerName providerName r midName)) k
  = use_middleware
      (if decide (getQualifiedName providerName midName = k)
       then [routerName] else [])
    <$> go_lookup (rt_Middlewares r) k.
Proof.
  unfold linkMiddleware.
  destruct (go_lookup (rt_Middlewares r) _) as [m|] eqn:E; simpl.
  - rewrite go_lookup_update. case_decide; [done|].
    destruct (go_lookup (rt_Middlewares r) k) as [m'|]; simpl; [|done].
    by rewrite use_middleware_nil.
  - case_decide as Ek.
    + subst. by rewrite E.
    + destruct (go_lookup (rt_Middlewares r) k) as [m'|]; simpl; [|done].
      by rewrite use_middleware_nil.
Qed.

Lemma foldl_linkMiddleware_frame routerName providerName mids : forall r,
  let r' := foldl (linkMiddleware routerName providerName) r mids in
  Routers r' = Routers r /\ Services r' = Services r
  /\ TCPRouters r' = TCPRouters r /\ TCPServices r' = TCPServices r.
Proof.
  induction mids as [|mid mids IH]; intros r; simpl; [done|].
  destruct (IH (linkMiddleware routerName providerName r mid)) as (-> & -> & -> & ->).
  apply linkMiddleware_frame.
Qed.

Lemma foldl_linkMiddleware_lookup routerName providerName mids k : forall r,
  go_lookup
    (rt_Middlewares (foldl (linkMiddleware routerName providerName) r mids)) k
  = use_middleware
      (mids ≫= fun midName =>
         if decide (getQualifiedName providerName midName = k)
         then [routerName] else [])
    <$> go_lookup (rt_Middlewares r) k.
Proof.
  induction mids as [|mid mids IH]; intros r.
  - simpl. destruct (go_lookup _ k); simpl; [|done]. by rewrite use_middleware_nil.
  - cbn [foldl mbind list_bind]. rewrite IH, linkMiddleware_lookup.
    destruct (go_lookup (rt_Middlewares r) k); simpl; [|done].
    by rewrite use_middleware_app.
Qed.

(** *** One turn of the loop over the routers *)

Lemma linkRouter_frame st routerName (ri : RouterInfo Domain) :
  TCPRouters (linkRouter st (routerName, ri)).1 = TCPRouters st.1
  /\ TCPServices (linkRouter st (routerName, ri)).1 = TCPServices st.1.
Proof.
  destruct st as [r log]. unfold linkRouter.
  destruct (String.eqb _ ""); [done|].
  match goal with
  | |- context [foldl ?f ?r0 ?l] =>
      destruct (foldl_linkMiddleware_frame routerName
                  (getProviderName routerName) l r0) as (HR & HS & HT & HTS)
  end.
  case_match; simpl; by rewrite HT, HTS.
Qed.

Lemma linkRouter_Routers st routerName (ri : RouterInfo Domain) k :
  go_lookup (Routers (linkRouter st (routerName, ri)).1) k
  = (if decide (routerName = k) then lazy_router else id)
    <$> go_lookup (Routers st.1) k.
Proof.
  destruct st as [r log]. unfold linkRouter.
  destruct (String.eqb _ ""); [apply go_lookup_update|].
  match goal with
  | |- context [foldl ?f ?r0 ?l] =>
      destruct (foldl_linkMiddleware_frame routerName
                  (getProviderName routerName) l r0) as (HR & HS & HT & HTS)
  end.
  case_match; simpl; rewrite HR; apply go_lookup_update.
Qed.

Lemma linkRouter_Middlewares st routerName (ri : RouterInfo Domain) k :
  go_lookup (rt_Middlewares (linkRouter st (routerName, ri)).1) k
  = use_middleware (middleware_links k (routerName, ri))
    <$> go_lookup (rt_Middlewares st.1) k.
Proof.
  destruct st as [r log]. unfold linkRouter, middleware_links, qualified.
  simpl. destruct (String.eqb _ ""); simpl.
  - destruct (go_lookup _ k); simpl; [|done]. by rewrite use_middleware_nil.
  - case_match; simpl; by rewrite foldl_linkMiddleware_lookup.
Qed.

Lemma linkRouter_Services st routerName (ri : RouterInfo Domain) k :
  go_lookup (Services (linkRouter st (routerName, ri)).1) k
  = use_service (service_links k (routerName, ri))
    <$> go_lookup (Services st.1) k.
Proof.
  destruct st as [r log]. unfold linkRouter, service_links, qualified.
  simpl. destruct (String.eqb _ ""); simpl.
  - destruct (go_lookup _ k); simpl; [|done]. by rewrite use_service_nil.
  - match goal with
    | |- context [foldl ?f ?r0 ?l] =>
        destruct (foldl_linkMiddleware_frame routerName
                    (getProviderName routerName) l r0) as (HR & HS & HT & HTS)
    end.
    unfold references_to, resolve. simpl. rewrite app_nil_r.
    destruct (go_lookup (Services _) (getQualifiedName _ _)) as [s0|] eqn:E;
      simpl.
    + rewrite go_lookup_update, HS. simpl. case_decide; [done|].
      destruct (go_lookup (Services r) k); simpl; [|done].
      by rewrite use_service_nil.
    + rewrite HS. rewrite HS in E. simpl in E. simpl. case_decide as Ek.
      * subst. by rewrite E.
      * destruct (go_lookup (Services r) k); simpl; [|done].
        by rewrite use_service_nil.
Qed.

Lemma linkRouter_log st routerName (ri : RouterInfo Domain) :
  (linkRouter st (routerName, ri)).2
  = st.2 ++ (if qualified routerName then []
             else [LogRouterNotQualified routerName]).
Proof.
  destruct st as [r log]. unfold linkRouter, qualified.
  destruct (String.eqb _ ""); simpl; [done|].
  case_match; simpl; by rewrite app_nil_r.
Qed.

(** *** The loop over the routers *)

Lemma foldl_linkRouter_frame (L : list (string * RouterInfo Domain)) : forall st,
  TCPRouters (foldl linkRouter st L).1 = TCPRouters st.1
  /\ TCPServices (foldl linkRouter st L).1 = TCPServices st.1.
Proof.
  induction L as [|[routerName ri] L IH]; intros st; [done|].
  cbn [foldl]. destruct (IH (linkRouter st (routerName, ri))) as [-> ->].
  apply linkRouter_frame.
Qed.

Lemma foldl_linkRouter_Routers (L : list (string * RouterInfo Domain)) k :
  forall st,
  go_lookup (Routers (foldl linkRouter st L).1) k
  = (if bool_decide (k ∈ L.*1) then lazy_router else id)
    <$> go_lookup (Routers st.1) k.
Proof.
  induction L as [|[routerName ri] L IH]; intros st.
  - simpl. by destruct (go_lookup _ k).
  - cbn [foldl]. rewrite IH, linkRouter_Routers, fmap_cons. simpl.
    destruct (go_lookup (Routers st.1) k) as [x|]; simpl; [|done]. f_equal.
    repeat case_bool_decide; repeat case_decide; simpl;
      rewrite ?lazy_router_idemp; try done; exfalso; set_solver.
Qed.

Lemma foldl_linkRouter_Middlewares (L : list (string * RouterInfo Domain)) k :
  forall st,
  go_lookup (rt_Middlewares (foldl linkRouter st L).1) k
  = use_middleware (L ≫= middleware_links k)
    <$> go_lookup (rt_Middlewares st.1) k.
Proof.
  induction L as [|[routerName ri] L IH]; intros st.
  - simpl. destruct (go_lookup _ k); simpl; [|done]. by rewrite use_middleware_nil.
  - cbn [foldl mbind list_bind]. rewrite IH, linkRouter_Middlewares.
    destruct (go_lookup (rt_Middlewares st.1) k); simpl; [|done].
    by rewrite use_middleware_app.
Qed.

Lemma foldl_linkRouter_Services (L : list (string * RouterInfo Domain)) k :
  forall st,
  go_lookup (Services (foldl linkRouter st L).1) k
  = use_service (L ≫= service_links k) <$> go_lookup (Services st.1) k.
Proof.
  induction L as [|[routerName ri] L IH]; intros st.
  - simpl. destruct (go_lookup _ k); simpl; [|done]. by rewrite use_service_nil.
  - cbn [foldl mbind list_bind]. rewrite IH, linkRouter_Services.
    destruct (go_lookup (Services st.1) k); simpl; [|done].
    by rewrite use_service_app.
Qed.

Lemma foldl_linkRouter_log (L : list (string * RouterInfo Domain)) : forall st,
  (foldl linkRouter st L).2
  = st.2 ++ (L ≫= fun entry =>
               if qualified entry.1 then []
               else [LogRouterNotQualified entry.1]).
Proof.
  induction L as [|[routerName ri] L IH]; intros st.
  - simpl. by rewrite app_nil_r.
  - cbn [foldl mbind list_bind]. by rewrite IH, linkRouter_log, <- app_assoc.
Qed.

(** *** The loop over the TCP routers *)

Lemma linkTCPRouter_frame st routerName (ri : TCPRouterInfo TCPRouter) :
  let r' := (linkTCPRouter TCPRouter_Service st (routerName, ri)).1 in
  Routers r' = Routers st.1 /\ rt_Middlewares r' = rt_Middlewares st.1
  /\ Services r' = Services st.1 /\ TCPRouters r' = TCPRouters st.1.
Proof.
  destruct st as [r log]. unfold linkTCPRouter.
  destruct (String.eqb _ ""); [done|]. by case_match.
Qed.

Lemma linkTCPRouter_TCPServices st routerName (ri : TCPRouterInfo TCPRouter) k :
  go_lookup (TCPServices (linkTCPRouter TCPRouter_Service st (routerName, ri)).1) k
  = use_tcpService (tcpService_links TCPRouter_Service k (routerName, ri))
    <$> go_lookup (TCPServices st.1) k.
Proof.
  destruct st as [r log]. unfold linkTCPRouter, tcpService_links, qualified.
  simpl. destruct (String.eqb _ ""); simpl.
  - destruct (go_lookup _ k); simpl; [|done]. by rewrite use_tcpService_nil.
  - unfold references_to, resolve. simpl. rewrite app_nil_r.
    destruct (go_lookup (TCPServices _) (getQualifiedName _ _)) as [s0|] eqn:E;
      simpl.
    + rewrite go_lookup_update. case_decide; [done|].
      destruct (go_lookup (TCPServices r) k); simpl; [|done].
      by rewrite use_tcpService_nil.
    + case_decide as Ek.
      * subst. by rewrite E.
      * destruct (go_lookup (TCPServices r) k); simpl; [|done].
        by rewrite use_tcpService_nil.
Qed.

Lemma linkTCPRouter_log st routerName (ri : TCPRouterInfo TCPRouter) :
  (linkTCPRouter TCPRouter_Service st (routerName, ri)).2
  = st.2 ++ (if qualified routerName then []
             else [LogTCPRouterNotQualified routerName]).
Proof.
  destruct st as [r log]. unfold linkTCPRouter, qualified.
  destruct (String.eqb _ ""); simpl; [done|].
  case_match; simpl; by rewrite app_nil_r.
Qed.

Lemma foldl_linkTCPRouter_frame (L : list (string * TCPRouterInfo TCPRouter)) :
  forall st,
  let r' := (foldl (linkTCPRouter TCPRouter_Service) st L).1 in
  Routers r' = Routers st.1 /\ rt_Middlewares r' = rt_Middlewares st.1
  /\ Services r' = Services st.1 /\ TCPRouters r' = TCPRouters st.1.
Proof.
  induction L as [|[routerName ri] L IH]; intros st; [done|].
  cbn [foldl].
  destruct (IH (linkTCPRouter TCPRouter_Service st (routerName, ri)))
    as (-> & -> & -> & ->).
  apply linkTCPRouter_frame.
Qed.

Lemma foldl_linkTCPRouter_TCPServices
  (L : list (string * TCPRouterInfo TCPRouter)) k : forall st,
  go_lookup (TCPServices (foldl (linkTCPRouter TCPRouter_Service) st L).1) k
  = use_tcpService (L ≫= tcpService_links TCPRouter_Service k)
    <$> go_lookup (TCPServices st.1) k.
Proof.
  induction L as [|[routerName ri] L IH]; intros st.
  - simpl. destruct (go_lookup _ k); simpl; [|done]. by rewrite use_tcpService_nil.
  - cbn [foldl mbind list_bind]. rewrite IH, linkTCPRouter_TCPServices.
    destruct (go_lookup (TCPServices st.1) k); simpl; [|done].
    by rewrite use_tcpService_app.
Qed.

Lemma foldl_linkTCPRouter_log (L : list (string * TCPRouterInfo TCPRouter)) :
  forall st,
  (foldl (linkTCPRouter TCPRouter_Service) st L).2
  = st.2 ++ (L ≫= fun entry =>
               if qualified entry.1 then []
               else [LogTCPRouterNotQualified entry.1]).
Proof.
  induction L as [|[routerName ri] L IH]; intros st.
  - simpl. by rewrite app_nil_r.
  - cbn [foldl mbind list_bind]. by rewrite IH, linkTCPRouter_log, <- app_assoc.
Qed.

(** The order in which the routers are visited, which Go leaves open, does
    not show in the store once the [UsedBy] lists are sorted. *)
Lemma visiting_order_irrelevant (L L' : list (string * RouterInfo Domain)) st k :
  L ≡ₚ L' ->
  go_lookup (go_each finishService (Services (foldl linkRouter st L).1)) k
  = go_lookup (go_each finishService (Services (foldl linkRouter st L').1)) k
  /\ go_lookup
       (go_each finishMiddleware (rt_Middlewares (foldl linkRouter st L).1)) k
     = go_lookup
         (go_each finishMiddleware (rt_Middlewares (foldl linkRouter st L').1)) k
  /\ go_lookup (Routers (foldl linkRouter st L).1) k
     = go_lookup (Routers (foldl linkRouter st L').1) k.
Proof.
  intros HL. rewrite !go_lookup_each.
  rewrite !foldl_linkRouter_Services, !foldl_linkRouter_Middlewares,
    !foldl_linkRouter_Routers.
  split; [|split].
  - destruct (go_lookup (Services st.1) k) as [s|]; simpl; [|done].
    unfold finishService, use_service, service_set_UsedBy. simpl.
    do 2 f_equal. apply sort_strings_proper. by rewrite HL.
  - destruct (go_lookup (rt_Middlewares st.1) k) as [m|]; simpl; [|done].
    unfold finishMiddleware, use_middleware, middleware_set_UsedBy. simpl.
    do 2 f_equal. apply sort_strings_proper. by rewrite HL.
  - destruct (go_lookup (Routers st.1) k) as [x|]; simpl; [|done].
    f_equal. repeat case_bool_decide; try done; exfalso.
    + by rewrite HL in *.
    + by rewrite <- HL in *.
Qed.

(** *** The whole pass *)

Lemma elem_of_go_range {V} (m : option (gmap string V)) k v :
  go_lookup m k = Some v -> k ∈ (go_range m).*1.
Proof.
  destruct m as [m|]; simpl; [|done]. intros Hk.
  apply list_elem_of_fmap. exists (k, v). split; [done|].
  by apply elem_of_map_to_list.
Qed.

(** Every entity of the store after the pass, in terms of the store
    before it. *)
Lemma populateUsedBy_lookup r k :
  let r' := (populateUsedBy TCPRouter_Service r).1 in
  go_lookup (Routers r') k = lazy_router <$> go_lookup (Routers r) k
  /\ go_lookup (rt_Middlewares r') k
     = linked_middleware (go_range (Routers r) ≫= middleware_links k)
       <$> go_lookup (rt_Middlewares r) k
  /\ go_lookup (Services r') k
     = linked_service (go_range (Routers r) ≫= service_links k)
       <$> go_lookup (Services r) k
  /\ TCPRouters r' = TCPRouters r
  /\ go_lookup (TCPServices r') k
     = linked_tcpService
         (go_range (TCPRouters r) ≫= tcpService_links TCPRouter_Service k)
       <$> go_lookup (TCPServices r) k.
Proof.
  unfold populateUsedBy.
  pose proof (foldl_linkRouter_frame (go_range (Routers r)) (r, [])) as [HT HTS].
  pose proof (foldl_linkRouter_Routers (go_range (Routers r)) k (r, [])) as HR.
  pose proof (foldl_linkRouter_Middlewares (go_range (Routers r)) k (r, [])) as HM.
  pose proof (foldl_linkRouter_Services (go_range (Routers r)) k (r, [])) as HS.
  destruct (foldl linkRouter (r, []) (go_range (Routers r))) as [r1 log1].
  simpl in HT, HTS, HR, HM, HS.
  match goal with
  | |- context [foldl (linkTCPRouter ?f) ?st ?L] =>
      pose proof (foldl_linkTCPRouter_frame L st) as (HR' & HM' & HS' & HT');
      pose proof (foldl_linkTCPRouter_TCPServices L k st) as HTS';
      destruct (foldl (linkTCPRouter f) st L) as [r4 log4]
  end.
  simpl in HR', HM', HS', HT', HTS'. simpl.
  rewrite HR', HM', HS', HT', HT. repeat split.
  - rewrite HR. destruct (go_lookup (Routers r) k) as [x|] eqn:E; [|done].
    by rewrite bool_decide_eq_true_2 by by eapply elem_of_go_range.
  - rewrite go_lookup_each, HM. by destruct (go_lookup (rt_Middlewares r) k).
  - rewrite go_lookup_each, HS. by destruct (go_lookup (Services r) k).
  - rewrite go_lookup_each, HTS', HT, HTS.
    by destruct (go_lookup (TCPServices r) k).
Qed.

(** What the pass reports: the routers whose names carry no provider. *)
Lemma populateUsedBy_log r :
  (populateUsedBy TCPRouter_Service r).2
  = (go_range (Routers r) ≫= fun entry =>
       if qualified entry.1 then [] else [LogRouterNotQualified entry.1])
    ++ (go_range (TCPRouters r) ≫= fun entry =>
          if qualified entry.1 then [] else [LogTCPRouterNotQualified entry.1]).
Proof.
  unfold populateUsedBy.
  pose proof (foldl_linkRouter_frame (go_range (Routers r)) (r, [])) as [HT HTS].
  pose proof (foldl_linkRouter_log (go_range (Routers r)) (r, [])) as HL.
  destruct (foldl linkRouter (r, []) (go_range (Routers r))) as [r1 log1].
  simpl in HT, HTS, HL.
  match goal with
  | |- context [foldl (linkTCPRouter ?f) ?st ?L] =>
      pose proof (foldl_linkTCPRouter_log L st) as HL';
      destruct (foldl (linkTCPRouter f) st L) as [r4 log4]
  end.
  simpl in HL'. simpl. by rewrite HL', HL, HT.
Qed.

Lemma PopulateUsedBy_receiver r :
  (PopulateUsedBy TCPRouter_Service (Some r)).1 = Some (once TCPRouter_Service r)
  /\ PopulateUsedBy TCPRouter_Service (None : option Store) = (None, []).
Proof.
  unfold PopulateUsedBy, once.
  by destruct (populateUsedBy TCPRouter_Service r).
Qed.

(** *** Counting the links of one router *)


Lemma occurrences_Permutation name l1 l2 :
  l1 ≡ₚ l2 -> occurrences name l1 = occurrences name l2.
Proof. unfold occurrences. by intros ->. Qed.

Lemma occurrences_sort name l :
  occurrences name (GoString.sort_strings l) = occurrences name l.
Proof. apply occurrences_Permutation, sort_strings_Permutation. Qed.



Lemma elem_of_references_to x routerName references target :
  x ∈ references_to routerName references target -> x = routerName.
Proof.
  unfold references_to. rewrite list_elem_of_bind. intros (ref & Hx & _).
  case_decide; set_solver.
Qed.



Lemma elem_of_service_links x k (entry : string * RouterInfo Domain) :
  x ∈ service_links k entry -> x = entry.1.
Proof.
  unfold service_links. case_match; [apply elem_of_references_to|set_solver].
Qed.

Lemma elem_of_middleware_links x k (entry : string * RouterInfo Domain) :
  x ∈ middleware_links k entry -> x = entry.1.
Proof.
  unfold middleware_links. case_match; [apply elem_of_references_to|set_solver].
Qed.

(** Qualifying a reference: one that holds no [@] gets the provider after
    an [@], any other is left as it is. *)
Lemma getQualifiedName_spec provider elementName :
  getQualifiedName provider elementName
  = if GoString.contains_byte elementName "@" then elementName
    else elementName +:+ "@" +:+ provider.
Proof.
  unfold getQualifiedName.
  pose proof (Split_length_1 elementName "@") as Hsplit.
  destruct (GoString.contains_byte elementName "@"); case_decide as Hlen;
    try done.
  - apply Hsplit in Hlen. done.
  - destruct Hlen. by apply Hsplit.
Qed.


(** *** A second pass *)

Lemma go_range_ext {V} (g : V -> V) (m1 m2 : option (gmap string V)) :
  (forall k, go_lookup m1 k = g <$> go_lookup m2 k) ->
  go_range m1 = prod_map id g <$> go_range m2.
Proof.
  intros Hk.
  assert (Heq : default ∅ m1 = g <$> default ∅ m2).
  { apply map_eq. intros k. specialize (Hk k). rewrite lookup_fmap.
    destruct m1 as [m1|], m2 as [m2|]; simpl in *;
      rewrite ?lookup_empty in *; done. }
  assert (Hr : forall m : option (gmap string V),
            go_range m = map_to_list (default ∅ m)).
  { intros [m|]; simpl; [done|]. by rewrite map_to_list_empty. }
  rewrite !Hr, Heq. apply map_to_list_fmap.
Qed.

Lemma links_second_pass {X} (f : string * X -> list string) (g : X -> X)
  (m1 m2 : option (gmap string X)) :
  (forall k, go_lookup m1 k = g <$> go_lookup m2 k) ->
  (forall entry, f (prod_map id g entry) = f entry) ->
  go_range m1 ≫= f = go_range m2 ≫= f.
Proof.
  intros Hk Hf. rewrite (go_range_ext g m1 m2 Hk), list_fmap_bind.
  induction (go_range m2) as [|entry L IH]; [done|].
  cbn [mbind list_bind]. simpl. by rewrite Hf, IH.
Qed.

Lemma once_Routers r k :
  go_lookup (Routers (once TCPRouter_Service r)) k
  = lazy_router <$> go_lookup (Routers r) k.
Proof. unfold once. by destruct (populateUsedBy_lookup r k) as (-> & _). Qed.

Lemma once_TCPRouters r :
  TCPRouters (once TCPRouter_Service r) = TCPRouters r.
Proof.
  unfold once. by destruct (populateUsedBy_lookup r "") as (_ & _ & _ & -> & _).
Qed.

(** C2, as it holds. A second call of [PopulateUsedBy] leaves every name,
    every router, every [Err] list, every [Status] and every configuration
    as the first call left it; each [UsedBy] list gets once more the names
    the first call added to it, and is sorted again. *)
Theorem PopulateUsedBy_second_pass r k :
  let r1 := once TCPRouter_Service r in
  let r2 := twice TCPRouter_Service r in
  (PopulateUsedBy TCPRouter_Service (Some r)).1 = Some r1
  /\ (PopulateUsedBy TCPRouter_Service
        (PopulateUsedBy TCPRouter_Service (Some r)).1).1 = Some r2
  /\ go_lookup (Routers r2) k = go_lookup (Routers r1) k
  /\ TCPRouters r2 = TCPRouters r1
  /\ go_lookup (rt_Middlewares r2) k
     = relinked_middleware (go_range (Routers r) ≫= middleware_links k)
       <$> go_lookup (rt_Middlewares r1) k
  /\ go_lookup (Services r2) k
     = relinked_service (go_range (Routers r) ≫= service_links k)
       <$> go_lookup (Services r1) k
  /\ go_lookup (TCPServices r2) k
     = relinked_tcpService
         (go_range (TCPRouters r) ≫= tcpService_links TCPRouter_Service k)
       <$> go_lookup (TCPServices r1) k.
Proof.
  intros r1 r2. subst r1 r2. unfold twice.
  set (r1 := once TCPRouter_Service r).
  destruct (populateUsedBy_lookup r1 k) as (HR & HM & HS & HT & HTS).
  fold (once TCPRouter_Service r1) in HR, HM, HS, HT, HTS.
  assert (Hlinks : forall f : string * RouterInfo Domain -> list string,
            (forall entry, f (prod_map id lazy_router entry) = f entry) ->
            go_range (Routers r1) ≫= f = go_range (Routers r) ≫= f).
  { intros f Hf. apply (links_second_pass f lazy_router); [|done].
    intros k'. apply once_Routers. }
  rewrite Hlinks in HM by by intros [].
  rewrite Hlinks in HS by by intros [].
  split; [apply PopulateUsedBy_receiver|].
  split.
  { rewrite (proj1 (PopulateUsedBy_receiver r)).
    apply (PopulateUsedBy_receiver r1). }
  repeat split.
  - rewrite HR. unfold r1. rewrite once_Routers.
    destruct (go_lookup (Routers r) k); simpl; [|done].
    by rewrite lazy_router_idemp.
  - done.
  - by rewrite HM.
  - rewrite HS. unfold r1.
    destruct (populateUsedBy_lookup r k) as (_ & _ & HS1 & _).
    fold (once TCPRouter_Service r) in HS1. rewrite HS1.
    destruct (go_lookup (Services r) k) as [s|]; [|done].
    simpl. f_equal. unfold linked_service, relinked_service,
      service_set_UsedBy. simpl. f_equal. apply lazyStatus_idemp.
  - rewrite HTS. unfold r1 at 1. by rewrite once_TCPRouters.
Qed.

End Facts.

(** C2, as stated, fails: with one router [r@p] that names the service [s]
    and the service [s@p], the [UsedBy] list of the service holds the router
    once after one call and twice after two. *)
Lemma PopulateUsedBy_not_idempotent :
  svc_UsedBy <$> go_lookup (Services (once no_TCPRouter_Service store_example)) "s@p"
  = Some ["r@p"]
  /\ svc_UsedBy <$> go_lookup (Services (twice no_TCPRouter_Service store_example)) "s@p"
     = Some ["r@p"; "r@p"]
  /\ twice no_TCPRouter_Service store_example
     <> once no_TCPRouter_Service store_example.
Proof.
  split; [by vm_compute|]. split; [by vm_compute|].
  intros Heq.
  assert (H1 : svc_UsedBy <$>
                 go_lookup (Services (twice no_TCPRouter_Service store_example)) "s@p"
               = Some ["r@p"; "r@p"]) by by vm_compute.
  rewrite Heq in H1. vm_compute in H1. discriminate.
Qed.


End PopulateUsedByFacts.

(** ** The TCP proxy *)

Module TcpFacts.
Import Dynamic Tcp SampleRun.

Section Facts.
Context {Time : Type} (Time_Add : Time -> Z -> Time).
Implicit Types (p : Proxy) (o : @outcome Time) (dst src : connection).
Implicit Types (s : @system Time) (r : @routine Time).

(** What follows the half-close in [connCopy]. *)
Lemma connCopy_shape p dst src o :
  exists tail,
    connCopy Time_Add p dst src o
    = [Copy dst src; Send (copy_err o); CloseWrite dst] ++ tail
    /\ (forall a, a ∈ tail ->
          is_Send a = false /\ (forall d d', a ≠ Copy d d')
          /\ (forall c, a ≠ Close c) /\ (forall c, a ≠ CloseWrite c))
    /\ deadlines tail
       = if bool_decide (closeWrite_err o = None /\ (0 <= terminationDelay p)%Z)
         then [(dst, Time_Add (now o) (terminationDelay p))] else [].
Proof.
  unfold connCopy. eexists. split; [done|].
  destruct (closeWrite_err o) as [e|]; simpl.
  - split; [|done]. intros a Ha. apply list_elem_of_singleton in Ha as ->. done.
  - destruct (Z.leb_spec 0 (terminationDelay p)).
    + rewrite bool_decide_eq_true_2 by done.
      destruct (setReadDeadline_err o); (split; [|done]); intros a Ha;
        repeat (apply elem_of_cons in Ha as [->|Ha]; [done|]);
        by apply elem_of_nil in Ha.
    + rewrite bool_decide_eq_false_2 by lia.
      split; [|done]. intros a Ha. by apply elem_of_nil in Ha.
Qed.


(** *** ServeTCP *)

Lemma connCopy_program p dst src o :
  exists tl,
    connCopy Time_Add p dst src o = Copy dst src :: Send (copy_err o) :: tl
    /\ (forall a, a ∈ tl -> is_Send a = false /\ (forall d d', a ≠ Copy d d')).
Proof.
  destruct (connCopy_shape p dst src o) as (tail & -> & Htail & _).
  eexists. split; [done|]. intros a Ha.
  apply elem_of_cons in Ha as [->|Ha]; [done|].
  destruct (Htail _ Ha) as (? & ? & _). done.
Qed.

(** A routine before its send moves on by its copy only, and is then at
    its send. *)
Lemma pending_advance p dst src o r a rest :
  pending (connCopy Time_Add p dst src o) r ->
  todo r = a :: rest -> is_Send a = false ->
  pending (connCopy Time_Add p dst src o) (advance r).
Proof.
  destruct (connCopy_program p dst src o) as (tl & -> & _).
  intros [[Hd Ht]|(c & s0 & tl' & [= <- <- <-] & Hd & Ht)] Htodo Hns.
  - right. unfold advance. rewrite Ht. simpl. rewrite Hd. by eexists _, _, _.
  - rewrite Ht in Htodo. injection Htodo as <- <-. done.
Qed.

Lemma sent_advance prog r a rest :
  sent prog r -> todo r = a :: rest -> sent prog (advance r).
Proof.
  intros (c & s0 & d & t & -> & Hd & Ht) Htodo.
  unfold advance, sent. rewrite Htodo, Hd. rewrite Ht in Htodo. subst t. simpl.
  exists c, s0, (d ++ [a]), rest. by rewrite Htodo, <- app_assoc.
Qed.

(** A routine can take part in a receive only at its send, with the result
    of its copy, and is then past it. *)
Lemma pending_send p dst src o r err rest :
  pending (connCopy Time_Add p dst src o) r ->
  todo r = Send err :: rest ->
  err = copy_err o /\ sent (connCopy Time_Add p dst src o) (advance r).
Proof.
  destruct (connCopy_program p dst src o) as (tl & -> & _).
  intros [[Hd Ht]|(c & s0 & tl' & [= <- <- <-] & Hd & Ht)] Htodo.
  - by rewrite Ht in Htodo.
  - rewrite Ht in Htodo. injection Htodo as <- <-. split; [done|].
    unfold advance, sent. rewrite Ht, Hd. simpl.
    by exists (Copy dst src), (Send (copy_err o)), [], tl.
Qed.

Lemma sent_no_send p dst src o r err rest :
  sent (connCopy Time_Add p dst src o) r -> todo r ≠ Send err :: rest.
Proof.
  destruct (connCopy_program p dst src o) as (tl & -> & Hquiet).
  intros (c & s0 & d & t & [= <- <- ->] & Hd & Ht) Htodo.
  rewrite Htodo in Ht. subst t.
  assert (Hin : Send err ∈ d ++ Send err :: rest) by set_solver.
  by destruct (Hquiet _ Hin).
Qed.

Lemma sent_signalled p dst src o r :
  sent (connCopy Time_Add p dst src o) r ->
  signalled dst src (copy_err o) r.
Proof.
  destruct (connCopy_program p dst src o) as (tl & -> & Hquiet).
  intros (c & s0 & d & t & [= <- <- ->] & Hd & Ht).
  unfold signalled. rewrite Hd, Ht. repeat split; [set_solver|set_solver| |].
  - intros Hin.
    assert (Hin' : Copy dst src ∈ d ++ t) by set_solver.
    destruct (Hquiet _ Hin') as [_ Hc]. by apply (Hc dst src).
  - intros Hin.
    assert (Hin' : Send (copy_err o) ∈ d ++ t) by set_solver.
    by destruct (Hquiet _ Hin').
Qed.

Lemma connection_errors_app (l1 l2 : list (@action Time)) :
  connection_errors (l1 ++ l2) = connection_errors l1 ++ connection_errors l2.
Proof. apply omap_app. Qed.

Lemma invariant_initial p o1 o2 : invariant Time_Add p o1 o2 initial.
Proof. done. Qed.

Lemma invariant_step p o1 o2 s s' :
  invariant Time_Add p o1 o2 s -> step Time_Add p o1 o2 s s' ->
  invariant Time_Add p o1 o2 s'.
Proof.
  intros Hinv Hstep. unfold invariant in *.
  destruct Hstep as [s e Hm|s e Hm|s Hm|s a rest Ht Hns|s a rest Ht Hns
                    |s err rest Ht Hw|s err rest Ht Hw]; simpl.
  - done.
  - done.
  - rewrite Hm in Hinv. destruct Hinv as [-> ->].
    repeat split; by left.
  - destruct (main s) as [| | |[|]]; try done.
    + destruct Hinv as (H1 & H2 & H3 & H4). repeat split; try done.
      by eapply pending_advance.
    + destruct Hinv as [[(H1 & H2 & H3)|(H1 & H2 & H3)] H4]; (split; [|done]).
      * left. repeat split; try done. by eapply sent_advance.
      * right. repeat split; try done. by eapply pending_advance.
    + destruct Hinv as (H1 & H2 & H3 & H4). repeat split; try done.
      by eapply sent_advance.
  - destruct (main s) as [| | |[|]]; try done.
    + destruct Hinv as (H1 & H2 & H3 & H4). repeat split; try done.
      by eapply pending_advance.
    + destruct Hinv as [[(H1 & H2 & H3)|(H1 & H2 & H3)] H4]; (split; [|done]).
      * left. repeat split; try done. by eapply pending_advance.
      * right. repeat split; try done. by eapply sent_advance.
    + destruct Hinv as (H1 & H2 & H3 & H4). repeat split; try done.
      by eapply sent_advance.
  - destruct (main s) as [| | |[|]]; try done; simpl.
    + destruct Hinv as (H1 & H2 & H3 & H4).
      destruct (pending_send _ _ _ _ _ _ _ H1 Ht) as [-> Hsent].
      rewrite H3, H4. simpl. split; [by left|].
      by destruct (copy_err o1).
    + destruct Hinv as [[(H1 & H2 & H3)|(H1 & H2 & H3)] H4].
      * by destruct (sent_no_send _ _ _ _ _ _ _ H1 Ht).
      * destruct (pending_send _ _ _ _ _ _ _ H1 Ht) as [-> Hsent].
        rewrite connection_errors_app, H4, H3. simpl.
        repeat split; try done; [by right|by rewrite app_nil_r].
  - destruct (main s) as [| | |[|]]; try done; simpl.
    + destruct Hinv as (H1 & H2 & H3 & H4).
      destruct (pending_send _ _ _ _ _ _ _ H2 Ht) as [-> Hsent].
      rewrite H3, H4. simpl. split; [by right|].
      by destruct (copy_err o2).
    + destruct Hinv as [[(H1 & H2 & H3)|(H1 & H2 & H3)] H4].
      * destruct (pending_send _ _ _ _ _ _ _ H2 Ht) as [-> Hsent].
        rewrite connection_errors_app, H4, H3. simpl.
        repeat split; try done; [by left|by rewrite app_nil_r].
      * by destruct (sent_no_send _ _ _ _ _ _ _ H2 Ht).
Qed.

Lemma reachable_invariant p o1 o2 s :
  reachable Time_Add p o1 o2 s -> invariant Time_Add p o1 o2 s.
Proof.
  induction 1 as [|s s' _ IH Hstep]; [apply invariant_initial|].
  by eapply invariant_step.
Qed.

(** C3. Whenever [ServeTCP], having dialed the backend, has returned, each
    of the two copy routines has finished its copy loop and has sent its
    result on the channel: [ServeTCP] has received both results, in the
    order they were sent; the first one it logged when it was an error, the
    second one it dropped. *)
Theorem ServeTCP_returns_after_both_signals p o1 o2 s :
  reachable Time_Add p o1 o2 s ->
  main s = Returned true ->
  signalled conn connBackend (copy_err o1) (routine1 s)
  /\ signalled connBackend conn (copy_err o2) (routine2 s)
  /\ (received s = [copy_err o1; copy_err o2]
      \/ received s = [copy_err o2; copy_err o1])
  /\ connection_errors (performed s)
     = match received s with Some e :: _ => [e] | _ => [] end.
Proof.
  intros Hr Hm. apply reachable_invariant in Hr. unfold invariant in Hr.
  rewrite Hm in Hr. destruct Hr as (H1 & H2 & H3 & H4).
  repeat split; try done; by eapply sent_signalled.
Qed.

End Facts.


Lemma reachable_returned_example :
  reachable Z.add proxy_example outcome1 outcome2 returned_example.
Proof.
  assert (H0 : reachable Z.add proxy_example outcome1 outcome2 initial)
    by constructor.
  assert (H1 : reachable Z.add proxy_example outcome1 outcome2
                 (run Receiving1 0 0 [] [])).
  { eapply reachable_step; [exact H0|]. by apply (step_dialed _ _ _ _ initial). }
  assert (H2 : reachable Z.add proxy_example outcome1 outcome2
                 (run Receiving1 1 0 [] [])).
  { eapply reachable_step; [exact H1|].
    by eapply (step_routine1 _ _ _ _ (run Receiving1 0 0 [] [])). }
  assert (H3 : reachable Z.add proxy_example outcome1 outcome2
                 (run Receiving1 1 1 [] [])).
  { eapply reachable_step; [exact H2|].
    by eapply (step_routine2 _ _ _ _ (run Receiving1 1 0 [] [])). }
  assert (H4 : reachable Z.add proxy_example outcome1 outcome2
                 (run Receiving2 2 1 [None] [])).
  { eapply reachable_step; [exact H3|].
    by eapply (step_receive1 _ _ _ _ (run Receiving1 1 1 [] [])). }
  eapply reachable_step; [exact H4|].
  by eapply (step_receive2 _ _ _ _ (run Receiving2 2 1 [None] [])).
Qed.

Lemma ServeTCP_returns_after_both_signals_witness :
  reachable Z.add proxy_example outcome1 outcome2 returned_example
  /\ main returned_example = Returned true
  /\ signalled conn connBackend (copy_err outcome1) (routine1 returned_example)
  /\ signalled connBackend conn (copy_err outcome2) (routine2 returned_example).
Proof.
  split; [exact reachable_returned_example|]. split; [reflexivity|].
  pose proof (ServeTCP_returns_after_both_signals Z.add proxy_example
                outcome1 outcome2 returned_example
                reachable_returned_example eq_refl) as (H1 & H2 & _).
  exact (conj H1 H2).
Defined.

End TcpFacts.

(** ** The balancer middleware chain *)

Module ChainFacts.
Import Server SampleChain ChainOrder.

Section Facts.
Context {Extractor RateSetT URLT HealthCheckT HCOptions BackendConfig : Type}.
Context (utils_NewExtractor : string -> string + Extractor).
Context (ratelimit_NewRateSet : RateSetT).
Context (rateSet_Add : RateSetT -> Z -> Z -> Z -> string + RateSetT).
Context (ratelimit_New_err : Extractor -> RateSetT -> option string).
Context (connlimit_New_err : Extractor -> Z -> option string).
Context (buffer_New_err : Buffering -> option string).
Context (NewCircuitBreaker_err : string -> option string).
Context (url_Parse : string -> string + URLT).
Context (UpsertServer_err : URLT -> Z -> option string).
Context (NewRebalancer_err : option string -> option string).
Context (roundrobin_New_err : option string -> option string).
Context (NewLoadBalancerMethod : LoadBalancer -> string + LoadBalancerMethod).
Context (show_LoadBalancer : LoadBalancer -> string).
Context (cookie_GetName : string -> string -> string).
Context (parseHealthCheckOptions :
  @Handler Extractor RateSetT URLT -> string -> option HealthCheckT ->
  option HealthCheckT -> option HCOptions).
Context (NewBackendConfig : HCOptions -> string -> BackendConfig).
Context (set_Transport : HCOptions -> HCOptions).

Local Abbreviation handler := (@Handler Extractor RateSetT URLT).
Implicit Types (lb fwd h : handler) (be : @backend HealthCheckT)
  (s : @Server HealthCheckT) (fe : Frontend).

Lemma bindE_inr {A B} (x : string + A) (f : A -> string + B) b :
  bindE x f = inr b -> exists a, x = inr a /\ f a = inr b.
Proof. destruct x as [e|a]; simpl; [done|]. eauto. Qed.

Lemma traverse_UpsertServer lb u w : traverse (UpsertServer lb u w) = traverse lb.
Proof. induction lb; simpl; congruence. Qed.

Lemma configureLBServers_traverse lb be backendName lb' :
  configureLBServers url_Parse UpsertServer_err lb be backendName = inr lb' ->
  traverse lb' = traverse lb.
Proof.
  unfold configureLBServers.
  generalize (map_to_list (Servers be)). intros L. revert lb.
  assert (Hfail : forall (L : list (string * server)) e,
            foldl (fun acc '(name, srv) =>
              bindE acc (fun lb : handler =>
                match url_Parse (URL srv) with
                | inl err => inl ("error parsing server URL " +:+ URL srv +:+ ": " +:+ err)
                | inr u =>
                    match UpsertServer_err u (Weight srv) with
                    | Some err =>
                        inl ("error adding server " +:+ URL srv
                             +:+ " to load balancer: " +:+ err)
                    | None => inr (UpsertServer lb u (Weight srv))
                    end
                end)) (inl e) L = inl e).
  { intros L'. induction L' as [|[name srv] L' IH]; intros e; simpl; auto. }
  induction L as [|[name srv] L IH]; intros lb; simpl.
  - by intros [= ->].
  - destruct (url_Parse (URL srv)) as [e|u]; [by rewrite Hfail|].
    destruct (UpsertServer_err u (Weight srv)); [by rewrite Hfail|].
    intros H. rewrite (IH _ H). apply traverse_UpsertServer.
Qed.

Lemma buildLoadBalancer_traverse s frontendName backendName be fwd lb :
  buildLoadBalancer url_Parse UpsertServer_err NewRebalancer_err
    roundrobin_New_err NewLoadBalancerMethod show_LoadBalancer cookie_GetName
    s frontendName backendName be fwd = inr lb ->
  traverse lb = LoadBalancerLayer :: traverse fwd.
Proof.
  unfold buildLoadBalancer.
  destruct (NewLoadBalancerMethod _) as [e|lbMethod]; [done|].
  intros H. apply bindE_inr in H as (lb0 & Hlb0 & H).
  destruct (configureLBServers _ _ lb0 be backendName) as [e|lb1] eqn:Hc; [done|].
  injection H as <-. rewrite (configureLBServers_traverse _ _ _ _ Hc).
  unfold check in Hlb0.
  destruct lbMethod, (stickiness (be_LoadBalancer be)),
    (accessLoggerMiddleware s); simpl in Hlb0;
    repeat (match type of Hlb0 with
            | context [match ?x with _ => _ end] => destruct x; simpl in Hlb0
            end); try done; by injection Hlb0 as <-.
Qed.

(** Each stage puts its middleware, when it is switched on, around the
    handler it is given. *)
Lemma stageRateLimit_traverse s frontendName fe lb lb' :
  stageRateLimit utils_NewExtractor ratelimit_NewRateSet rateSet_Add
    ratelimit_New_err s frontendName fe lb = inr lb' ->
  traverse lb'
  = (if rateLimit_on fe then [RateLimitLayer] else []) ++ traverse lb.
Proof.
  unfold stageRateLimit, rateLimit_on.
  destruct (fe_RateLimit fe) as [rl|]; [|by intros [= <-]].
  case_decide as Hsize.
  - rewrite bool_decide_eq_true_2 by done.
    destruct (buildRateLimiter _ _ _ _ lb rl) as [e|handler] eqn:Hb; [done|].
    intros [= <-]. unfold buildRateLimiter in Hb.
    apply bindE_inr in Hb as (extractFunc & _ & Hb).
    apply bindE_inr in Hb as (rateSet & _ & Hb).
    apply bindE_inr in Hb as (_ & _ & [= <-]).
    unfold wrapHTTPHandlerWithAccessLog. by destruct (accessLoggerMiddleware s).
  - rewrite bool_decide_eq_false_2 by done. by intros [= <-].
Qed.

Lemma stageMaxConn_traverse s frontendName be lb lb' :
  stageMaxConn utils_NewExtractor connlimit_New_err s frontendName be lb = inr lb' ->
  traverse lb' = (if maxConn_on be then [MaxConnLayer] else []) ++ traverse lb.
Proof.
  unfold stageMaxConn, maxConn_on.
  destruct (be_MaxConn be) as [mc|]; [|by intros [= <-]].
  destruct (bool_decide_reflect (Amount mc ≠ 0%Z)) as [Hamount|Hamount];
    (case_decide; [|try done]; try done).
  - intros Hbuild.
    apply bindE_inr in Hbuild as (handler & Hb & [= <-]).
    unfold buildMaxConn in Hb.
    revert Hb. destruct (utils_NewExtractor _) as [e|extractFunc]; [done|].
    destruct (connlimit_New_err _ _); [done|]. intros [= <-].
    unfold wrapHTTPHandlerWithAccessLog. by destruct (accessLoggerMiddleware s).
  - by intros [= <-].
Qed.

Lemma stageRetry_traverse s fe be lb :
  traverse (stageRetry s fe be lb)
  = (if present (globalRetry s) then [RetryLayer] else []) ++ traverse lb.
Proof. unfold stageRetry. by destruct (globalRetry s). Qed.

Lemma stageBuffering_traverse be lb lb' :
  stageBuffering buffer_New_err be lb = inr lb' ->
  traverse lb' = (if present (be_Buffering be) then [BufferingLayer] else []) ++ traverse lb.
Proof.
  unfold stageBuffering, buildBufferingMiddleware, check.
  destruct (be_Buffering be) as [b|]; [|by intros [= <-]].
  destruct (buffer_New_err b); [done|]. by intros [= <-].
Qed.

Lemma stageCircuitBreaker_traverse be lb lb' :
  stageCircuitBreaker NewCircuitBreaker_err be lb = inr lb' ->
  traverse lb'
  = (if present (be_CircuitBreaker be) then [CircuitBreakerLayer] else []) ++ traverse lb.
Proof.
  unfold stageCircuitBreaker.
  destruct (be_CircuitBreaker be) as [cb|]; [|by intros [= <-]].
  destruct (NewCircuitBreaker_err _); [done|]. by intros [= <-].
Qed.

(** The chain as built, whatever is switched on. *)
Lemma buildBalancerMiddlewares_traverse s frontendName fe be fwd h hc :
  buildBalancerMiddlewares utils_NewExtractor ratelimit_NewRateSet rateSet_Add
    ratelimit_New_err connlimit_New_err buffer_New_err NewCircuitBreaker_err
    url_Parse UpsertServer_err NewRebalancer_err roundrobin_New_err
    NewLoadBalancerMethod show_LoadBalancer cookie_GetName
    parseHealthCheckOptions NewBackendConfig set_Transport
    s frontendName fe be fwd = inr (h, hc) ->
  traverse h = enabled_layers s fe be ++ LoadBalancerLayer :: traverse fwd.
Proof.
  unfold buildBalancerMiddlewares. intros H.
  apply bindE_inr in H as (balancer & Hbal & H).
  apply bindE_inr in H as (lb1 & H1 & H).
  apply bindE_inr in H as (lb2 & H2 & H).
  apply bindE_inr in H as (lb3 & H3 & H).
  apply bindE_inr in H as (lb4 & H4 & [= <- _]).
  rewrite (stageCircuitBreaker_traverse _ _ _ H4).
  rewrite (stageBuffering_traverse _ _ _ H3), stageRetry_traverse.
  rewrite (stageMaxConn_traverse _ _ _ _ _ H2).
  rewrite (stageRateLimit_traverse _ _ _ _ _ H1). simpl.
  rewrite (buildLoadBalancer_traverse _ _ _ _ _ _ Hbal).
  unfold enabled_layers. by rewrite <- !app_assoc.
Qed.

Lemma all_enabled_layers s fe be :
  all_enabled s fe be ->
  enabled_layers s fe be
  = [CircuitBreakerLayer; BufferingLayer; RetryLayer; MaxConnLayer;
     RateLimitLayer].
Proof.
  intros ((rl & Hrl & Hsize) & (mc & Hmc & Hamount) & [r Hr] & [b Hb] & [c Hc]).
  unfold enabled_layers, maxConn_on, rateLimit_on.
  rewrite Hrl, Hmc, Hr, Hb, Hc.
  by rewrite !bool_decide_eq_true_2 by done.
Qed.

(** C1, as it holds. With every middleware switched on, a request entering
    the handler that [buildBalancerMiddlewares] returns goes through the
    circuit breaker first, then buffering, then retry, then the connection
    limit, then the rate limit, then the load balancer and the forwarder:
    each stage wraps the handler built by the stages before it, so the
    stage written first in the function is the innermost. *)
Theorem buildBalancerMiddlewares_order s frontendName fe be fwd h hc :
  all_enabled s fe be ->
  buildBalancerMiddlewares utils_NewExtractor ratelimit_NewRateSet rateSet_Add
    ratelimit_New_err connlimit_New_err buffer_New_err NewCircuitBreaker_err
    url_Parse UpsertServer_err NewRebalancer_err roundrobin_New_err
    NewLoadBalancerMethod show_LoadBalancer cookie_GetName
    parseHealthCheckOptions NewBackendConfig set_Transport
    s frontendName fe be fwd = inr (h, hc) ->
  traverse h
  = [CircuitBreakerLayer; BufferingLayer; RetryLayer; MaxConnLayer;
     RateLimitLayer; LoadBalancerLayer] ++ traverse fwd.
Proof.
  intros Hall Hbuild.
  rewrite (buildBalancerMiddlewares_traverse _ _ _ _ _ _ _ Hbuild).
  by rewrite (all_enabled_layers _ _ _ Hall).
Qed.

End Facts.

(** C1, as stated, fails: with every middleware switched on, the chain is
    built, and a request goes through it in the order opposite to the
    specified one as far as the five middlewares are concerned. *)
Lemma buildBalancerMiddlewares_not_specified_order :
  all_enabled server_example frontend_example backend_example
  /\ exists h hc,
       chain_example = inr (h, hc)
       /\ traverse h = built_order
       /\ traverse h <> specified_order.
Proof.
  split.
  - unfold all_enabled. simpl. repeat split; eauto.
  - eexists _, _. split; [by vm_compute|]. split; [by vm_compute|].
    by vm_compute.
Qed.

Lemma buildBalancerMiddlewares_order_witness :
  all_enabled server_example frontend_example backend_example
  /\ exists h hc,
       chain_example = inr (h, hc)
       /\ traverse h
          = [CircuitBreakerLayer; BufferingLayer; RetryLayer; MaxConnLayer;
             RateLimitLayer; LoadBalancerLayer]
            ++ @traverse string (list (Z * Z * Z)) string Forwarder.
Proof.
  assert (Hall : all_enabled server_example frontend_example backend_example).
  { unfold all_enabled. simpl. repeat split; eauto. }
  split; [exact Hall|].
  destruct chain_example as [e|[h hc]] eqn:Hc; [by vm_compute in Hc|].
  exists h, hc. split; [done|]. unfold chain_example in Hc.
  exact (buildBalancerMiddlewares_order _ _ _ _ _ _ _ _ _ _ _ _ _ _ _ _ _
           _ _ _ _ _ _ _ Hall Hc).
Defined.

End ChainFacts.

(** ** Qualified names *)

Module NameFacts.
Import Dynamic GoString GoStringFacts.

Lemma Split_not_nil s sep : Split s sep ≠ [].
Proof.
  pose proof (Split_length s sep). by destruct (Split s sep).
Qed.

(** A string without the separator is its own single piece. *)
Lemma Split_no_sep s sep : contains_byte s sep = false -> Split s sep = [s].
Proof.
  induction s as [|c s IH]; simpl; [done|].
  destruct (Ascii.eqb c sep); simpl; [done|].
  intros Hs. by rewrite IH.
Qed.

(** The pieces of a string that holds the separator: what comes before its
    first occurrence, then the pieces of what comes after. *)
Lemma Split_app s1 s2 sep :
  contains_byte s1 sep = false ->
  Split (s1 +:+ String sep s2) sep = s1 :: Split s2 sep.
Proof.
  induction s1 as [|c s1 IH]; simpl.
  - intros _. by rewrite Ascii.eqb_refl.
  - destruct (Ascii.eqb c sep); simpl; [done|].
    intros Hs. by rewrite IH.
Qed.

Lemma contains_byte_app s1 s2 sep :
  contains_byte (s1 +:+ s2) sep = contains_byte s1 sep || contains_byte s2 sep.
Proof.
  induction s1 as [|c s1 IH]; simpl; [done|].
  by rewrite IH, orb_assoc.
Qed.

Lemma getQualifiedName_qualified provider elementName :
  contains_byte (getQualifiedName provider elementName) "@" = true.
Proof.
  rewrite PopulateUsedByFacts.getQualifiedName_spec.
  destruct (contains_byte elementName "@") eqn:E; [done|].
  rewrite contains_byte_app. simpl. by rewrite orb_true_r.
Qed.

(** X1. Qualifying a name twice is qualifying it once: a name that went
    through [getQualifiedName] is left as it is by any further call,
    whatever the provider. *)
Theorem getQualifiedName_idempotent provider provider' elementName :
  getQualifiedName provider' (getQualifiedName provider elementName)
  = getQualifiedName provider elementName.
Proof.
  rewrite (PopulateUsedByFacts.getQualifiedName_spec provider').
  by rewrite getQualifiedName_qualified.
Qed.

Lemma getProviderName_split name rest :
  contains_byte name "@" = false ->
  getProviderName (name +:+ String "@" rest)
  = default "" (head (Split rest "@")).
Proof.
  intros Hname. unfold getProviderName. rewrite Split_app by done.
  pose proof (Split_not_nil rest "@").
  by destruct (Split rest "@") as [|piece pieces].
Qed.

(** X2. The provider read back from a qualified name: when the provider
    holds no [@], qualifying a bare name with it and asking for the
    provider gives the provider back; a name that was qualified already
    keeps the provider it had. *)
Theorem getProviderName_getQualifiedName provider elementName :
  contains_byte provider "@" = false ->
  getProviderName (getQualifiedName provider elementName)
  = if contains_byte elementName "@" then getProviderName elementName
    else provider.
Proof.
  intros Hp. rewrite PopulateUsedByFacts.getQualifiedName_spec.
  destruct (contains_byte elementName "@") eqn:E; [done|].
  change (elementName +:+ "@" +:+ provider)
    with (elementName +:+ String "@" provider).
  rewrite getProviderName_split by done. by rewrite Split_no_sep.
Qed.

Lemma getProviderName_getQualifiedName_witness :
  contains_byte "docker" "@" = false
  /\ getProviderName (getQualifiedName "docker" "web") = "docker".
Proof.
  split; [reflexivity|].
  exact (getProviderName_getQualifiedName "docker" "web" eq_refl).
Defined.

(** X3. A name without [@] has no provider, and neither has a name that
    ends with its first [@]: [getProviderName] gives the empty string for
    both, so that both count as not qualified. *)
Theorem getProviderName_unqualified name :
  contains_byte name "@" = false ->
  getProviderName name = ""
  /\ getProviderName (name +:+ "@") = ""
  /\ Links.qualified name = false
  /\ Links.qualified (name +:+ "@") = false.
Proof.
  intros Hname.
  assert (H1 : getProviderName name = "").
  { unfold getProviderName. by rewrite Split_no_sep. }
  assert (H2 : getProviderName (name +:+ "@") = "").
  { change (name +:+ "@") with (name +:+ String "@" "").
    by rewrite getProviderName_split. }
  unfold Links.qualified. by rewrite H1, H2.
Qed.

Lemma getProviderName_unqualified_witness :
  contains_byte "router" "@" = false
  /\ getProviderName "router" = "" /\ getProviderName "router@" = "".
Proof.
  split; [reflexivity|].
  destruct (getProviderName_unqualified "router" eq_refl) as (H1 & H2 & _).
  exact (conj H1 H2).
Defined.

End NameFacts.

(** ** The errors recorded on an entity *)

Module ErrFacts.
Import Dynamic DynamicMore AddErrorFacts.

(** The messages of a sequence of calls. *)
Local Abbreviation messages calls := (Error ∘ fst <$> calls).

Section Router.
Context {Domain : Type}.
Implicit Types (r : RouterInfo Domain) (calls : list (error * bool)).

Lemma RouterInfo_AddErrors_NoDup calls : forall r,
  NoDup (Err r) -> NoDup (Err (RouterInfo_AddErrors r calls)).
Proof.
  induction calls as [|[err critical] calls IH]; intros r Hnd; [done|].
  apply IH. rewrite RouterInfo_AddError_spec.
  case_decide as Hin; [done|]. simpl. destruct critical; simpl;
    (apply NoDup_app; split; [done|]; split; [|apply NoDup_singleton]);
    intros x Hx ->%list_elem_of_singleton; done.
Qed.

Lemma RouterInfo_AddErrors_elem_of calls : forall r m,
  m ∈ Err (RouterInfo_AddErrors r calls) <-> m ∈ Err r \/ m ∈ messages calls.
Proof.
  induction calls as [|[err critical] calls IH]; intros r m.
  - simpl. set_solver.
  - cbn [RouterInfo_AddErrors foldl]. fold (RouterInfo_AddErrors
      (RouterInfo_AddError r err critical) calls).
    rewrite IH, RouterInfo_AddError_spec, fmap_cons. simpl.
    case_decide as Hin; simpl; [set_solver|].
    rewrite elem_of_app, list_elem_of_singleton. set_solver.
Qed.

Lemma RouterInfo_AddErrors_reason calls : forall r,
  (Err r ≠ [] -> Status r ≠ RuntimeStatusEnabled) ->
  Err (RouterInfo_AddErrors r calls) ≠ [] ->
  Status (RouterInfo_AddErrors r calls) ≠ RuntimeStatusEnabled.
Proof.
  induction calls as [|[err critical] calls IH]; intros r Hr; [done|].
  apply IH. rewrite RouterInfo_AddError_spec.
  case_decide as Hin; [done|]. simpl. intros _.
  destruct critical; [done|]. by destruct (String.eqb _ _).
Qed.

Lemma RouterInfo_AddErrors_disabled calls : forall r,
  Status (RouterInfo_AddErrors r calls) = RuntimeStatusDisabled ->
  Status r = RuntimeStatusDisabled \/ exists err, (err, true) ∈ calls.
Proof.
  induction calls as [|[err critical] calls IH]; intros r Hst; [by left|].
  apply IH in Hst as [Hst|[err' Hin]]; [|right; exists err'; set_solver].
  rewrite RouterInfo_AddError_spec in Hst.
  case_decide as Hin; [by left|]. simpl in Hst.
  destruct critical; [right; exists err; set_solver|].
  destruct (String.eqb_spec (Status r) RuntimeStatusDisabled); [by left|done].
Qed.

End Router.

Section Service.
Implicit Types (s : ServiceInfo) (calls : list (error * bool)).

Lemma ServiceInfo_AddErrors_NoDup calls : forall s,
  NoDup (svc_Err s) -> NoDup (svc_Err (ServiceInfo_AddErrors s calls)).
Proof.
  induction calls as [|[err critical] calls IH]; intros s Hnd; [done|].
  apply IH. rewrite ServiceInfo_AddError_spec.
  case_decide as Hin; [done|]. simpl. destruct critical; simpl;
    (apply NoDup_app; split; [done|]; split; [|apply NoDup_singleton]);
    intros x Hx ->%list_elem_of_singleton; done.
Qed.

Lemma ServiceInfo_AddErrors_elem_of calls : forall s m,
  m ∈ svc_Err (ServiceInfo_AddErrors s calls) <-> m ∈ svc_Err s \/ m ∈ messages calls.
Proof.
  induction calls as [|[err critical] calls IH]; intros s m.
  - simpl. set_solver.
  - cbn [ServiceInfo_AddErrors foldl]. fold (ServiceInfo_AddErrors
      (ServiceInfo_AddError s err critical) calls).
    rewrite IH, ServiceInfo_AddError_spec, fmap_cons. simpl.
    case_decide as Hin; simpl; [set_solver|].
    rewrite elem_of_app, list_elem_of_singleton. set_solver.
Qed.

Lemma ServiceInfo_AddErrors_reason calls : forall s,
  (svc_Err s ≠ [] -> svc_Status s ≠ RuntimeStatusEnabled) ->
  svc_Err (ServiceInfo_AddErrors s calls) ≠ [] ->
  svc_Status (ServiceInfo_AddErrors s calls) ≠ RuntimeStatusEnabled.
Proof.
  induction calls as [|[err critical] calls IH]; intros s Hr; [done|].
  apply IH. rewrite ServiceInfo_AddError_spec.
  case_decide as Hin; [done|]. simpl. intros _.
  destruct critical; [done|]. by destruct (String.eqb _ _).
Qed.

Lemma ServiceInfo_AddErrors_disabled calls : forall s,
  svc_Status (ServiceInfo_AddErrors s calls) = RuntimeStatusDisabled ->
  svc_Status s = RuntimeStatusDisabled \/ exists err, (err, true) ∈ calls.
Proof.
  induction calls as [|[err critical] calls IH]; intros s Hst; [by left|].
  apply IH in Hst as [Hst|[err' Hin]]; [|right; exists err'; set_solver].
  rewrite ServiceInfo_AddError_spec in Hst.
  case_decide as Hin; [by left|]. simpl in Hst.
  destruct critical; [right; exists err; set_solver|].
  destruct (String.eqb_spec (svc_Status s) RuntimeStatusDisabled); [by left|done].
Qed.

End Service.

Lemma RouterInfo_AddErrors_router {Domain} (r : RouterInfo Domain) calls :
  router (RouterInfo_AddErrors r calls) = router r.
Proof.
  revert r. induction calls as [|[err critical] calls IH]; intros r; [done|].
  cbn [RouterInfo_AddErrors foldl].
  fold (RouterInfo_AddErrors (RouterInfo_AddError r err critical) calls).
  rewrite IH, RouterInfo_AddError_spec. by case_decide.
Qed.

Lemma ServiceInfo_AddErrors_frame (s : ServiceInfo) calls :
  svc (ServiceInfo_AddErrors s calls) = svc s
  /\ svc_UsedBy (ServiceInfo_AddErrors s calls) = svc_UsedBy s
  /\ serverStatus (ServiceInfo_AddErrors s calls) = serverStatus s.
Proof.
  revert s. induction calls as [|[err critical] calls IH]; intros s; [done|].
  cbn [ServiceInfo_AddErrors foldl].
  fold (ServiceInfo_AddErrors (ServiceInfo_AddError s err critical) calls).
  destruct (IH (ServiceInfo_AddError s err critical)) as (-> & -> & ->).
  rewrite ServiceInfo_AddError_spec. by case_decide.
Qed.

(** X4. On a router and on a service as [NewRuntimeConfig] wraps them,
    after any calls of [AddError]: [Err] holds every reported message, once
    each, and nothing else; [Status] is [enabled] exactly when [Err] is
    empty, so that a status other than [enabled] always has its reason in
    [Err]; [Status] is [disabled] only if some call was critical; the
    wrapped configuration, and the [UsedBy] list and the server statuses of
    a service, are as before. *)
Theorem AddError_records_reasons :
  (forall Domain (v : Router Domain) (calls : list (error * bool)),
     let r := RouterInfo_AddErrors (newRouterInfo v) calls in
     NoDup (Err r)
     /\ (forall m, m ∈ Err r <-> m ∈ messages calls)
     /\ (Status r = RuntimeStatusEnabled <-> Err r = [])
     /\ (Status r = RuntimeStatusDisabled -> exists err, (err, true) ∈ calls)
     /\ router r = v)
  /\ (forall (v : service) (calls : list (error * bool)),
     let s := ServiceInfo_AddErrors (newServiceInfo v) calls in
     NoDup (svc_Err s)
     /\ (forall m, m ∈ svc_Err s <-> m ∈ messages calls)
     /\ (svc_Status s = RuntimeStatusEnabled <-> svc_Err s = [])
     /\ (svc_Status s = RuntimeStatusDisabled -> exists err, (err, true) ∈ calls)
     /\ svc s = v /\ svc_UsedBy s = [] /\ serverStatus s = None).
Proof.
  split.
  - intros Domain v calls r. subst r.
    assert (Hin : forall m, m ∈ Err (RouterInfo_AddErrors (newRouterInfo v) calls)
                            <-> m ∈ messages calls).
    { intros m. rewrite RouterInfo_AddErrors_elem_of. simpl. set_solver. }
    split; [apply RouterInfo_AddErrors_NoDup; constructor|].
    split; [done|]. split; [|split].
    + split.
      * intros Hst.
        destruct (Err (RouterInfo_AddErrors (newRouterInfo v) calls)) eqn:E;
          [done|].
        exfalso. revert Hst. apply RouterInfo_AddErrors_reason; [done|].
        by rewrite E.
      * intros Hnil. destruct calls as [|[err c] calls]; [done|].
        exfalso. specialize (Hin (Error err)). rewrite Hnil in Hin.
        apply (not_elem_of_nil (Error err)), Hin. set_solver.
    + intros Hst. by apply RouterInfo_AddErrors_disabled in Hst as [Hst|Hst].
    + apply RouterInfo_AddErrors_router.
  - intros v calls s. subst s.
    assert (Hin : forall m, m ∈ svc_Err (ServiceInfo_AddErrors (newServiceInfo v) calls)
                            <-> m ∈ messages calls).
    { intros m. rewrite ServiceInfo_AddErrors_elem_of. simpl. set_solver. }
    split; [apply ServiceInfo_AddErrors_NoDup; constructor|].
    split; [done|]. split; [|split].
    + split.
      * intros Hst.
        destruct (svc_Err (ServiceInfo_AddErrors (newServiceInfo v) calls)) eqn:E;
          [done|].
        exfalso. revert Hst. apply ServiceInfo_AddErrors_reason; [done|].
        by rewrite E.
      * intros Hnil. destruct calls as [|[err c] calls]; [done|].
        exfalso. specialize (Hin (Error err)). rewrite Hnil in Hin.
        apply (not_elem_of_nil (Error err)), Hin. set_solver.
    + intros Hst. by apply ServiceInfo_AddErrors_disabled in Hst as [Hst|Hst].
    + apply (ServiceInfo_AddErrors_frame (newServiceInfo v)).
Qed.

Section Middleware.
Context {Middleware : Type}.
Implicit Types (m : MiddlewareInfo Middleware) (errs : list error).

Lemma MiddlewareInfo_AddError_spec m err :
  MiddlewareInfo_AddError m err
  = if decide (Error err ∈ mid_Err m) then m
    else {| middleware := middleware m; mid_Err := mid_Err m ++ [Error err];
            mid_UsedBy := mid_UsedBy m |}.
Proof.
  unfold MiddlewareInfo_AddError.
  destruct (existsb _ _) eqn:E.
  - apply existsb_eqb_In in E. by rewrite decide_True.
  - rewrite decide_False; [done|]. intros Hin.
    apply existsb_eqb_In in Hin. congruence.
Qed.

(** X5. [MiddlewareInfo.AddError] records a message once: after any calls,
    [Err] holds the messages it held and every reported one, without a
    duplicate if it had none, in the order of their first report; the
    middleware and its [UsedBy] list are as before, and a call with a
    message already recorded changes nothing. *)
Theorem MiddlewareInfo_AddError_once m errs err :
  let m' := MiddlewareInfo_AddErrors m errs in
  (NoDup (mid_Err m) -> NoDup (mid_Err m'))
  /\ (forall msg, msg ∈ mid_Err m' <-> msg ∈ mid_Err m \/ msg ∈ Error <$> errs)
  /\ mid_Err m `prefix_of` mid_Err m'
  /\ middleware m' = middleware m
  /\ mid_UsedBy m' = mid_UsedBy m
  /\ MiddlewareInfo_AddError (MiddlewareInfo_AddError m err) err
     = MiddlewareInfo_AddError m err.
Proof.
  intros m'. subst m'. split; [|split; [|split; [|split; [|split]]]].
  - revert m. induction errs as [|e errs IH]; intros m Hnd; [done|].
    apply IH. rewrite MiddlewareInfo_AddError_spec.
    case_decide as Hin; [done|]. simpl.
    apply NoDup_app. split; [done|]. split; [|apply NoDup_singleton].
    by intros x Hx ->%list_elem_of_singleton.
  - revert m. induction errs as [|e errs IH]; intros m msg.
    + simpl. set_solver.
    + cbn [MiddlewareInfo_AddErrors foldl].
      fold (MiddlewareInfo_AddErrors (MiddlewareInfo_AddError m e) errs).
      rewrite IH, MiddlewareInfo_AddError_spec, fmap_cons.
      case_decide as Hin; simpl; [set_solver|].
      rewrite elem_of_app, list_elem_of_singleton. set_solver.
  - revert m. induction errs as [|e errs IH]; intros m; [done|].
    cbn [MiddlewareInfo_AddErrors foldl].
    fold (MiddlewareInfo_AddErrors (MiddlewareInfo_AddError m e) errs).
    etrans; [|apply IH]. rewrite MiddlewareInfo_AddError_spec.
    case_decide; [done|]. simpl. by apply prefix_app_r.
  - revert m. induction errs as [|e errs IH]; intros m; [done|].
    cbn [MiddlewareInfo_AddErrors foldl].
    fold (MiddlewareInfo_AddErrors (MiddlewareInfo_AddError m e) errs).
    rewrite IH, MiddlewareInfo_AddError_spec. by case_decide.
  - revert m. induction errs as [|e errs IH]; intros m; [done|].
    cbn [MiddlewareInfo_AddErrors foldl].
    fold (MiddlewareInfo_AddErrors (MiddlewareInfo_AddError m e) errs).
    rewrite IH, MiddlewareInfo_AddError_spec. by case_decide.
  - rewrite (MiddlewareInfo_AddError_spec (MiddlewareInfo_AddError m err)).
    rewrite decide_True; [done|]. rewrite MiddlewareInfo_AddError_spec.
    case_decide; [done|]. simpl. set_solver.
Qed.

End Middleware.

End ErrFacts.

(** ** The partitions by entry point *)

Module EntryPointFacts.
Import Dynamic DynamicMore Partition PartitionShape GoStringFacts
  GetRoutersByEntryPointsFacts.

Section TCP.
Context {Domain Middleware TCPRouter TCPService : Type}.
Context (TCPRouter_EntryPoints : TCPRouter -> list string).
Implicit Types (rt : TCPRouterInfo TCPRouter) (acc : tcpPartition TCPRouter).

Lemma placeTCPRouter_at entryPoints rtName rt acc ep0 ep name :
  tcp_at_entryPoint (placeTCPRouter entryPoints rtName rt acc ep0).1 ep name
  = if bool_decide (ep = ep0 /\ name = rtName /\ ep0 ∈ entryPoints)
    then Some rt else tcp_at_entryPoint acc.1 ep name.
Proof.
  destruct acc as [p log]. unfold placeTCPRouter, tcp_at_entryPoint.
  rewrite contains_elem_of.
  destruct (bool_decide_reflect (ep0 ∈ entryPoints)) as [Hin|Hin]; simpl.
  2: { rewrite bool_decide_eq_false_2; [done|]. tauto. }
  destruct (decide (ep = ep0)) as [->|Hep].
  - rewrite lookup_alter_eq.
    destruct (p !! ep0) as [m|] eqn:Em; simpl.
    + rewrite Em. simpl. destruct (decide (name = rtName)) as [->|Hn].
      * rewrite lookup_insert_eq. by rewrite bool_decide_eq_true_2.
      * rewrite lookup_insert_ne by done.
        rewrite bool_decide_eq_false_2; [done|]. tauto.
    + rewrite lookup_insert_eq. simpl.
      destruct (decide (name = rtName)) as [->|Hn].
      * rewrite lookup_insert_eq. by rewrite bool_decide_eq_true_2.
      * rewrite lookup_insert_ne, lookup_empty by done.
        rewrite bool_decide_eq_false_2; [done|]. tauto.
  - rewrite bool_decide_eq_false_2 by tauto.
    rewrite lookup_alter_ne by done.
    destruct (p !! ep0) as [m|] eqn:Em; [done|].
    by rewrite lookup_insert_ne.
Qed.

Lemma placeTCPRouter_log entryPoints rtName rt acc ep0 :
  (placeTCPRouter entryPoints rtName rt acc ep0).2
  = acc.2 ++ (if bool_decide (ep0 ∈ entryPoints) then [] else [ep0]).
Proof.
  destruct acc as [p log]. unfold placeTCPRouter. rewrite contains_elem_of.
  destruct (bool_decide (ep0 ∈ entryPoints)); simpl; [|done].
  by rewrite app_nil_r.
Qed.

Lemma foldl_placeTCPRouter_at entryPoints rtName rt eps : forall acc ep name,
  tcp_at_entryPoint (foldl (placeTCPRouter entryPoints rtName rt) acc eps).1
    ep name
  = if bool_decide (name = rtName /\ ep ∈ eps /\ ep ∈ entryPoints)
    then Some rt else tcp_at_entryPoint acc.1 ep name.
Proof.
  induction eps as [|ep0 eps IH]; intros acc ep name; simpl.
  - rewrite bool_decide_eq_false_2; [done|]. set_solver.
  - rewrite IH, placeTCPRouter_at.
    repeat case_bool_decide; try done; exfalso; set_solver.
Qed.

Lemma foldl_placeTCPRouter_log entryPoints rtName rt eps : forall acc,
  (foldl (placeTCPRouter entryPoints rtName rt) acc eps).2
  = acc.2 ++ filter (fun ep => ep ∉ entryPoints) eps.
Proof.
  induction eps as [|ep0 eps IH]; intros acc; simpl.
  - by rewrite app_nil_r.
  - rewrite IH, placeTCPRouter_log, <- app_assoc. f_equal.
    destruct (bool_decide_reflect (ep0 ∈ entryPoints)).
    + by rewrite filter_cons_False by tauto.
    + by rewrite filter_cons_True by done.
Qed.

Lemma placeTCPRouters_at entryPoints acc rtName rt ep name :
  tcp_at_entryPoint
    (placeTCPRouters TCPRouter_EntryPoints entryPoints acc (rtName, rt)).1 ep name
  = if bool_decide (name = rtName)
       && tcp_belongs TCPRouter_EntryPoints entryPoints rt ep
    then Some rt else tcp_at_entryPoint acc.1 ep name.
Proof.
  unfold placeTCPRouters, tcp_belongs. rewrite foldl_placeTCPRouter_at.
  destruct (TCPRouter_EntryPoints (tcpRouter rt)) as [|e es]; simpl;
    repeat case_bool_decide; simpl; try done; exfalso; set_solver.
Qed.

Lemma placeTCPRouters_log entryPoints acc rtName rt :
  (placeTCPRouters TCPRouter_EntryPoints entryPoints acc (rtName, rt)).2
  = acc.2 ++ filter (fun ep => ep ∉ entryPoints)
               (TCPRouter_EntryPoints (tcpRouter rt)).
Proof.
  assert (Hall : filter (fun ep => ep ∉ entryPoints) entryPoints = []).
  { apply filter_none. tauto. }
  unfold placeTCPRouters. rewrite foldl_placeTCPRouter_log.
  destruct (TCPRouter_EntryPoints (tcpRouter rt)) as [|e es]; simpl; [|done].
  by rewrite Hall.
Qed.

Lemma foldl_placeTCPRouters_at entryPoints
  (L : list (string * TCPRouterInfo TCPRouter)) : forall acc ep name,
  NoDup L.*1 ->
  tcp_at_entryPoint
    (foldl (placeTCPRouters TCPRouter_EntryPoints entryPoints) acc L).1 ep name
  = match (list_to_map L : gmap string (TCPRouterInfo TCPRouter)) !! name with
    | Some rt =>
        if tcp_belongs TCPRouter_EntryPoints entryPoints rt ep then Some rt
        else tcp_at_entryPoint acc.1 ep name
    | None => tcp_at_entryPoint acc.1 ep name
    end.
Proof.
  induction L as [|[rtName rt] L IH]; intros acc ep name Hnd; [done|].
  rewrite fmap_cons in Hnd. apply NoDup_cons in Hnd as [Hfresh Hnd].
  cbn [foldl list_to_map foldr uncurry Datatypes.uncurry].
  rewrite IH by done. rewrite placeTCPRouters_at.
  destruct (decide (name = rtName)) as [->|Hne].
  - rewrite lookup_insert_eq, (not_elem_of_list_to_map_1 _ rtName) by done.
    by rewrite bool_decide_eq_true_2.
  - rewrite lookup_insert_ne by done.
    by rewrite bool_decide_eq_false_2.
Qed.

Lemma foldl_placeTCPRouters_log entryPoints
  (L : list (string * TCPRouterInfo TCPRouter)) : forall acc,
  (foldl (placeTCPRouters TCPRouter_EntryPoints entryPoints) acc L).2
  = acc.2 ++ (L ≫= fun '(_, rt) =>
                filter (fun ep => ep ∉ entryPoints)
                  (TCPRouter_EntryPoints (tcpRouter rt))).
Proof.
  induction L as [|[rtName rt] L IH]; intros acc.
  - simpl. by rewrite app_nil_r.
  - cbn [foldl mbind list_bind].
    by rewrite IH, placeTCPRouters_log, <- app_assoc.
Qed.

(** X6. In the partition [GetTCPRoutersByEntryPoints] returns, the TCP
    router [rtName] is found under the entry point [ep] exactly when it is
    a TCP router of the store, [ep] is one of the supplied entry points, and
    the router lists [ep] or lists no entry point at all; there is no
    filter on TLS. The names reported as unknown are the entry points named
    by the routers that are not supplied. *)
Theorem GetTCPRoutersByEntryPoints_partition
  (r : RuntimeConfiguration Domain Middleware TCPRouter TCPService)
  (entryPoints : list string) (ep rtName : string) :
  tcp_at_entryPoint
    (GetTCPRoutersByEntryPoints TCPRouter_EntryPoints r entryPoints).1 ep rtName
  = match go_lookup (TCPRouters r) rtName with
    | Some rt =>
        if tcp_belongs TCPRouter_EntryPoints entryPoints rt ep then Some rt
        else None
    | None => None
    end
  /\ (GetTCPRoutersByEntryPoints TCPRouter_EntryPoints r entryPoints).2
     = go_range (TCPRouters r) ≫= fun '(_, rt) =>
         filter (fun ep => ep ∉ entryPoints)
           (TCPRouter_EntryPoints (tcpRouter rt)).
Proof.
  unfold GetTCPRoutersByEntryPoints. split.
  - destruct (TCPRouters r) as [m|]; simpl; [|done].
    rewrite foldl_placeTCPRouters_at by apply NoDup_fst_map_to_list.
    rewrite list_to_map_to_list. unfold tcp_at_entryPoint. simpl.
    rewrite lookup_empty. simpl. by repeat case_match.
  - by rewrite foldl_placeTCPRouters_log.
Qed.

End TCP.

Section HTTP.
Context {Domain Middleware TCPRouter TCPService : Type}.
Implicit Types (rt : RouterInfo Domain) (acc : partition Domain).
Implicit Types (p : gmap string (gmap string (RouterInfo Domain))).

Lemma placeRouter_populated entryPoints rtName rt acc ep0 :
  populated entryPoints acc.1 ->
  populated entryPoints (placeRouter entryPoints rtName rt acc ep0).1.
Proof.
  destruct acc as [p log]. unfold placeRouter. rewrite contains_elem_of.
  destruct (bool_decide_reflect (ep0 ∈ entryPoints)) as [Hin|Hin]; simpl;
    [|done].
  intros Hp ep m. destruct (decide (ep = ep0)) as [->|Hne].
  - rewrite lookup_alter_eq. intros Hm. split; [done|].
    destruct (p !! ep0) as [m0|] eqn:E.
    + rewrite E in Hm. injection Hm as <-. apply insert_non_empty.
    + rewrite lookup_insert_eq in Hm. injection Hm as <-.
      apply insert_non_empty.
  - rewrite lookup_alter_ne by done.
    destruct (p !! ep0) as [m0|] eqn:E; [apply Hp|].
    rewrite lookup_insert_ne by done. apply Hp.
Qed.

Lemma foldl_placeRouter_populated entryPoints rtName rt eps : forall acc,
  populated entryPoints acc.1 ->
  populated entryPoints (foldl (placeRouter entryPoints rtName rt) acc eps).1.
Proof.
  induction eps as [|ep0 eps IH]; intros acc Hp; [done|].
  simpl. by apply IH, placeRouter_populated.
Qed.

Lemma foldl_placeRouters_populated entryPoints tls
  (L : list (string * RouterInfo Domain)) : forall acc,
  populated entryPoints acc.1 ->
  populated entryPoints (foldl (placeRouters entryPoints tls) acc L).1.
Proof.
  induction L as [|[rtName rt] L IH]; intros acc Hp; [done|].
  cbn [foldl]. apply IH. unfold placeRouters.
  destruct (_ || _); [done|]. by apply foldl_placeRouter_populated.
Qed.

Lemma GetRoutersByEntryPoints_at
  (r : RuntimeConfiguration Domain Middleware TCPRouter TCPService)
  entryPoints tls ep rtName :
  at_entryPoint (GetRoutersByEntryPoints r entryPoints tls).1 ep rtName
  = match go_lookup (Routers r) rtName with
    | Some rt => if belongs entryPoints tls rt ep then Some rt else None
    | None => None
    end.
Proof.
  unfold GetRoutersByEntryPoints.
  destruct (Routers r) as [m|]; simpl; [|done].
  rewrite foldl_placeRouters_at by apply NoDup_fst_map_to_list.
  rewrite list_to_map_to_list. unfold at_entryPoint. simpl.
  rewrite lookup_empty. simpl. by repeat case_match.
Qed.

(** X7. The shape of what [GetRoutersByEntryPoints] returns: every
    partition is that of a supplied entry point and is not empty, and each
    router in it is the router of that name in the store; a router found
    under an entry point for [tls = false] is not found under it for
    [tls = true]; without supplied entry points the result is empty. *)
Theorem GetRoutersByEntryPoints_partitions_shape
  (r : RuntimeConfiguration Domain Middleware TCPRouter TCPService)
  (entryPoints : list string) (tls : bool) (ep : string) :
  (forall m, (GetRoutersByEntryPoints r entryPoints tls).1 !! ep = Some m ->
     ep ∈ entryPoints /\ m ≠ ∅
     /\ forall name rt, m !! name = Some rt ->
          go_lookup (Routers r) name = Some rt)
  /\ (forall name,
        is_Some (at_entryPoint
                   (GetRoutersByEntryPoints r entryPoints false).1 ep name) ->
        at_entryPoint (GetRoutersByEntryPoints r entryPoints true).1 ep name
        = None)
  /\ (GetRoutersByEntryPoints r [] tls).1 = ∅.
Proof.
  assert (Hpop : forall eps,
            populated eps (GetRoutersByEntryPoints r eps tls).1).
  { intros eps. unfold GetRoutersByEntryPoints.
    apply foldl_placeRouters_populated. intros ep' m. simpl.
    by rewrite lookup_empty. }
  split; [|split].
  - intros m Hm. destruct (Hpop entryPoints ep m Hm) as [Hin Hne].
    split; [done|]. split; [done|]. intros name rt Hname.
    pose proof (GetRoutersByEntryPoints_at r entryPoints tls ep name) as Hat.
    unfold at_entryPoint in Hat at 1. rewrite Hm in Hat. simpl in Hat.
    rewrite Hname in Hat. destruct (go_lookup (Routers r) name); [|done].
    destruct (belongs _ _ _ _); congruence.
  - intros name. rewrite !GetRoutersByEntryPoints_at.
    destruct (go_lookup (Routers r) name) as [rt|]; [|done].
    unfold belongs, tls_matches.
    destruct (TLS (router rt)); simpl; [by intros [? ?]|done].
  - apply map_empty. intros ep'.
    destruct (_ !! ep') as [m|] eqn:E; [|done].
    destruct (Hpop [] ep' m E) as [Hin _]. by apply elem_of_nil in Hin.
Qed.

End HTTP.

End EntryPointFacts.

(** ** More on PopulateUsedBy *)

Module PopulateMoreFacts.
Import Dynamic Links SecondPass PassLog GoStringFacts PopulateUsedByFacts.

Section Facts.
Context {Domain Middleware TCPRouter TCPService : Type}.
Context (TCPRouter_Service : TCPRouter -> string).

Local Abbreviation Store := (RuntimeConfiguration Domain Middleware TCPRouter TCPService).
Local Abbreviation State := (passState Domain Middleware TCPRouter TCPService).

Implicit Types (r : Store) (st : State) (k routerName : string).

(** *** Nil maps stay nil *)

Lemma same_nil_refl {A} (m : option A) : same_nil m m.
Proof. done. Qed.

Lemma same_nil_trans {A B C} (m1 : option A) (m2 : option B) (m3 : option C) :
  same_nil m1 m2 -> same_nil m2 m3 -> same_nil m1 m3.
Proof. unfold same_nil. tauto. Qed.

Lemma same_nil_update {V} (f : V -> V) k (m : option (gmap string V)) :
  same_nil (go_update f k m) m.
Proof. by destruct m. Qed.

Lemma same_nil_each {V} (f : V -> V) (m : option (gmap string V)) :
  same_nil (go_each f m) m.
Proof. by destruct m. Qed.

Lemma linkMiddleware_nil routerName providerName r midName :
  same_nil (rt_Middlewares (linkMiddleware routerName providerName r midName))
    (rt_Middlewares r).
Proof.
  unfold linkMiddleware. case_match; [apply same_nil_update|done].
Qed.

Lemma foldl_linkMiddleware_nil routerName providerName mids : forall r,
  same_nil
    (rt_Middlewares (foldl (linkMiddleware routerName providerName) r mids))
    (rt_Middlewares r).
Proof.
  induction mids as [|mid mids IH]; intros r; [done|].
  cbn [foldl]. eapply same_nil_trans; [apply IH|apply linkMiddleware_nil].
Qed.

Lemma linkRouter_nil st routerName (ri : RouterInfo Domain) :
  same_nil (Routers (linkRouter st (routerName, ri)).1) (Routers st.1)
  /\ same_nil (rt_Middlewares (linkRouter st (routerName, ri)).1)
       (rt_Middlewares st.1)
  /\ same_nil (Services (linkRouter st (routerName, ri)).1) (Services st.1).
Proof.
  destruct st as [r log]. unfold linkRouter.
  destruct (String.eqb _ ""); simpl; [by split; [apply same_nil_update|]|].
  match goal with
  | |- context [foldl ?f ?r0 ?l] =>
      destruct (foldl_linkMiddleware_frame routerName
                  (getProviderName routerName) l r0) as (HR & HS & HT & HTS);
      pose proof (foldl_linkMiddleware_nil routerName
                    (getProviderName routerName) l r0) as HM
  end.
  case_match; simpl; rewrite ?HR, ?HS; simpl;
    (split; [apply same_nil_update|]; split; [done|]);
    [apply same_nil_update|done].
Qed.

Lemma foldl_linkRouter_nil (L : list (string * RouterInfo Domain)) : forall st,
  same_nil (Routers (foldl linkRouter st L).1) (Routers st.1)
  /\ same_nil (rt_Middlewares (foldl linkRouter st L).1) (rt_Middlewares st.1)
  /\ same_nil (Services (foldl linkRouter st L).1) (Services st.1).
Proof.
  induction L as [|[routerName ri] L IH]; intros st; [done|].
  cbn [foldl].
  destruct (IH (linkRouter st (routerName, ri))) as (H1 & H2 & H3).
  destruct (linkRouter_nil st routerName ri) as (H1' & H2' & H3').
  split; [|split]; eapply same_nil_trans; eauto.
Qed.

Lemma linkTCPRouter_nil st routerName (ri : TCPRouterInfo TCPRouter) :
  same_nil (TCPServices (linkTCPRouter TCPRouter_Service st (routerName, ri)).1)
    (TCPServices st.1).
Proof.
  destruct st as [r log]. unfold linkTCPRouter.
  destruct (String.eqb _ ""); simpl; [done|].
  case_match; simpl; [apply same_nil_update|done].
Qed.

Lemma foldl_linkTCPRouter_nil (L : list (string * TCPRouterInfo TCPRouter)) :
  forall st,
  same_nil (TCPServices (foldl (linkTCPRouter TCPRouter_Service) st L).1)
    (TCPServices st.1).
Proof.
  induction L as [|[routerName ri] L IH]; intros st; [done|].
  cbn [foldl]. eapply same_nil_trans; [apply IH|apply linkTCPRouter_nil].
Qed.

Lemma populateUsedBy_nil r :
  let r' := (populateUsedBy TCPRouter_Service r).1 in
  same_nil (Routers r') (Routers r)
  /\ same_nil (rt_Middlewares r') (rt_Middlewares r)
  /\ same_nil (Services r') (Services r)
  /\ same_nil (TCPServices r') (TCPServices r).
Proof.
  unfold populateUsedBy.
  pose proof (foldl_linkRouter_frame (go_range (Routers r)) (r, [])) as [HT HTS].
  pose proof (foldl_linkRouter_nil (go_range (Routers r)) (r, []))
    as (HR & HM & HS).
  destruct (foldl linkRouter (r, []) (go_range (Routers r))) as [r1 log1].
  simpl in HT, HTS, HR, HM, HS.
  match goal with
  | |- context [foldl (linkTCPRouter ?f) ?st ?L] =>
      pose proof (foldl_linkTCPRouter_frame TCPRouter_Service L st)
        as (HR' & HM' & HS' & HT');
      pose proof (foldl_linkTCPRouter_nil L st) as HTS';
      destruct (foldl (linkTCPRouter f) st L) as [r4 log4]
  end.
  simpl in HR', HM', HS', HT', HTS'. simpl.
  rewrite HR', HM', HS'. split; [|split; [|split]].
  - done.
  - eapply same_nil_trans; [apply same_nil_each|done].
  - eapply same_nil_trans; [apply same_nil_each|done].
  - eapply same_nil_trans; [apply same_nil_each|].
    eapply same_nil_trans; [exact HTS'|]. by rewrite HTS.
Qed.


(** *** The names a pass links *)

Lemma go_range_lookup {V} (m : option (gmap string V)) k v :
  (k, v) ∈ go_range m <-> go_lookup m k = Some v.
Proof.
  destruct m as [m|]; simpl; [apply elem_of_map_to_list|].
  split; [by intros ?%elem_of_nil|done].
Qed.

Lemma go_range_NoDup {V} (m : option (gmap string V)) : NoDup (go_range m).*1.
Proof.
  destruct m as [m|]; simpl; [apply NoDup_fst_map_to_list|constructor].
Qed.

Lemma elem_of_links {X} (f : string * X -> list string)
  (m : option (gmap string X)) x :
  (forall entry y, y ∈ f entry -> y = entry.1) ->
  x ∈ (go_range m ≫= f) <-> exists v, go_lookup m x = Some v /\ x ∈ f (x, v).
Proof.
  intros Hf. rewrite list_elem_of_bind. split.
  - intros ([k v] & Hx & Hin). pose proof (Hf _ _ Hx) as ->. simpl in *.
    exists v. split; [by apply go_range_lookup|done].
  - intros (v & Hv & Hx). exists (x, v). split; [done|].
    by apply go_range_lookup.
Qed.

Lemma NoDup_links {X} (f : string * X -> list string)
  (L : list (string * X)) :
  (forall entry y, y ∈ f entry -> y = entry.1) ->
  (forall entry, NoDup (f entry)) ->
  NoDup L.*1 -> NoDup (L ≫= f).
Proof.
  intros Hf Hnd. induction L as [|[k v] L IH]; intros HL; [constructor|].
  rewrite fmap_cons in HL. apply NoDup_cons in HL as [Hk HL].
  cbn [mbind list_bind]. change (NoDup (f (k, v) ++ (L ≫= f))).
  apply NoDup_app. split; [apply Hnd|]. split; [|by apply IH].
  intros x Hx Hx'. pose proof (Hf _ _ Hx) as ->. simpl in Hk.
  apply list_elem_of_bind in Hx' as ([k' v'] & Hy & Hin).
  pose proof (Hf _ _ Hy) as Hkk. simpl in Hkk. subst k'.
  apply Hk. apply list_elem_of_fmap. by exists (k, v').
Qed.

Lemma elem_of_references_to_iff x routerName references target :
  x ∈ references_to routerName references target
  <-> x = routerName
      /\ exists reference,
           reference ∈ references /\ resolve routerName reference = target.
Proof.
  unfold references_to. rewrite list_elem_of_bind. split.
  - intros (reference & Hx & Hin). case_decide; [|by apply elem_of_nil in Hx].
    apply list_elem_of_singleton in Hx. eauto.
  - intros (-> & reference & Hin & Hres). exists reference.
    rewrite decide_True by done. split; [by apply list_elem_of_singleton|done].
Qed.

Lemma references_to_one_NoDup routerName reference target :
  NoDup (references_to routerName [reference] target).
Proof.
  unfold references_to. cbn [mbind list_bind].
  case_decide; simpl; repeat constructor. by intros ?%elem_of_nil.
Qed.

Lemma service_links_NoDup k (entry : string * RouterInfo Domain) :
  NoDup (service_links k entry).
Proof.
  unfold service_links. case_match; [apply references_to_one_NoDup|constructor].
Qed.

Lemma tcpService_links_NoDup k (entry : string * TCPRouterInfo TCPRouter) :
  NoDup (tcpService_links TCPRouter_Service k entry).
Proof.
  unfold tcpService_links.
  case_match; [apply references_to_one_NoDup|constructor].
Qed.

Lemma elem_of_tcpService_links x k (entry : string * TCPRouterInfo TCPRouter) :
  x ∈ tcpService_links TCPRouter_Service k entry -> x = entry.1.
Proof.
  unfold tcpService_links. case_match; [apply elem_of_references_to|set_solver].
Qed.

Lemma service_links_spec (m : option (gmap string (RouterInfo Domain))) k x :
  x ∈ (go_range m ≫= service_links k)
  <-> exists ri, go_lookup m x = Some ri /\ qualified x = true
                 /\ resolve x (Service (router ri)) = k.
Proof.
  rewrite elem_of_links by (intros ??; apply elem_of_service_links).
  split; intros (ri & Hri & H); exists ri; (split; [done|]).
  - unfold service_links in H. cbn [fst snd] in H.
    destruct (qualified x); [|by apply elem_of_nil in H].
    apply elem_of_references_to_iff in H as (_ & reference & Hin & Hres).
    apply list_elem_of_singleton in Hin. by subst.
  - destruct H as [Hq Hres]. unfold service_links. cbn [fst snd]. rewrite Hq.
    apply elem_of_references_to_iff. split; [done|].
    eexists. split; [by apply list_elem_of_singleton|done].
Qed.

Lemma middleware_links_spec (m : option (gmap string (RouterInfo Domain))) k x :
  x ∈ (go_range m ≫= middleware_links k)
  <-> exists ri, go_lookup m x = Some ri /\ qualified x = true
                 /\ exists reference,
                      reference ∈ Middlewares (router ri)
                      /\ resolve x reference = k.
Proof.
  rewrite elem_of_links by (intros ??; apply elem_of_middleware_links).
  split; intros (ri & Hri & H); exists ri; (split; [done|]).
  - unfold middleware_links in H. cbn [fst snd] in H.
    destruct (qualified x); [|by apply elem_of_nil in H].
    by apply elem_of_references_to_iff in H as (_ & H).
  - destruct H as [Hq Hres]. unfold middleware_links. cbn [fst snd]. rewrite Hq.
    by apply elem_of_references_to_iff.
Qed.

Lemma tcpService_links_spec (m : option (gmap string (TCPRouterInfo TCPRouter)))
  k x :
  x ∈ (go_range m ≫= tcpService_links TCPRouter_Service k)
  <-> exists ri, go_lookup m x = Some ri /\ qualified x = true
                 /\ resolve x (TCPRouter_Service (tcpRouter ri)) = k.
Proof.
  rewrite elem_of_links by (intros ??; apply elem_of_tcpService_links).
  split; intros (ri & Hri & H); exists ri; (split; [done|]).
  - unfold tcpService_links in H. cbn [fst snd] in H.
    destruct (qualified x); [|by apply elem_of_nil in H].
    apply elem_of_references_to_iff in H as (_ & reference & Hin & Hres).
    apply list_elem_of_singleton in Hin. by subst.
  - destruct H as [Hq Hres]. unfold tcpService_links. cbn [fst snd]. rewrite Hq.
    apply elem_of_references_to_iff. split; [done|].
    eexists. split; [by apply list_elem_of_singleton|done].
Qed.

(** *** What a pass reports *)

Lemma report_spec {X} (entry_log : string -> logEntry)
  (m : option (gmap string X)) e :
  e ∈ (go_range m ≫= fun entry : string * X =>
         if qualified entry.1 then [] else [entry_log entry.1])
  <-> exists routerName, e = entry_log routerName
        /\ is_Some (go_lookup m routerName) /\ qualified routerName = false.
Proof.
  rewrite list_elem_of_bind. split.
  - intros ([k v] & He & Hin). simpl in He.
    destruct (qualified k) eqn:Hq; [by apply elem_of_nil in He|].
    apply list_elem_of_singleton in He. exists k. split; [done|].
    split; [|done]. exists v. by apply go_range_lookup.
  - intros (routerName & -> & [v Hv] & Hq). exists (routerName, v).
    simpl. rewrite Hq. split; [by apply list_elem_of_singleton|].
    by apply go_range_lookup.
Qed.

Lemma report_NoDup {X} (entry_log : string -> logEntry)
  (L : list (string * X)) :
  (forall a b, entry_log a = entry_log b -> a = b) ->
  NoDup L.*1 ->
  NoDup (L ≫= fun entry : string * X =>
           if qualified entry.1 then [] else [entry_log entry.1]).
Proof.
  intros Hinj. induction L as [|[k v] L IH]; intros HL; [constructor|].
  rewrite fmap_cons in HL. apply NoDup_cons in HL as [Hk HL].
  cbn [mbind list_bind]. simpl.
  destruct (qualified k); simpl; [by apply IH|].
  apply NoDup_cons. split; [|by apply IH].
  intros ([k' v'] & He & Hin)%list_elem_of_bind. simpl in He.
  destruct (qualified k'); [by apply elem_of_nil in He|].
  apply list_elem_of_singleton, Hinj in He. subst k'.
  apply Hk. apply list_elem_of_fmap. by exists (k, v').
Qed.

(** X8. [PopulateUsedBy] reports a router exactly when its name carries no
    provider ([getProviderName] gives the empty string), and reports it
    once: the entries of the report are pairwise distinct, a router of
    [r.Routers] is reported iff its name is not qualified, and likewise a
    TCP router of [r.TCPRouters]. A reported router links nothing: its
    name joins no [UsedBy] list of a service, a middleware or a TCP
    service, whatever it references; an HTTP router still gets its lazy
    [Status]. *)
Theorem PopulateUsedBy_reports_unqualified r :
  let r' := (PopulateUsedBy TCPRouter_Service (Some r)).1 in
  let log := (PopulateUsedBy TCPRouter_Service (Some r)).2 in
  NoDup log
  /\ (forall routerName,
        LogRouterNotQualified routerName ∈ log
        <-> is_Some (go_lookup (Routers r) routerName)
            /\ getProviderName routerName = "")
  /\ (forall routerName,
        LogTCPRouterNotQualified routerName ∈ log
        <-> is_Some (go_lookup (TCPRouters r) routerName)
            /\ getProviderName routerName = "")
  /\ (forall routerName k,
        getProviderName routerName = "" ->
        exists links mlinks tlinks,
          (r' ≫= fun r' => go_lookup (Services r') k)
          = linked_service links <$> go_lookup (Services r) k
          /\ (r' ≫= fun r' => go_lookup (rt_Middlewares r') k)
             = linked_middleware mlinks <$> go_lookup (rt_Middlewares r) k
          /\ (r' ≫= fun r' => go_lookup (TCPServices r') k)
             = linked_tcpService tlinks <$> go_lookup (TCPServices r) k
          /\ (routerName ∉ links) /\ (routerName ∉ mlinks)
          /\ (routerName ∉ tlinks))
  /\ (forall routerName ri,
        go_lookup (Routers r) routerName = Some ri ->
        (r' ≫= fun r' => go_lookup (Routers r') routerName)
        = Some (router_set_Status (lazyStatus (Status ri)) ri)).
Proof.
  assert (Hq : forall routerName,
             qualified routerName = false <-> getProviderName routerName = "").
  { intros routerName. unfold qualified.
    destruct (String.eqb_spec (getProviderName routerName) ""); simpl;
      split; congruence. }
  unfold PopulateUsedBy.
  pose proof (populateUsedBy_log TCPRouter_Service r) as Hlog.
  pose proof (populateUsedBy_lookup TCPRouter_Service r) as Hlook.
  destruct (populateUsedBy TCPRouter_Service r) as [r' log] eqn:E.
  simpl in Hlog, Hlook. simpl. subst log.
  split; [|split; [|split; [|split]]].
  - apply NoDup_app. split; [|split].
    + apply report_NoDup; [congruence|apply go_range_NoDup].
    + intros e (a & -> & _)%report_spec (b & Hb & _)%report_spec. done.
    + apply report_NoDup; [congruence|apply go_range_NoDup].
  - intros routerName. rewrite elem_of_app, !report_spec, <- Hq. split.
    + intros [(a & [= <-] & H)|(a & [=] & _)]. done.
    + intros H. left. by exists routerName.
  - intros routerName. rewrite elem_of_app, !report_spec, <- Hq. split.
    + intros [(a & [=] & _)|(a & [= <-] & H)]. done.
    + intros H. right. by exists routerName.
  - intros routerName k Hp%Hq.
    destruct (Hlook k) as (_ & HM & HS & _ & HTS).
    eexists _, _, _. split; [exact HS|]. split; [exact HM|].
    split; [exact HTS|].
    rewrite service_links_spec, middleware_links_spec, tcpService_links_spec.
    split; [|split]; intros (? & _ & Hq' & _); congruence.
  - intros routerName ri Hri. destruct (Hlook routerName) as (HR & _).
    by rewrite HR, Hri.
Qed.

(** X9. The names [PopulateUsedBy] appends to the [UsedBy] list of a
    service are exactly the names of the routers of [r.Routers] that carry
    a provider and whose [Service], qualified with that provider unless it
    is qualified already, is the name of the service; no name is appended
    twice. The names appended to the [UsedBy] list of a middleware are
    exactly the names of the routers that carry a provider and have a
    middleware reference resolving to its name. *)
Theorem PopulateUsedBy_links_exactly_referrers r k :
  let r' := (populateUsedBy TCPRouter_Service r).1 in
  exists links mlinks,
    go_lookup (Services r') k = linked_service links <$> go_lookup (Services r) k
    /\ go_lookup (rt_Middlewares r') k
       = linked_middleware mlinks <$> go_lookup (rt_Middlewares r) k
    /\ NoDup links
    /\ (forall routerName,
          routerName ∈ links
          <-> exists ri,
                go_lookup (Routers r) routerName = Some ri
                /\ getProviderName routerName <> ""
                /\ getQualifiedName (getProviderName routerName)
                     (Service (router ri)) = k)
    /\ (forall routerName,
          routerName ∈ mlinks
          <-> exists ri,
                go_lookup (Routers r) routerName = Some ri
                /\ getProviderName routerName <> ""
                /\ exists reference,
                     reference ∈ Middlewares (router ri)
                     /\ getQualifiedName (getProviderName routerName) reference
                        = k).
Proof.
  assert (Hq : forall routerName,
             qualified routerName = true <-> getProviderName routerName <> "").
  { intros routerName. unfold qualified.
    destruct (String.eqb_spec (getProviderName routerName) ""); simpl;
      split; congruence. }
  destruct (populateUsedBy_lookup TCPRouter_Service r k) as (_ & HM & HS & _).
  simpl. eexists _, _. split; [exact HS|]. split; [exact HM|].
  split; [|split].
  - apply NoDup_links;
      [intros ??; apply elem_of_service_links|apply service_links_NoDup
      |apply go_range_NoDup].
  - intros routerName. rewrite service_links_spec.
    by setoid_rewrite Hq.
  - intros routerName. rewrite middleware_links_spec.
    by setoid_rewrite Hq.
Qed.

(** X10. [PopulateUsedBy] links TCP routers to TCP services as it links
    HTTP routers to services: the names appended to the [UsedBy] list of
    the TCP service named [k] are exactly the names of the TCP routers of
    [r.TCPRouters] that carry a provider and whose [Service], qualified
    with that provider unless it is qualified already, is [k]; no name is
    appended twice; the definition and the
    errors of the TCP service, and the whole of [r.TCPRouters], are left
    as they were. *)
Theorem PopulateUsedBy_links_TCP_referrers r k :
  let r' := (populateUsedBy TCPRouter_Service r).1 in
  exists links,
    go_lookup (TCPServices r') k
    = (fun s => {| tcpService := tcpService s; tcps_Err := tcps_Err s;
                   tcps_UsedBy := GoString.sort_strings (tcps_UsedBy s ++ links) |})
      <$> go_lookup (TCPServices r) k
    /\ NoDup links
    /\ (forall routerName,
          routerName ∈ links
          <-> exists ri,
                go_lookup (TCPRouters r) routerName = Some ri
                /\ getProviderName routerName <> ""
                /\ getQualifiedName (getProviderName routerName)
                     (TCPRouter_Service (tcpRouter ri)) = k)
    /\ TCPRouters r' = TCPRouters r.
Proof.
  assert (Hq : forall routerName,
             qualified routerName = true <-> getProviderName routerName <> "").
  { intros routerName. unfold qualified.
    destruct (String.eqb_spec (getProviderName routerName) ""); simpl;
      split; congruence. }
  destruct (populateUsedBy_lookup TCPRouter_Service r k) as (_ & _ & _ & HT & HTS).
  simpl. eexists. split; [exact HTS|]. split; [|split].
  - apply NoDup_links;
      [intros ??; apply elem_of_tcpService_links|apply tcpService_links_NoDup
      |apply go_range_NoDup].
  - intros routerName. rewrite tcpService_links_spec.
    by setoid_rewrite Hq.
  - done.
Qed.


(** X11. [PopulateUsedBy] adds and removes no entity and writes nothing but
    [UsedBy] lists and statuses: each of the five maps of the store is nil
    afterwards iff it was nil before and has the same names; [r.TCPRouters]
    is untouched; the definition and the errors of every router,
    middleware, service and TCP service, and the server statuses of every
    service, are what they were; the [Status] of a router and of a service
    is kept unless it was empty, and is [enabled] then, so no router and
    no service has an empty [Status] after the pass. *)
Theorem PopulateUsedBy_keeps_entities r :
  let r' := (populateUsedBy TCPRouter_Service r).1 in
  ((Routers r' = None <-> Routers r = None)
   /\ (rt_Middlewares r' = None <-> rt_Middlewares r = None)
   /\ (Services r' = None <-> Services r = None)
   /\ (TCPServices r' = None <-> TCPServices r = None)
   /\ TCPRouters r' = TCPRouters r)
  /\ (forall k,
        router <$> go_lookup (Routers r') k = router <$> go_lookup (Routers r) k
        /\ Err <$> go_lookup (Routers r') k = Err <$> go_lookup (Routers r) k
        /\ Status <$> go_lookup (Routers r') k
           = (fun ri => if String.eqb (Status ri) "" then RuntimeStatusEnabled
                        else Status ri) <$> go_lookup (Routers r) k)
  /\ (forall k,
        middleware <$> go_lookup (rt_Middlewares r') k
        = middleware <$> go_lookup (rt_Middlewares r) k
        /\ mid_Err <$> go_lookup (rt_Middlewares r') k
           = mid_Err <$> go_lookup (rt_Middlewares r) k)
  /\ (forall k,
        svc <$> go_lookup (Services r') k = svc <$> go_lookup (Services r) k
        /\ svc_Err <$> go_lookup (Services r') k
           = svc_Err <$> go_lookup (Services r) k
        /\ serverStatus <$> go_lookup (Services r') k
           = serverStatus <$> go_lookup (Services r) k
        /\ svc_Status <$> go_lookup (Services r') k
           = (fun s => if String.eqb (svc_Status s) "" then RuntimeStatusEnabled
                       else svc_Status s) <$> go_lookup (Services r) k)
  /\ (forall k,
        tcpService <$> go_lookup (TCPServices r') k
        = tcpService <$> go_lookup (TCPServices r) k
        /\ tcps_Err <$> go_lookup (TCPServices r') k
           = tcps_Err <$> go_lookup (TCPServices r) k)
  /\ (forall k ri, go_lookup (Routers r') k = Some ri -> Status ri <> "")
  /\ (forall k s, go_lookup (Services r') k = Some s -> svc_Status s <> "").
Proof.
  assert (Hlazy : forall status, lazyStatus status <> "").
  { intros status. unfold lazyStatus.
    destruct (String.eqb_spec status ""); [done|congruence]. }
  pose proof (populateUsedBy_nil r) as (NR & NM & NS & NT).
  pose proof (populateUsedBy_lookup TCPRouter_Service r) as Hlook.
  simpl in *. split.
  { destruct (Hlook "") as (_ & _ & _ & HT & _). done. }
  split; [|split; [|split; [|split; [|split]]]].
  - intros k. destruct (Hlook k) as (-> & _).
    by destruct (go_lookup (Routers r) k).
  - intros k. destruct (Hlook k) as (_ & -> & _).
    by destruct (go_lookup (rt_Middlewares r) k).
  - intros k. destruct (Hlook k) as (_ & _ & -> & _).
    by destruct (go_lookup (Services r) k).
  - intros k. destruct (Hlook k) as (_ & _ & _ & _ & ->).
    by destruct (go_lookup (TCPServices r) k).
  - intros k ri. destruct (Hlook k) as (-> & _).
    destruct (go_lookup (Routers r) k); intros [= <-]. apply Hlazy.
  - intros k s. destruct (Hlook k) as (_ & _ & -> & _).
    destruct (go_lookup (Services r) k); intros [= <-]. apply Hlazy.
Qed.

(** *** A pass over a fresh store *)

Lemma NewRuntimeConfig_lookup
  (conf : Configuration Domain Middleware TCPRouter TCPService) k :
  let r := NewRuntimeConfig conf in
  go_lookup (Routers r) k
    = newRouterInfo <$> (HTTP conf ≫= fun h => http_Routers h !! k)
  /\ go_lookup (Services r) k
    = newServiceInfo <$> (HTTP conf ≫= fun h => http_Services h !! k)
  /\ go_lookup (rt_Middlewares r) k
    = newMiddlewareInfo <$> (HTTP conf ≫= fun h => http_Middlewares h !! k)
  /\ go_lookup (TCPRouters r) k
    = newTCPRouterInfo <$> (TCP conf ≫= fun t => tcp_Routers t !! k)
  /\ go_lookup (TCPServices r) k
    = newTCPServiceInfo <$> (TCP conf ≫= fun t => tcp_Services t !! k).
Proof.
  unfold NewRuntimeConfig.
  destruct (HTTP conf) as [h|], (TCP conf) as [t|]; simpl;
    rewrite ?NewRuntimeConfigFacts.wrap_entries_lookup; done.
Qed.

(** X12. A store built by [NewRuntimeConfig] and linked by
    [PopulateUsedBy]: every service of the configuration is in it with
    [Status] [enabled], no error, and a [UsedBy] list that is sorted, holds
    no name twice and holds exactly the names of the routers of the
    configuration that carry a provider and whose [Service], qualified
    with that provider unless it is qualified already, is the name of the
    service; every router of the configuration is in it as
    [NewRuntimeConfig] wrapped it; a TCP service has such a [UsedBy] list
    from the TCP routers. *)
Theorem NewRuntimeConfig_PopulateUsedBy_fresh
  (conf : Configuration Domain Middleware TCPRouter TCPService) k :
  let r' := (populateUsedBy TCPRouter_Service (NewRuntimeConfig conf)).1 in
  go_lookup (Routers r') k
  = (fun v => {| router := v; Err := []; Status := RuntimeStatusEnabled |})
    <$> (HTTP conf ≫= fun h => http_Routers h !! k)
  /\ (exists usedBy,
        go_lookup (Services r') k
        = (fun v => {| svc := v; svc_Err := []; svc_Status := RuntimeStatusEnabled;
                       svc_UsedBy := usedBy; serverStatus := None |})
          <$> (HTTP conf ≫= fun h => http_Services h !! k)
        /\ Sorted GoString.le usedBy /\ NoDup usedBy
        /\ (forall routerName,
              routerName ∈ usedBy
              <-> exists v,
                    (HTTP conf ≫= fun h => http_Routers h !! routerName) = Some v
                    /\ getProviderName routerName <> ""
                    /\ getQualifiedName (getProviderName routerName) (Service v)
                       = k))
  /\ (exists usedBy,
        go_lookup (TCPServices r') k
        = (fun v => {| tcpService := v; tcps_Err := None; tcps_UsedBy := usedBy |})
          <$> (TCP conf ≫= fun t => tcp_Services t !! k)
        /\ Sorted GoString.le usedBy /\ NoDup usedBy
        /\ (forall routerName,
              routerName ∈ usedBy
              <-> exists v,
                    (TCP conf ≫= fun t => tcp_Routers t !! routerName) = Some v
                    /\ getProviderName routerName <> ""
                    /\ getQualifiedName (getProviderName routerName)
                         (TCPRouter_Service v) = k)).
Proof.
  assert (Hq : forall routerName,
             qualified routerName = true <-> getProviderName routerName <> "").
  { intros routerName. unfold qualified.
    destruct (String.eqb_spec (getProviderName routerName) ""); simpl;
      split; congruence. }
  pose proof (NewRuntimeConfig_lookup conf) as Hnew.
  destruct (populateUsedBy_lookup TCPRouter_Service (NewRuntimeConfig conf) k)
    as (HR & _ & HS & _ & HTS).
  simpl in *. split; [|split].
  - rewrite HR. destruct (Hnew k) as (-> & _).
    by destruct (HTTP conf ≫= _).
  - exists (GoString.sort_strings
              (go_range (Routers (NewRuntimeConfig conf)) ≫= service_links k)).
    split; [|split; [apply sort_strings_Sorted|split]].
    + rewrite HS. destruct (Hnew k) as (_ & -> & _).
      by destruct (HTTP conf ≫= _).
    + rewrite sort_strings_Permutation.
      apply NoDup_links;
        [intros ??; apply elem_of_service_links|apply service_links_NoDup
        |apply go_range_NoDup].
    + intros routerName. rewrite sort_strings_Permutation, service_links_spec.
      destruct (Hnew routerName) as (-> & _). setoid_rewrite Hq. split.
      * intros (ri & Hri & Hp & Hk).
        destruct (HTTP conf ≫= _) as [v|]; [|done].
        injection Hri as <-. by exists v.
      * intros (v & -> & Hp & Hk). by eexists.
  - exists (GoString.sort_strings
              (go_range (TCPRouters (NewRuntimeConfig conf))
               ≫= tcpService_links TCPRouter_Service k)).
    split; [|split; [apply sort_strings_Sorted|split]].
    + rewrite HTS. destruct (Hnew k) as (_ & _ & _ & _ & ->).
      by destruct (TCP conf ≫= _).
    + rewrite sort_strings_Permutation.
      apply NoDup_links;
        [intros ??; apply elem_of_tcpService_links|apply tcpService_links_NoDup
        |apply go_range_NoDup].
    + intros routerName.
      rewrite sort_strings_Permutation, tcpService_links_spec.
      destruct (Hnew routerName) as (_ & _ & _ & -> & _).
      setoid_rewrite Hq. split.
      * intros (ri & Hri & Hp & Hk).
        destruct (TCP conf ≫= _) as [v|]; [|done].
        injection Hri as <-. by exists v.
      * intros (v & -> & Hp & Hk). by eexists.
Qed.

End Facts.
End PopulateMoreFacts.

(** ** Runs of UpdateServerStatus *)

Module StatusUpdateFacts.
Import Dynamic Caller Samples StatusUpdates ServerStatusFacts.

Lemma UpdateServerStatus_allocated s server status (h : mapHeap) :
  allocated s h ->
  allocated (UpdateServerStatus s server status h).1
            (UpdateServerStatus s server status h).2.
Proof.
  intros Hal l. unfold UpdateServerStatus, make_map.
  destruct (serverStatus s) as [l0|] eqn:El; simpl.
  - rewrite El. simpl. intros [= <-]. destruct (Hal l0 El) as [c Hc].
    rewrite lookup_alter_eq, Hc. by eexists.
  - intros [= <-]. rewrite lookup_alter_eq, lookup_insert_eq. by eexists.
Qed.

(** What one call leaves alone: the fields of the [ServiceInfo] other than
    the map, a map the [ServiceInfo] has already, and the other objects of
    the heap. *)
Lemma UpdateServerStatus_frame s server status (h : mapHeap) :
  let s' := (UpdateServerStatus s server status h).1 in
  let h' := (UpdateServerStatus s server status h).2 in
  svc s' = svc s /\ svc_Err s' = svc_Err s /\ svc_Status s' = svc_Status s
  /\ svc_UsedBy s' = svc_UsedBy s
  /\ is_Some (serverStatus s')
  /\ (forall l, serverStatus s = Some l -> serverStatus s' = Some l)
  /\ (forall l, is_Some (h !! l) -> serverStatus s <> Some l -> h' !! l = h !! l).
Proof.
  unfold UpdateServerStatus, make_map.
  destruct (serverStatus s) as [l0|] eqn:El; simpl.
  - rewrite El. simpl. repeat split; try done.
    intros l _ Hl. apply lookup_alter_ne. congruence.
  - repeat split; try done. intros l [c Hc] _.
    assert (l ≠ fresh (dom h)).
    { intros ->. by rewrite fresh_loc_unused in Hc. }
    rewrite lookup_alter_ne by done. by rewrite lookup_insert_ne.
Qed.

Lemma UpdateServerStatuses_snoc s (h : mapHeap) updates server status :
  UpdateServerStatuses s h (updates ++ [(server, status)])
  = UpdateServerStatus (UpdateServerStatuses s h updates).1 server status
      (UpdateServerStatuses s h updates).2.
Proof. unfold UpdateServerStatuses. by rewrite foldl_app. Qed.

Lemma UpdateServerStatuses_spec s (h : mapHeap) updates :
  allocated s h ->
  let s' := (UpdateServerStatuses s h updates).1 in
  let h' := (UpdateServerStatuses s h updates).2 in
  allocated s' h'
  /\ stored s' h' = foldl (fun m '(server, status) => <[server := status]> m)
                      (stored s h) updates
  /\ (svc s' = svc s /\ svc_Err s' = svc_Err s /\ svc_Status s' = svc_Status s
      /\ svc_UsedBy s' = svc_UsedBy s)
  /\ (forall l, serverStatus s = Some l -> serverStatus s' = Some l)
  /\ (updates <> [] -> is_Some (serverStatus s'))
  /\ (forall l, is_Some (h !! l) -> serverStatus s <> Some l -> h' !! l = h !! l).
Proof.
  intros Hal. induction updates as [|[server status] updates IH] using rev_ind.
  { simpl. repeat split; try done. }
  rewrite UpdateServerStatuses_snoc. simpl in *.
  destruct IH as (Hal' & Hst & (H1 & H2 & H3 & H4) & Hkeep & _ & Hframe).
  set (s1 := (UpdateServerStatuses s h updates).1) in *.
  set (h1 := (UpdateServerStatuses s h updates).2) in *.
  pose proof (UpdateServerStatus_frame s1 server status h1)
    as (F1 & F2 & F3 & F4 & F5 & F6 & F7). simpl in *.
  split; [by apply UpdateServerStatus_allocated|].
  split; [by rewrite UpdateServerStatus_stored, Hst, foldl_app|].
  split; [repeat split; congruence|].
  split; [intros l Hl; by apply F6, Hkeep|].
  split; [done|].
  intros l Hl Hne.
  destruct (decide (serverStatus s1 = Some l)) as [Hs1|Hs1].
  - (* the map of [s1] is new, [l] is not *)
    exfalso. destruct (serverStatus s) as [l0|] eqn:El.
    + specialize (Hkeep l0 eq_refl). congruence.
    + clear -Hs1 Hl El Hal. subst s1. revert Hs1.
      induction updates as [|[server status] updates IH] using rev_ind.
      { simpl. congruence. }
      rewrite UpdateServerStatuses_snoc.
      pose proof (UpdateServerStatuses_snoc s h updates server status) as _.
      set (s1 := (UpdateServerStatuses s h updates).1) in *.
      set (h1 := (UpdateServerStatuses s h updates).2) in *.
      unfold UpdateServerStatus, make_map.
      destruct (serverStatus s1) as [l1|] eqn:E1; simpl.
      * rewrite E1. simpl. done.
      * intros [= <-].
        assert (Hsame : h1 !! fresh (dom h1) = h !! fresh (dom h1)).
        { subst h1 s1. clear IH.
          revert E1. generalize (fresh (dom (UpdateServerStatuses s h updates).2)).
          induction updates as [|[sv st] updates IH] using rev_ind; [done|].
          rewrite UpdateServerStatuses_snoc.
          set (s1 := (UpdateServerStatuses s h updates).1) in *.
          set (h1 := (UpdateServerStatuses s h updates).2) in *.
          pose proof (UpdateServerStatus_frame s1 sv st h1)
            as (_ & _ & _ & _ & [l5 F5] & _). simpl in F5.
          intros l E. congruence. }
        rewrite fresh_loc_unused in Hsame. destruct Hl as [c Hc]. congruence.
  - rewrite F7; [by apply Hframe|by rewrite Hframe|done].
Qed.

Lemma foldl_insert_last (updates : list (string * string))
  (m : gmap string string) :
  foldl (fun m '(server, status) => <[server := status]> m) m updates
  = list_to_map (reverse updates) ∪ m.
Proof.
  induction updates as [|[server status] updates IH] using rev_ind.
  { simpl. by rewrite (left_id_L ∅ (∪)). }
  rewrite foldl_app, reverse_app. simpl. rewrite IH.
  by rewrite insert_union_l.
Qed.

Lemma GetAllStatus_nil_iff s (h : mapHeap) :
  (GetAllStatus s h).1 = None <-> stored s h = ∅.
Proof.
  unfold GetAllStatus, stored, make_map.
  case_decide as Hsize; simpl.
  - split; [|done]. intros _. by apply map_size_empty_iff.
  - split; [done|]. intros Hempty. by rewrite Hempty, map_size_empty in Hsize.
Qed.

(** X13. A run of [UpdateServerStatus] calls on a [ServiceInfo] whose map,
    if it has one, is an object of the heap: afterwards the stored status
    of a server is the one of the last call for it, and the one stored
    before if there was no call for it; [GetAllStatus] returns nil exactly
    when there was no call and nothing was stored, and returns the stored
    entries otherwise; a map the [ServiceInfo] had is kept, one is there
    after the first call; the configuration, the errors, the [Status] and
    the [UsedBy] list of the [ServiceInfo] and the other objects of the
    heap are as before. *)
Theorem UpdateServerStatus_last_write_wins s (h : mapHeap)
  (updates : list (string * string)) :
  allocated s h ->
  let s' := (UpdateServerStatuses s h updates).1 in
  let h' := (UpdateServerStatuses s h updates).2 in
  allocated s' h'
  /\ (forall server,
        stored s' h' !! server
        = match (list_to_map (reverse updates) : gmap string string) !! server with
          | Some status => Some status
          | None => stored s h !! server
          end)
  /\ ((GetAllStatus s' h').1 = None <-> updates = [] /\ stored s h = ∅)
  /\ map_content (GetAllStatus s' h').2 (GetAllStatus s' h').1 = stored s' h'
  /\ (svc s' = svc s /\ svc_Err s' = svc_Err s /\ svc_Status s' = svc_Status s
      /\ svc_UsedBy s' = svc_UsedBy s)
  /\ (forall l, serverStatus s = Some l -> serverStatus s' = Some l)
  /\ (updates <> [] -> is_Some (serverStatus s'))
  /\ (forall l, is_Some (h !! l) -> serverStatus s <> Some l -> h' !! l = h !! l).
Proof.
  intros Hal s' h'.
  destruct (UpdateServerStatuses_spec s h updates Hal)
    as (Hal' & Hst & Hfields & Hkeep & Hsome & Hframe).
  fold s' h' in Hal', Hst, Hfields, Hkeep, Hsome, Hframe.
  rewrite foldl_insert_last in Hst.
  split; [done|]. split; [|split; [|split; [|done]]].
  - intros server. rewrite Hst, lookup_union.
    by destruct (list_to_map (reverse updates) !! server),
      (stored s h !! server).
  - rewrite GetAllStatus_nil_iff, Hst. split.
    + intros Hempty. pose proof (map_positive_l _ _ Hempty) as Hl.
      rewrite Hl, (left_id_L ∅ (∪)) in Hempty.
      split; [|done]. destruct (reverse updates) as [|[k v] l] eqn:Hrev.
      * apply (f_equal reverse) in Hrev. by rewrite reverse_involutive in Hrev.
      * simpl in Hl. by apply insert_non_empty in Hl.
    + intros [-> ->]. rewrite reverse_nil. simpl.
      by rewrite (left_id_L ∅ (∪)).
  - pose proof (GetAllStatus_result s' h') as Hres.
    by destruct (GetAllStatus s' h'), Hres.
Qed.

Lemma UpdateServerStatus_last_write_wins_witness :
  allocated serviceInfo_example statuses_example
  /\ stored
       (UpdateServerStatuses serviceInfo_example statuses_example
          [("http://10.0.0.1:80", "DOWN"); ("http://10.0.0.2:80", "UP");
           ("http://10.0.0.1:80", "UP")]).1
       (UpdateServerStatuses serviceInfo_example statuses_example
          [("http://10.0.0.1:80", "DOWN"); ("http://10.0.0.2:80", "UP");
           ("http://10.0.0.1:80", "UP")]).2
     !! "http://10.0.0.1:80"
     = Some "UP".
Proof.
  assert (Hal : allocated serviceInfo_example statuses_example).
  { intros l [= <-]. eexists. reflexivity. }
  split; [exact Hal|].
  exact (proj1 (proj2
    (UpdateServerStatus_last_write_wins serviceInfo_example statuses_example
       [("http://10.0.0.1:80", "DOWN"); ("http://10.0.0.2:80", "UP");
        ("http://10.0.0.1:80", "UP")] Hal)) "http://10.0.0.1:80").
Defined.

End StatusUpdateFacts.

(** ** Mergeable as a relation *)

Module MergeableMoreFacts.
Import Dynamic DynamicMore Samples MergeableFacts.

(** What [Mergeable] compares. *)
Local Abbreviation same a b :=
  (deepEqual_ServersLoadBalancer (set_Servers None a) (set_Servers None b)).

Lemma same_true a b : same a b = true <-> set_Servers None a = set_Servers None b.
Proof. apply deepEqual_ServersLoadBalancer_eq. Qed.

(** [Mergeable] on two objects of the heap. *)
Lemma Mergeable_result (h : lbHeap) (l loadBalancer : loc) a b :
  h !! l = Some a -> h !! loadBalancer = Some b ->
  Mergeable h l loadBalancer = Some (same a b, h).
Proof.
  intros Ha Hb. unfold Mergeable, deepEqual_lbPtr.
  rewrite Ha. simpl.
  destruct (decide (l = loadBalancer)) as [->|Hne].
  - assert (a = b) as <- by congruence.
    alter_lookup. rewrite Ha. simpl.
    rewrite (proj2 (same_true a a) eq_refl).
    do 2 f_equal. apply map_eq. intros i.
    destruct (decide (i = loadBalancer)) as [->|Hi]; alter_lookup; [|done].
    rewrite Ha. simpl. by destruct a.
  - alter_lookup. rewrite Hb. simpl.
    destruct (decide (l = loadBalancer)) as [?|_]; [done|].
    alter_lookup. rewrite Ha. simpl. do 2 f_equal.
    apply map_eq. intros i.
    destruct (decide (i = l)) as [->|Hi]; alter_lookup.
    { rewrite Ha. simpl. by destruct a. }
    destruct (decide (i = loadBalancer)) as [->|Hi']; alter_lookup; [|done].
    rewrite Hb. simpl. by destruct b.
Qed.

(** X14. [Mergeable] panics exactly when one of the two pointers is nil or
    dangling; whenever it answers, it leaves the heap as it found it. *)
Theorem Mergeable_panics_iff_nil (h : lbHeap) (l loadBalancer : loc) :
  (Mergeable h l loadBalancer = None
   <-> h !! l = None \/ h !! loadBalancer = None)
  /\ (forall result h', Mergeable h l loadBalancer = Some (result, h') -> h' = h).
Proof.
  destruct (h !! l) as [a|] eqn:Ha, (h !! loadBalancer) as [b|] eqn:Hb.
  - rewrite (Mergeable_result h l loadBalancer a b Ha Hb). split.
    + split; [done|]. by intros [?|?].
    + by intros result h' [= _ <-].
  - assert (Hne : l <> loadBalancer) by congruence.
    assert (Mergeable h l loadBalancer = None) as ->.
    { unfold Mergeable. rewrite Ha. simpl.
      rewrite lookup_alter_ne by done. by rewrite Hb. }
    split; [|done]. split; [by right|done].
  - assert (Mergeable h l loadBalancer = None) as ->.
    { unfold Mergeable. by rewrite Ha. }
    split; [|done]. split; [by left|done].
  - assert (Mergeable h l loadBalancer = None) as ->.
    { unfold Mergeable. by rewrite Ha. }
    split; [|done]. split; [by left|done].
Qed.

Lemma set_Servers_twice v w a : set_Servers v (set_Servers w a) = set_Servers v a.
Proof. by destruct a. Qed.

(** X15. On load balancers of the heap [Mergeable] is an equivalence that
    does not look at the servers: a load balancer is mergeable with itself;
    the answer is the same with receiver and argument exchanged; two load
    balancers mergeable with a third are mergeable with each other; and
    the answer is the same whatever [Servers] the receiver holds. After
    [SetDefaults] on both, they are mergeable exactly when they agree on
    the sticky, health check and response forwarding settings. *)
Theorem Mergeable_equivalence_ignoring_Servers (h : lbHeap) (l1 l2 l3 : loc)
  a b c :
  h !! l1 = Some a -> h !! l2 = Some b -> h !! l3 = Some c ->
  Mergeable h l1 l1 = Some (true, h)
  /\ Mergeable h l1 l2 = Mergeable h l2 l1
  /\ (Mergeable h l1 l2 = Some (true, h) -> Mergeable h l2 l3 = Some (true, h) ->
      Mergeable h l1 l3 = Some (true, h))
  /\ (forall servers,
        fst <$> Mergeable (alter (set_Servers servers) l1 h) l1 l2
        = fst <$> Mergeable h l1 l2)
  /\ (l1 <> l2 ->
      let h' := alter ServersLoadBalancer_SetDefaults l1
                  (alter ServersLoadBalancer_SetDefaults l2 h) in
      fst <$> Mergeable h' l1 l2 = Some true
      <-> lb_Sticky a = lb_Sticky b /\ lb_HealthCheck a = lb_HealthCheck b
          /\ lb_ResponseForwarding a = lb_ResponseForwarding b).
Proof.
  intros Ha Hb Hc.
  rewrite (Mergeable_result h l1 l1 a a Ha Ha).
  rewrite (Mergeable_result h l1 l2 a b Ha Hb).
  rewrite (Mergeable_result h l2 l1 b a Hb Ha).
  rewrite (Mergeable_result h l2 l3 b c Hb Hc).
  rewrite (Mergeable_result h l1 l3 a c Ha Hc).
  split; [by rewrite (proj2 (same_true a a) eq_refl)|].
  split.
  { do 2 f_equal. apply eq_true_iff_eq. rewrite !same_true.
    split; congruence. }
  split.
  { intros [= H1%same_true] [= H2%same_true].
    rewrite (proj2 (same_true a c)); [done|congruence]. }
  split.
  - intros servers.
    destruct (decide (l1 = l2)) as [<-|Hne].
    + assert (a = b) as <- by congruence.
      rewrite (Mergeable_result _ l1 l1 (set_Servers servers a)
                 (set_Servers servers a))
        by (by rewrite lookup_alter_eq, Ha).
      simpl. by rewrite !(proj2 (same_true _ _) eq_refl).
    + rewrite (Mergeable_result _ l1 l2 (set_Servers servers a) b).
      * simpl. by rewrite set_Servers_twice.
      * by rewrite lookup_alter_eq, Ha.
      * by rewrite lookup_alter_ne, Hb.
  - intros Hne h'.
    rewrite (Mergeable_result h' l1 l2 (ServersLoadBalancer_SetDefaults a)
               (ServersLoadBalancer_SetDefaults b)).
    + simpl. split.
      * intros [= H%same_true]. apply set_Servers_eq in H.
        destruct H as (? & ? & _ & ?). done.
      * intros (? & ? & ?). f_equal. apply same_true, set_Servers_eq. done.
    + unfold h'. by rewrite lookup_alter_eq, lookup_alter_ne, Ha.
    + unfold h'. rewrite lookup_alter_ne by done.
      by rewrite lookup_alter_eq, Hb.
Qed.

Lemma Mergeable_equivalence_ignoring_Servers_witness :
  heap_example !! 1%positive = Some (lb_example (Some [server_example]))
  /\ heap_example !! 2%positive = Some (lb_example (Some []))
  /\ Mergeable heap_example 1%positive 2%positive
     = Mergeable heap_example 2%positive 1%positive.
Proof.
  split; [reflexivity|]. split; [reflexivity|].
  exact (proj1 (proj2
    (Mergeable_equivalence_ignoring_Servers heap_example 1%positive 2%positive
       2%positive _ _ _ eq_refl eq_refl eq_refl))).
Defined.

End MergeableMoreFacts.

(** ** Runs of ServeTCP *)

Module TcpRunFacts.
Import Dynamic Tcp TcpRuns SampleRun TcpFacts.

Section Facts.
Context {Time : Type} (Time_Add : Time -> Z -> Time).
Implicit Types (p : Proxy) (o : @outcome Time) (dst src : connection).
Implicit Types (s : @system Time) (r : @routine Time).

Lemma closes_app (l1 l2 : list (@action Time)) :
  closes (l1 ++ l2) = closes l1 ++ closes l2.
Proof. apply omap_app. Qed.

Lemma closing_initial : closing (@initial Time).
Proof. done. Qed.

Lemma closing_step p o1 o2 s s' :
  closing s -> step Time_Add p o1 o2 s s' -> closing s'.
Proof.
  intros Hinv Hstep. unfold closing in *.
  destruct Hstep as [s e Hm|s e Hm|s Hm|s a rest Ht Hns|s a rest Ht Hns
                    |s err rest Ht Hw|s err rest Ht Hw]; simpl.
  - rewrite Hm in Hinv. destruct Hinv as (-> & H1 & H2 & H3).
    split; [by eexists _, _|done].
  - rewrite Hm in Hinv. destruct Hinv as (-> & H1 & H2 & H3).
    split; [by eexists _, _|done].
  - rewrite Hm in Hinv. by destruct Hinv as (-> & _).
  - destruct (main s) as [| | |[|]]; try done.
    + destruct Hinv as (_ & H1 & _). by rewrite H1 in Ht.
    + destruct Hinv as (_ & H1 & _). by rewrite H1 in Ht.
  - destruct (main s) as [| | |[|]]; try done.
    + destruct Hinv as (_ & _ & H2 & _). by rewrite H2 in Ht.
    + destruct Hinv as (_ & _ & H2 & _). by rewrite H2 in Ht.
  - destruct (main s) as [| | |[|]]; try done; simpl.
    + rewrite closes_app, Hinv. by destruct err.
    + exists (performed s). by rewrite Hinv.
  - destruct (main s) as [| | |[|]]; try done; simpl.
    + rewrite closes_app, Hinv. by destruct err.
    + exists (performed s). by rewrite Hinv.
Qed.

Lemma reachable_closing p o1 o2 s :
  reachable Time_Add p o1 o2 s -> closing s.
Proof.
  induction 1 as [|s s' _ IH Hstep]; [apply closing_initial|].
  by eapply closing_step.
Qed.

(** X16. [ServeTCP] closes what it has opened, when it returns and not
    before: at every point of every run, the connections it has closed are
    none while it has not returned, [conn] alone when it returned because
    the address could not be resolved or the backend not be dialed, and
    [connBackend] then [conn], as its last two operations, when it
    returned after the dial. When the dial failed it has logged the error,
    started no routine and received nothing. *)
Theorem ServeTCP_closes_on_return p o1 o2 s :
  reachable Time_Add p o1 o2 s ->
  closes (performed s)
  = match main s with
    | Returned true => [connBackend; conn]
    | Returned false => [conn]
    | _ => []
    end
  /\ (main s = Returned true ->
      exists logs, performed s = logs ++ [Close connBackend; Close conn])
  /\ (main s = Returned false ->
      (exists msg e, performed s = [Errorf msg e; Close conn])
      /\ routine1 s = idle /\ routine2 s = idle /\ received s = []).
Proof.
  intros Hr%reachable_closing. unfold closing in Hr.
  destruct (main s) as [| | |[|]].
  - destruct Hr as (-> & _). done.
  - done.
  - done.
  - destruct Hr as (logs & -> & Hlogs). rewrite closes_app, Hlogs.
    split; [done|]. split; [by eexists|done].
  - destruct Hr as ((msg & e & ->) & H1 & H2 & H3).
    split; [done|]. split; [done|]. intros _. split; [by eexists _, _|done].
Qed.

(** *** No routine is left behind *)











(** *** The half-close and the return *)

Lemma pending_done p dst src o r a :
  pending (connCopy Time_Add p dst src o) r -> a ∈ done r -> a = Copy dst src.
Proof.
  destruct (connCopy_program Time_Add p dst src o) as (tl & -> & _).
  intros [[Hd Ht]|(c & s0 & tl' & [= <- <- <-] & Hd & Ht)]; rewrite Hd.
  - by intros ?%elem_of_nil.
  - by intros ?%list_elem_of_singleton.
Qed.

Lemma reachable_half_close p o1 o2 s :
  reachable Time_Add p o1 o2 s ->
  (CloseWrite conn ∈ done (routine1 s) -> copy_err o1 ∈ received s)
  /\ (CloseWrite connBackend ∈ done (routine2 s) -> copy_err o2 ∈ received s).
Proof.
  intros Hr. pose proof (reachable_invariant Time_Add p o1 o2 s Hr) as Hinv.
  pose proof (reachable_closing p o1 o2 s Hr) as Hcl.
  unfold invariant in Hinv. unfold closing in Hcl.
  destruct (main s) as [| | |[|]] eqn:Hm.
  - destruct Hcl as (_ & -> & -> & _). split; by intros ?%elem_of_nil.
  - destruct Hinv as (H1 & H2 & _).
    split; intros Hin; [by apply (pending_done _ _ _ _ _ _ H1) in Hin
                       |by apply (pending_done _ _ _ _ _ _ H2) in Hin].
  - destruct Hinv as [[(H1 & H2 & ->)|(H1 & H2 & ->)] _].
    + split; [intros _; set_solver|].
      intros Hin. by apply (pending_done _ _ _ _ _ _ H2) in Hin.
    + split; [|intros _; set_solver].
      intros Hin. by apply (pending_done _ _ _ _ _ _ H1) in Hin.
  - destruct Hinv as (_ & _ & [-> | ->] & _); split; intros _; set_solver.
  - destruct Hcl as (_ & -> & -> & _). split; by intros ?%elem_of_nil.
Qed.

(** The run in which both routines copy and send, and nothing more. *)
Lemma reachable_early_return p o1 o2 :
  exists tl1 tl2 logs,
    connCopy Time_Add p conn connBackend o1
    = [Copy conn connBackend; Send (copy_err o1)] ++ CloseWrite conn :: tl1
    /\ connCopy Time_Add p connBackend conn o2
       = [Copy connBackend conn; Send (copy_err o2)]
         ++ CloseWrite connBackend :: tl2
    /\ reachable Time_Add p o1 o2
         {| main := Returned true;
            routine1 := {| done := [Copy conn connBackend; Send (copy_err o1)];
                           todo := CloseWrite conn :: tl1 |};
            routine2 := {| done := [Copy connBackend conn; Send (copy_err o2)];
                           todo := CloseWrite connBackend :: tl2 |};
            received := [copy_err o1; copy_err o2];
            performed := logs ++ [Close connBackend; Close conn] |}.
Proof.
  destruct (connCopy_shape Time_Add p conn connBackend o1) as (tl1 & E1 & _).
  destruct (connCopy_shape Time_Add p connBackend conn o2) as (tl2 & E2 & _).
  exists tl1, tl2. eexists. split; [exact E1|]. split; [exact E2|].
  set (prog1 := connCopy Time_Add p conn connBackend o1) in *.
  set (prog2 := connCopy Time_Add p connBackend conn o2) in *.
  assert (H0 : reachable Time_Add p o1 o2 initial) by constructor.
  pose proof (reachable_step _ _ _ _ _ _ H0
                (step_dialed Time_Add p o1 o2 initial eq_refl)) as H1.
  fold prog1 prog2 in H1. rewrite E1, E2 in H1. simpl in H1. clear H0.
  repeat match goal with
  | H : reachable _ _ _ _ ?s |- _ =>
      first
        [ pose proof (reachable_step _ _ _ _ _ _ H
                        (step_receive1 Time_Add p o1 o2 s _ _ eq_refl eq_refl))
        | pose proof (reachable_step _ _ _ _ _ _ H
                        (step_receive2 Time_Add p o1 o2 s _ _ eq_refl eq_refl))
        | pose proof (reachable_step _ _ _ _ _ _ H
                        (step_routine1 Time_Add p o1 o2 s (Copy _ _) _ eq_refl
                           eq_refl))
        | pose proof (reachable_step _ _ _ _ _ _ H
                        (step_routine2 Time_Add p o1 o2 s (Copy _ _) _ eq_refl
                           eq_refl)) ];
      clear H; simpl in *
  end.
  match goal with H : reachable _ _ _ _ _ |- _ => exact H end.
Qed.

(** X18. The half-close of [connCopy] comes after its result was received
    by [ServeTCP], and nothing orders it before the return of [ServeTCP]:
    in every run a routine has called [CloseWrite] only if the result of
    its copy is among the values received; and whatever the proxy and the
    results, there is a run in which [ServeTCP] has received both results,
    closed both connections and returned while each routine still has its
    [CloseWrite] ahead. *)
Theorem ServeTCP_may_return_before_half_close p o1 o2 :
  (forall s, reachable Time_Add p o1 o2 s ->
     (CloseWrite conn ∈ done (routine1 s) -> copy_err o1 ∈ received s)
     /\ (CloseWrite connBackend ∈ done (routine2 s) -> copy_err o2 ∈ received s))
  /\ (exists s,
        reachable Time_Add p o1 o2 s
        /\ main s = Returned true
        /\ closes (performed s) = [connBackend; conn]
        /\ (exists rest, todo (routine1 s) = CloseWrite conn :: rest)
        /\ (exists rest, todo (routine2 s) = CloseWrite connBackend :: rest)
        /\ (CloseWrite conn ∉ done (routine1 s))
        /\ (CloseWrite connBackend ∉ done (routine2 s))).
Proof.
  split; [intros s; apply reachable_half_close|].
  destruct (reachable_early_return p o1 o2) as (tl1 & tl2 & logs & _ & _ & Hr).
  eexists. split; [exact Hr|]. simpl.
  pose proof (reachable_closing _ _ _ _ Hr) as Hcl. unfold closing in Hcl.
  simpl in Hcl. destruct Hcl as (logs' & Hlogs & Hnone).
  split; [done|]. split; [by rewrite Hlogs, closes_app, Hnone|].
  split; [by eexists|]. split; [by eexists|].
  split; intros Hin;
    repeat (apply elem_of_cons in Hin as [Hin|Hin]; [discriminate|]);
    by apply elem_of_nil in Hin.
Qed.

End Facts.

Lemma ServeTCP_closes_on_return_witness :
  reachable Z.add proxy_example outcome1 outcome2 returned_example
  /\ closes (performed returned_example) = [connBackend; conn].
Proof.
  split; [exact reachable_returned_example|].
  exact (proj1 (ServeTCP_closes_on_return Z.add proxy_example outcome1 outcome2
                  returned_example reachable_returned_example)).
Defined.


End TcpRunFacts.

(** ** The parts of the balancer chain *)

Module ChainPartFacts.
Import Server SampleChain ChainOrder ChainParts ChainFacts.

Section Facts.
Context {Extractor RateSetT URLT HealthCheckT HCOptions BackendConfig : Type}.
Context (utils_NewExtractor : string -> string + Extractor).
Context (ratelimit_NewRateSet : RateSetT).
Context (rateSet_Add : RateSetT -> Z -> Z -> Z -> string + RateSetT).
Context (ratelimit_New_err : Extractor -> RateSetT -> option string).
Context (connlimit_New_err : Extractor -> Z -> option string).
Context (buffer_New_err : Buffering -> option string).
Context (NewCircuitBreaker_err : string -> option string).
Context (url_Parse : string -> string + URLT).
Context (UpsertServer_err : URLT -> Z -> option string).
Context (NewRebalancer_err : option string -> option string).
Context (roundrobin_New_err : option string -> option string).
Context (NewLoadBalancerMethod : LoadBalancer -> string + LoadBalancerMethod).
Context (show_LoadBalancer : LoadBalancer -> string).
Context (cookie_GetName : string -> string -> string).
Context (parseHealthCheckOptions :
  @Handler Extractor RateSetT URLT -> string -> option HealthCheckT ->
  option HealthCheckT -> option HCOptions).
Context (NewBackendConfig : HCOptions -> string -> BackendConfig).
Context (set_Transport : HCOptions -> HCOptions).

Local Abbreviation handler := (@Handler Extractor RateSetT URLT).
Implicit Types (lb fwd h : handler) (be : @backend HealthCheckT)
  (s : @Server HealthCheckT) (fe : Frontend).

(** *** The layers of any configuration *)

Lemma elem_of_enabled_layers s fe be (layer : Layer) :
  layer ∈ enabled_layers s fe be
  <-> match layer with
      | CircuitBreakerLayer => present (be_CircuitBreaker be) = true
      | BufferingLayer => present (be_Buffering be) = true
      | RetryLayer => present (globalRetry s) = true
      | MaxConnLayer => maxConn_on be = true
      | RateLimitLayer => rateLimit_on fe = true
      | LoadBalancerLayer | ForwardingLayer => False
      end.
Proof.
  unfold enabled_layers.
  destruct (present (be_CircuitBreaker be)), (present (be_Buffering be)),
    (present (globalRetry s)), (maxConn_on be), (rateLimit_on fe), layer;
    simpl; split; try done; intros H;
    repeat (apply elem_of_cons in H as [H|H]; [discriminate|]);
    try (by apply elem_of_nil in H);
    repeat first [by apply list_elem_of_here | apply list_elem_of_further].
Qed.

Lemma enabled_layers_sublist s fe be :
  enabled_layers s fe be
  `sublist_of` [CircuitBreakerLayer; BufferingLayer; RetryLayer; MaxConnLayer;
                RateLimitLayer].
Proof.
  unfold enabled_layers.
  destruct (present (be_CircuitBreaker be)), (present (be_Buffering be)),
    (present (globalRetry s)), (maxConn_on be), (rateLimit_on fe); simpl;
    repeat first [apply sublist_nil | apply sublist_skip | apply sublist_cons].
Qed.

Lemma present_is_Some {A} (x : option A) : present x = true <-> is_Some x.
Proof.
  destruct x; simpl.
  - split; [by eexists|done].
  - split; [done|]. by intros [? ?].
Qed.

Lemma maxConn_on_spec be :
  maxConn_on be = true <-> exists mc, be_MaxConn be = Some mc /\ Amount mc <> 0%Z.
Proof.
  unfold maxConn_on. destruct (be_MaxConn be) as [mc|].
  - rewrite bool_decide_eq_true. split; [by exists mc|].
    by intros (? & [= <-] & ?).
  - split; [done|]. by intros (? & ? & _).
Qed.

Lemma rateLimit_on_spec fe :
  rateLimit_on fe = true
  <-> exists rl, fe_RateLimit fe = Some rl /\ RateSet rl <> ∅.
Proof.
  unfold rateLimit_on. destruct (fe_RateLimit fe) as [rl|].
  - rewrite bool_decide_eq_true. split.
    + intros Hsize. exists rl. split; [done|]. intros Hempty.
      rewrite Hempty, map_size_empty in Hsize. lia.
    + intros (? & [= <-] & Hne).
      destruct (size (RateSet rl)) eqn:E; [|lia].
      by apply map_size_empty_iff in E.
  - split; [done|]. by intros (? & ? & _).
Qed.

(** X19. The chain [buildBalancerMiddlewares] returns for any
    configuration: a request goes through the middlewares that are
    switched on, in the order circuit breaker, buffering, retry,
    connection limit, rate limit, each at most once, then through the load
    balancer and what [fwd] is made of; a middleware that is switched off
    is not in the chain. The circuit breaker and buffering are on when
    their configuration is there, retry when the global configuration has
    it, the connection limit when [MaxConn] is there with an [Amount] other
    than zero, the rate limit when [RateLimit] is there with a rate set
    that is not empty. *)
Theorem buildBalancerMiddlewares_skips_disabled s frontendName fe be fwd h hc :
  buildBalancerMiddlewares utils_NewExtractor ratelimit_NewRateSet rateSet_Add
    ratelimit_New_err connlimit_New_err buffer_New_err NewCircuitBreaker_err
    url_Parse UpsertServer_err NewRebalancer_err roundrobin_New_err
    NewLoadBalancerMethod show_LoadBalancer cookie_GetName
    parseHealthCheckOptions NewBackendConfig set_Transport
    s frontendName fe be fwd = inr (h, hc) ->
  exists layers,
    traverse h = layers ++ LoadBalancerLayer :: traverse fwd
    /\ layers `sublist_of` [CircuitBreakerLayer; BufferingLayer; RetryLayer;
                            MaxConnLayer; RateLimitLayer]
    /\ (CircuitBreakerLayer ∈ layers <-> is_Some (be_CircuitBreaker be))
    /\ (BufferingLayer ∈ layers <-> is_Some (be_Buffering be))
    /\ (RetryLayer ∈ layers <-> is_Some (globalRetry s))
    /\ (MaxConnLayer ∈ layers
        <-> exists mc, be_MaxConn be = Some mc /\ Amount mc <> 0%Z)
    /\ (RateLimitLayer ∈ layers
        <-> exists rl, fe_RateLimit fe = Some rl /\ RateSet rl <> ∅).
Proof.
  intros Hbuild. exists (enabled_layers s fe be).
  split.
  { exact (buildBalancerMiddlewares_traverse _ _ _ _ _ _ _ _ _ _ _ _ _ _ _ _ _
             _ _ _ _ _ _ _ Hbuild). }
  split; [apply enabled_layers_sublist|].
  rewrite !elem_of_enabled_layers, !present_is_Some, maxConn_on_spec,
    rateLimit_on_spec.
  done.
Qed.

(** *** The balancer *)







(** *** The instruments of the chain *)






End Facts.

Lemma buildBalancerMiddlewares_skips_disabled_witness :
  exists h hc,
    chain_example = inr (h, hc)
    /\ exists layers,
         traverse h
         = layers ++ LoadBalancerLayer
             :: @traverse string (list (Z * Z * Z)) string Forwarder
         /\ (RetryLayer ∈ layers <-> is_Some (globalRetry server_example)).
Proof.
  destruct chain_example as [e|[h hc]] eqn:Hc; [by vm_compute in Hc|].
  exists h, hc. split; [done|]. unfold chain_example in Hc.
  destruct (buildBalancerMiddlewares_skips_disabled _ _ _ _ _ _ _ _ _ _ _ _ _ _
              _ _ _ _ _ _ _ _ _ _ Hc)
    as (layers & H1 & _ & _ & _ & H2 & _).
  exists layers. split; [exact H1|exact H2].
Defined.



End ChainPartFacts.

(** ** When the chain cannot be built *)

Module ChainErrorFacts.
Import Server SampleChain ChainOrder ChainParts ChainFacts.

Section Facts.
Context {Extractor RateSetT URLT HealthCheckT HCOptions BackendConfig : Type}.
Context (utils_NewExtractor : string -> string + Extractor).
Context (ratelimit_NewRateSet : RateSetT).
Context (rateSet_Add : RateSetT -> Z -> Z -> Z -> string + RateSetT).
Context (ratelimit_New_err : Extractor -> RateSetT -> option string).
Context (connlimit_New_err : Extractor -> Z -> option string).
Context (buffer_New_err : Buffering -> option string).
Context (NewCircuitBreaker_err : string -> option string).
Context (url_Parse : string -> string + URLT).
Context (UpsertServer_err : URLT -> Z -> option string).
Context (NewRebalancer_err : option string -> option string).
Context (roundrobin_New_err : option string -> option string).
Context (NewLoadBalancerMethod : LoadBalancer -> string + LoadBalancerMethod).
Context (show_LoadBalancer : LoadBalancer -> string).
Context (cookie_GetName : string -> string -> string).
Context (parseHealthCheckOptions :
  @Handler Extractor RateSetT URLT -> string -> option HealthCheckT ->
  option HealthCheckT -> option HCOptions).
Context (NewBackendConfig : HCOptions -> string -> BackendConfig).
Context (set_Transport : HCOptions -> HCOptions).

Local Abbreviation handler := (@Handler Extractor RateSetT URLT).
Implicit Types (lb fwd h : handler) (be : @backend HealthCheckT)
  (s : @Server HealthCheckT) (fe : Frontend).

Local Abbreviation build :=
  (buildBalancerMiddlewares utils_NewExtractor ratelimit_NewRateSet rateSet_Add
     ratelimit_New_err connlimit_New_err buffer_New_err NewCircuitBreaker_err
     url_Parse UpsertServer_err NewRebalancer_err roundrobin_New_err
     NewLoadBalancerMethod show_LoadBalancer cookie_GetName
     parseHealthCheckOptions NewBackendConfig set_Transport).
Local Abbreviation balancer :=
  (buildLoadBalancer url_Parse UpsertServer_err NewRebalancer_err
     roundrobin_New_err NewLoadBalancerMethod show_LoadBalancer cookie_GetName).
Local Abbreviation rateLimiter :=
  (buildRateLimiter utils_NewExtractor ratelimit_NewRateSet rateSet_Add
     ratelimit_New_err).
Local Abbreviation maxConn := (buildMaxConn utils_NewExtractor connlimit_New_err).

(** Whether a limiter can be made does not depend on the handler it is
    made for. *)
Lemma buildRateLimiter_any lb lb' rl h :
  rateLimiter lb rl = inr h -> exists h', rateLimiter lb' rl = inr h'.
Proof.
  unfold buildRateLimiter. intros Hb.
  apply bindE_inr in Hb as (extractFunc & -> & Hb).
  apply bindE_inr in Hb as (rateSet & -> & Hb).
  apply bindE_inr in Hb as (u & Hnew & _). simpl. unfold check in *.
  destruct (ratelimit_New_err extractFunc rateSet); [done|]. by eexists.
Qed.

Lemma buildMaxConn_any lb lb' mc h :
  maxConn lb mc = inr h -> exists h', maxConn lb' mc = inr h'.
Proof.
  unfold buildMaxConn.
  destruct (utils_NewExtractor _) as [e|extractFunc]; [done|].
  destruct (connlimit_New_err _ _); [done|]. by eexists.
Qed.

Lemma stageRateLimit_ok s frontendName fe lb :
  (exists lb', stageRateLimit utils_NewExtractor ratelimit_NewRateSet rateSet_Add
                 ratelimit_New_err s frontendName fe lb = inr lb')
  <-> (forall rl, fe_RateLimit fe = Some rl -> RateSet rl <> ∅ ->
         exists h, rateLimiter lb rl = inr h).
Proof.
  unfold stageRateLimit. destruct (fe_RateLimit fe) as [rl|].
  - case_decide as Hsize.
    + split.
      * intros [lb' H] ? [= <-] _.
        destruct (rateLimiter lb rl); [done|by eexists].
      * intros H. destruct (H rl eq_refl) as [h ->]; [|by eexists].
        intros Hempty. rewrite Hempty, map_size_empty in Hsize. lia.
    + split; [|by eexists]. intros _ ? [= <-] Hne. exfalso.
      destruct (size (RateSet rl)) eqn:E; [|lia].
      by apply map_size_empty_iff in E.
  - split; [done|by eexists].
Qed.

Lemma stageMaxConn_ok s frontendName be lb :
  (exists lb', stageMaxConn utils_NewExtractor connlimit_New_err s frontendName
                 be lb = inr lb')
  <-> (forall mc, be_MaxConn be = Some mc -> Amount mc <> 0%Z ->
         exists h, maxConn lb mc = inr h).
Proof.
  unfold stageMaxConn. destruct (be_MaxConn be) as [mc|].
  - case_decide as Hamount.
    + split.
      * intros [lb' H] ? [= <-] _.
        destruct (maxConn lb mc); [done|by eexists].
      * intros H. destruct (H mc eq_refl Hamount) as [h ->]. by eexists.
    + split; [|by eexists]. by intros _ ? [= <-] Hne.
  - split; [done|by eexists].
Qed.

Lemma stageBuffering_ok be lb :
  (exists lb', stageBuffering buffer_New_err be lb = inr lb')
  <-> (forall b, be_Buffering be = Some b -> buffer_New_err b = None).
Proof.
  unfold stageBuffering, buildBufferingMiddleware, check.
  destruct (be_Buffering be) as [b|].
  - destruct (buffer_New_err b) eqn:E; simpl.
    + split; [by intros [? ?]|]. intros H. specialize (H b eq_refl). congruence.
    + split; [by intros _ ? [= <-]|by eexists].
  - split; [done|by eexists].
Qed.

Lemma stageCircuitBreaker_ok be lb :
  (exists lb', stageCircuitBreaker NewCircuitBreaker_err be lb = inr lb')
  <-> (forall cb, be_CircuitBreaker be = Some cb ->
         NewCircuitBreaker_err (Expression cb) = None).
Proof.
  unfold stageCircuitBreaker. destruct (be_CircuitBreaker be) as [cb|].
  - destruct (NewCircuitBreaker_err (Expression cb)) eqn:E; simpl.
    + split; [by intros [? ?]|]. intros H. specialize (H cb eq_refl). congruence.
    + split; [by intros _ ? [= <-]|by eexists].
  - split; [done|by eexists].
Qed.

(** X22. [buildBalancerMiddlewares] succeeds exactly when the balancer can
    be built and each middleware that is switched on can be made: a
    middleware that is switched off, the health check options and the
    retry middleware never make it fail. An error of [buildLoadBalancer] is
    returned as it is, before any middleware is made; an error of the rate
    limiter is returned as [error creating rate limiter: ...]. *)
Theorem buildBalancerMiddlewares_fails_only_by_enabled s frontendName fe be fwd :
  let chain :=
    buildBalancerMiddlewares utils_NewExtractor ratelimit_NewRateSet rateSet_Add
      ratelimit_New_err connlimit_New_err buffer_New_err NewCircuitBreaker_err
      url_Parse UpsertServer_err NewRebalancer_err roundrobin_New_err
      NewLoadBalancerMethod show_LoadBalancer cookie_GetName
      parseHealthCheckOptions NewBackendConfig set_Transport
      s frontendName fe be fwd in
  let loadBalancer :=
    buildLoadBalancer url_Parse UpsertServer_err NewRebalancer_err
      roundrobin_New_err NewLoadBalancerMethod show_LoadBalancer cookie_GetName
      s frontendName (Backend fe) be fwd in
  let limiter :=
    buildRateLimiter utils_NewExtractor ratelimit_NewRateSet rateSet_Add
      ratelimit_New_err fwd in
  let connLimit := buildMaxConn utils_NewExtractor connlimit_New_err fwd in
  ((exists h hc, chain = inr (h, hc))
   <-> (exists lb, loadBalancer = inr lb)
       /\ (forall rl, fe_RateLimit fe = Some rl -> RateSet rl <> ∅ ->
             exists h, limiter rl = inr h)
       /\ (forall mc, be_MaxConn be = Some mc -> Amount mc <> 0%Z ->
             exists h, connLimit mc = inr h)
       /\ (forall b, be_Buffering be = Some b -> buffer_New_err b = None)
       /\ (forall cb, be_CircuitBreaker be = Some cb ->
             NewCircuitBreaker_err (Expression cb) = None))
  /\ (forall e, loadBalancer = inl e -> chain = inl e)
  /\ (forall lb rl e,
        loadBalancer = inr lb ->
        fe_RateLimit fe = Some rl -> RateSet rl <> ∅ ->
        limiter rl = inl e ->
        chain = inl ("error creating rate limiter: " +:+ e)).
Proof.
  intros chain loadBalancer limiter connLimit.
  subst chain loadBalancer limiter connLimit.
  split; [|split].
  - unfold buildBalancerMiddlewares. split.
    + intros (h & hc & H).
      apply bindE_inr in H as (lb0 & Hbal & H).
      apply bindE_inr in H as (lb1 & H1 & H).
      apply bindE_inr in H as (lb2 & H2 & H).
      apply bindE_inr in H as (lb3 & H3 & H).
      apply bindE_inr in H as (lb4 & H4 & _).
      split; [by eexists|].
      split.
      { intros rl Hrl Hne.
        destruct (proj1 (stageRateLimit_ok _ _ _ _) (ex_intro _ _ H1) rl Hrl Hne)
          as [h0 Hh0].
        by eapply buildRateLimiter_any. }
      split.
      { intros mc Hmc Hne.
        destruct (proj1 (stageMaxConn_ok _ _ _ _) (ex_intro _ _ H2) mc Hmc Hne)
          as [h0 Hh0].
        by eapply buildMaxConn_any. }
      split.
      { exact (proj1 (stageBuffering_ok _ _) (ex_intro _ _ H3)). }
      exact (proj1 (stageCircuitBreaker_ok _ _) (ex_intro _ _ H4)).
    + intros ([lb0 ->] & Hrl & Hmc & Hbuf & Hcb). simpl.
      match goal with
      | |- context [stageRateLimit ?a ?b ?c ?d ?e ?f ?g ?l] =>
          destruct (proj2 (stageRateLimit_ok e f g l)) as [lb1 ->]
      end.
      { intros rl H1 H2. destruct (Hrl rl H1 H2) as [h0 Hh0].
        by eapply buildRateLimiter_any. }
      simpl.
      match goal with
      | |- context [stageMaxConn ?a ?b ?e ?f ?g ?l] =>
          destruct (proj2 (stageMaxConn_ok e f g l)) as [lb2 ->]
      end.
      { intros mc H1 H2. destruct (Hmc mc H1 H2) as [h0 Hh0].
        by eapply buildMaxConn_any. }
      simpl.
      match goal with
      | |- context [stageBuffering ?a ?g ?l] =>
          destruct (proj2 (stageBuffering_ok g l) Hbuf) as [lb3 ->]
      end.
      simpl.
      match goal with
      | |- context [stageCircuitBreaker ?a ?g ?l] =>
          destruct (proj2 (stageCircuitBreaker_ok g l) Hcb) as [lb4 ->]
      end.
      simpl. by eexists _, _.
  - intros e He. unfold buildBalancerMiddlewares. by rewrite He.
  - intros lb rl e Hbal Hrl Hne Hfail.
    unfold buildBalancerMiddlewares. rewrite Hbal. simpl.
    unfold stageRateLimit. rewrite Hrl.
    rewrite decide_True.
    2:{ destruct (size (RateSet rl)) eqn:E; [|lia].
        by apply map_size_empty_iff in E. }
    assert (rateLimiter (EmptyBackendHandler lb) rl = inl e) as ->; [|done].
    revert Hfail. unfold buildRateLimiter.
    destruct (utils_NewExtractor _) as [?|extractFunc]; simpl; [done|].
    destruct (foldl _ _ _) as [?|rateSet]; simpl; [done|].
    by destruct (ratelimit_New_err extractFunc rateSet).
Qed.

End Facts.
End ChainErrorFacts.

(** ** The client TLS configuration *)

Module ClientTLSFacts.
Import Server ClientTLS.

Section Facts.
Context {CertificatesT TLSConfig CertPool Data : Type}.
Context (CreateTLSConfig : CertificatesT -> string -> string + TLSConfig).
Context (ioutil_ReadFile : string -> string + Data).
Context (x509_NewCertPool : CertPool).
Context (AppendCertsFromPEM : CertPool -> Data -> bool * CertPool).
Context (set_RootCAs : CertPool -> TLSConfig -> TLSConfig).
Context (BuildNameToCertificate : TLSConfig -> TLSConfig).

Local Abbreviation create :=
  (createClientTLSConfig CreateTLSConfig ioutil_ReadFile x509_NewCertPool
     AppendCertsFromPEM set_RootCAs BuildNameToCertificate).
Local Abbreviation append :=
  (appendCAFiles ioutil_ReadFile x509_NewCertPool AppendCertsFromPEM).

Implicit Types (opt : TLS CertificatesT) (files : list string).

(** One turn of the loop over the files. *)
Local Abbreviation turn := (fun acc caFile =>
  bindE acc (fun pool : CertPool =>
    match ioutil_ReadFile caFile with
    | inl err => inl err
    | inr data =>
        let '(ok, pool) := AppendCertsFromPEM pool data in
        if ok then inr pool
        else inl ("invalid certificate(s) in " +:+ caFile)
    end)).

Lemma turns_failed files e : foldl turn (inl e) files = inl e.
Proof. induction files as [|caFile files IH]; simpl; auto. Qed.

Lemma appendCAFiles_app files files' :
  append (files ++ files') = foldl turn (append files) files'.
Proof. unfold appendCAFiles. by rewrite foldl_app. Qed.

Lemma length_pos_iff {A} (l : list A) : (0 < length l)%nat <-> l <> [].
Proof. destruct l; simpl; split; (lia || done). Qed.

Lemma createClientTLSConfig_Some entryPointName opt config :
  CreateTLSConfig (Certificates opt) entryPointName = inr config ->
  create entryPointName (Some opt)
  = (match Files (tls_ClientCA (overridden opt)) with
     | [] => inr (BuildNameToCertificate config)
     | files =>
         bindE (append files) (fun pool =>
         inr (BuildNameToCertificate (set_RootCAs pool config)))
     end,
     Some (overridden opt),
     if decide (ClientCAFiles opt = []) then []
     else [WarnDeprecatedClientCAFiles]).
Proof.
  intros Hc. unfold createClientTLSConfig, overridden. rewrite Hc.
  destruct (ClientCAFiles opt) as [|f files] eqn:Hf; simpl.
  - destruct (Files (tls_ClientCA opt)) as [|f' files'] eqn:Hf'; simpl; done.
  - done.
Qed.

Lemma overridden_idemp opt : overridden (overridden opt) = overridden opt.
Proof.
  unfold overridden. destruct (decide (ClientCAFiles opt = [])) as [H|H].
  - by rewrite decide_True.
  - simpl. by rewrite decide_False.
Qed.

Lemma overridden_fields opt :
  Certificates (overridden opt) = Certificates opt
  /\ ClientCAFiles (overridden opt) = ClientCAFiles opt.
Proof. unfold overridden. by destruct (decide (ClientCAFiles opt = [])). Qed.

Lemma createClientTLSConfig_again entryPointName opt config :
  CreateTLSConfig (Certificates opt) entryPointName = inr config ->
  create entryPointName (Some (overridden opt))
  = create entryPointName (Some opt).
Proof.
  intros Hc. destruct (overridden_fields opt) as [HC HF].
  rewrite (createClientTLSConfig_Some entryPointName opt config Hc).
  rewrite (createClientTLSConfig_Some entryPointName (overridden opt) config)
    by by rewrite HC.
  by rewrite overridden_idemp, HF.
Qed.

(** X23. [createClientTLSConfig] writes to the options it is given: once
    [CreateTLSConfig] has succeeded, deprecated [ClientCAFiles] that are
    not empty replace [ClientCA.Files] and switch [ClientCA.Optional] off,
    with a warning, whether or not the call then succeeds; so the
    configured [ClientCA] plays no part in the result then, and the CA
    files used are the deprecated ones. Without options the call fails
    with [no TLS provided]; when [CreateTLSConfig] fails, its error is
    returned and the options are untouched. A second call on the options
    as the first one left them gives the same result and leaves them as
    they are. *)
Theorem createClientTLSConfig_overrides_ClientCA entryPointName opt :
  let call :=
    createClientTLSConfig CreateTLSConfig ioutil_ReadFile x509_NewCertPool
      AppendCertsFromPEM set_RootCAs BuildNameToCertificate entryPointName in
  call None = (inl "no TLS provided", None, [])
  /\ (forall err,
        CreateTLSConfig (Certificates opt) entryPointName = inl err ->
        call (Some opt) = (inl err, Some opt, []))
  /\ (forall config,
        CreateTLSConfig (Certificates opt) entryPointName = inr config ->
        let '(result, after, log) := call (Some opt) in
        (ClientCAFiles opt = [] -> after = Some opt /\ log = [])
        /\ (ClientCAFiles opt <> [] ->
            after = Some (set_ClientCA {| Files := ClientCAFiles opt;
                                          Optional := false |} opt)
            /\ log = [WarnDeprecatedClientCAFiles]
            /\ forall ca, call (Some (set_ClientCA ca opt)) = (result, after, log))
        /\ result
           = match (if decide (ClientCAFiles opt = [])
                    then Files (tls_ClientCA opt) else ClientCAFiles opt) with
             | [] => inr (BuildNameToCertificate config)
             | files =>
                 bindE (appendCAFiles ioutil_ReadFile x509_NewCertPool
                          AppendCertsFromPEM files)
                   (fun pool =>
                      inr (BuildNameToCertificate (set_RootCAs pool config)))
             end
        /\ call after = (result, after, log)).
Proof.
  intros call. subst call.
  split; [done|]. split.
  { intros err Herr. unfold createClientTLSConfig. by rewrite Herr. }
  intros config Hc.
  pose proof (createClientTLSConfig_again entryPointName opt config Hc) as Hagain.
  rewrite (createClientTLSConfig_Some entryPointName opt config Hc) in *.
  split; [|split; [|split]].
  - intros Hnil. unfold overridden. by rewrite !decide_True.
  - intros Hne. unfold overridden. rewrite !decide_False by done.
    split; [done|]. split; [done|]. intros ca.
    rewrite (createClientTLSConfig_Some entryPointName (set_ClientCA ca opt)
               config Hc).
    unfold overridden. simpl. by rewrite !decide_False.
  - unfold overridden. by destruct (decide (ClientCAFiles opt = [])).
  - exact Hagain.
Qed.

(** X24. The loop of [createClientTLSConfig] over the CA files stops at
    the first file that cannot be read or holds no certificate: when the
    files before it were read and accepted, the error is the one of
    [ReadFile] for it, or [invalid certificate(s) in] followed by its
    name, whatever files come after it; an error stops the loop. A file
    that is read and accepted adds its contents to the pool the files
    before it gave, and the loop goes through only if every file could be
    read; without files the pool is the new, empty one. *)
Theorem appendCAFiles_stops_at_first_failure good bad rest :
  (forall pool,
     appendCAFiles ioutil_ReadFile x509_NewCertPool AppendCertsFromPEM good
     = inr pool ->
     (forall err, ioutil_ReadFile bad = inl err ->
        appendCAFiles ioutil_ReadFile x509_NewCertPool AppendCertsFromPEM
          (good ++ bad :: rest)
        = inl err)
     /\ (forall data, ioutil_ReadFile bad = inr data ->
           (AppendCertsFromPEM pool data).1 = false ->
           appendCAFiles ioutil_ReadFile x509_NewCertPool AppendCertsFromPEM
             (good ++ bad :: rest)
           = inl ("invalid certificate(s) in " +:+ bad))
     /\ (forall data, ioutil_ReadFile bad = inr data ->
           (AppendCertsFromPEM pool data).1 = true ->
           appendCAFiles ioutil_ReadFile x509_NewCertPool AppendCertsFromPEM
             (good ++ [bad])
           = inr (AppendCertsFromPEM pool data).2))
  /\ (forall e,
        appendCAFiles ioutil_ReadFile x509_NewCertPool AppendCertsFromPEM good
        = inl e ->
        appendCAFiles ioutil_ReadFile x509_NewCertPool AppendCertsFromPEM
          (good ++ rest)
        = inl e)
  /\ (forall pool,
        appendCAFiles ioutil_ReadFile x509_NewCertPool AppendCertsFromPEM good
        = inr pool ->
        Forall (fun caFile => exists data, ioutil_ReadFile caFile = inr data)
          good)
  /\ appendCAFiles ioutil_ReadFile x509_NewCertPool AppendCertsFromPEM []
     = inr x509_NewCertPool.
Proof.
  split; [|split; [|split; [|done]]].
  - intros pool Hgood. rewrite !appendCAFiles_app, Hgood. simpl.
    split; [|split].
    + intros err ->. apply turns_failed.
    + intros data ->. destruct (AppendCertsFromPEM pool data) as [ok pool'].
      simpl. intros ->. apply turns_failed.
    + intros data ->. destruct (AppendCertsFromPEM pool data) as [ok pool'].
      simpl. by intros ->.
  - intros e He. rewrite appendCAFiles_app, He. apply turns_failed.
  - induction good as [|caFile good IH] using rev_ind; intros pool Hp.
    { constructor. }
    rewrite appendCAFiles_app in Hp. simpl in Hp.
    destruct (append good) as [e|pool0] eqn:Hg; [done|]. simpl in Hp.
    apply Forall_app. split; [by eapply IH|].
    constructor; [|constructor].
    destruct (ioutil_ReadFile caFile) as [e|data]; [done|]. by eexists.
Qed.

End Facts.
End ClientTLSFacts.

(** ** The target of the proxy *)

Module TcpTargetFacts.
Import Dynamic Tcp TcpTarget.

Section Facts.
Context (targetIsHostname : string -> bool).

Lemma resolveTarget_address p resolved :
  address (resolveTarget targetIsHostname p resolved).1 = address p.
Proof.
  unfold resolveTarget.
  destruct (bool_decide _ || _); [|done]. by destruct resolved.
Qed.

Lemma resolveTarget_resolved p tcpAddr resolved :
  target p = Some tcpAddr -> targetIsHostname (address p) = false ->
  resolveTarget targetIsHostname p resolved = (p, Some tcpAddr).
Proof.
  intros Ht Hh. unfold resolveTarget.
  rewrite Hh, bool_decide_eq_false_2 by congruence. simpl. by rewrite Ht.
Qed.

Lemma resolveTarget_resolves p resolved :
  target p = None \/ targetIsHostname (address p) = true ->
  resolveTarget targetIsHostname p resolved
  = match resolved with
    | inl err => (p, None)
    | inr tcpAddr =>
        ({| address := address p; target := Some tcpAddr;
            terminationDelay := terminationDelay p |}, Some tcpAddr)
    end.
Proof.
  intros H. unfold resolveTarget.
  assert (bool_decide (target p = None) || targetIsHostname (address p) = true)
    as ->; [|done].
  destruct H as [H|H]; rewrite H; [done|apply orb_true_r].
Qed.

Lemma dialed_resolved p tcpAddr answers :
  target p = Some tcpAddr -> targetIsHostname (address p) = false ->
  dialed targetIsHostname p answers = ((fun _ => Some tcpAddr) <$> answers).
Proof.
  intros Ht Hh. induction answers as [|resolved answers IH]; [done|].
  cbn [dialed]. rewrite (resolveTarget_resolved p tcpAddr) by done.
  by rewrite IH.
Qed.

Lemma dialed_hostname answers : forall p,
  targetIsHostname (address p) = true ->
  dialed targetIsHostname p answers = answer <$> answers.
Proof.
  induction answers as [|resolved answers IH]; intros p Hh; [done|].
  cbn [dialed]. rewrite resolveTarget_resolves by by right.
  destruct resolved as [err|tcpAddr]; rewrite IH; done.
Qed.

Lemma dialed_unresolved answers : forall p,
  target p = None -> targetIsHostname (address p) = false ->
  dialed targetIsHostname p answers = first_answer answers.
Proof.
  induction answers as [|resolved answers IH]; intros p Ht Hh; [done|].
  cbn [dialed]. rewrite resolveTarget_resolves by by left.
  destruct resolved as [err|tcpAddr]; simpl.
  - by rewrite IH.
  - by rewrite (dialed_resolved _ tcpAddr).
Qed.

(** X25. The target of a proxy made by [NewProxy], over the [ServeTCP]
    calls on it: when the address is a host name, every call resolves it
    and dials what the resolver answers at that time, and gives up when it
    cannot be resolved then; when it is not, the calls resolve it until
    the resolver answers for the first time and every later call dials
    that first answer, whatever the resolver would say. *)
Theorem ServeTCP_resolves_hostname_every_time address terminationDelay
  (answers : list (string + string)) :
  dialed targetIsHostname (NewProxy address terminationDelay) answers
  = if targetIsHostname address then answer <$> answers
    else first_answer answers.
Proof.
  destruct (targetIsHostname address) eqn:Hh.
  - by apply dialed_hostname.
  - by apply dialed_unresolved.
Qed.

End Facts.
End TcpTargetFacts.
